(** * PCIAnalyze: the statistical analytics engine

    A shallow embedding of the three analytics classes of the dashboard
    ([KPICalculator], [ProcessAnalytics] and the [AnalyticsService] facade)
    and the properties of them that the specification states.

    JavaScript numbers are IEEE 754 binary64 values, so they are modelled by
    Rocq's primitive floats: [+], [-], [*], [/], [sqrt] and the comparisons
    are the very operations the engine performs, including NaN, the two
    infinities and the two zeros.  Array lengths and indices are natural
    numbers; they enter the arithmetic through [num_of_nat], which is exact
    below 2^53. *)

From Stdlib Require Import Floats ZArith List String Ascii Bool Lia PeanoNat.
From Stdlib Require Import Permutation Sorted.
Import ListNotations.

Set Warnings "-inexact-float".

Local Open Scope float_scope.

(* ================================================================== *)
(** ** JavaScript values *)

Module Js.

(** The values a property of a record can have: the scalars, and the
    built-in objects that every plain object inherits.  [Builtin name] is
    the value of [Object.prototype[name]]: a function, or for ["__proto__"]
    the prototype object itself. *)
Inductive Value : Type :=
  | Undefined
  | Null
  | Boolean (b : bool)
  | Number (n : float)
  | String (s : string)
  | Builtin (name : string).

(** What the engine takes from the JavaScript runtime and the language
    standard leaves to the implementation: the transcendental functions
    outside their exactly specified cases, the conversions between strings
    and numbers, case mapping, the parsing of dates
    ([dateTime v] is [new Date(v).getTime()], NaN for an invalid date),
    the source text that [String] gives for a built-in function, and the
    number of arguments that a call can take ([argumentLimit]: a call
    spreading a longer array throws a RangeError). *)
Class Runtime : Type := {
  exp_approx : float -> float;
  log_approx : float -> float;
  pow_approx : float -> float -> float;
  stringToNumber : string -> float;
  numberToString : float -> string;
  toLowerCase : string -> string;
  dateTime : Value -> float;
  builtinToString : string -> string;
  argumentLimit : N
}.

Definition isNaN (x : float) : bool := negb (x =? x).

Definition num_of_Z (z : Z) : float := of_uint63 (Uint63.of_Z z).
Definition num_of_nat (n : nat) : float := num_of_Z (Z.of_nat n).

Definition is_neg_zero (x : float) : bool :=
  match classify x with NZero => true | _ => false end.

Definition Math_abs (x : float) : float := abs x.
Definition Math_sqrt (x : float) : float := sqrt x.

(** [Math.max] and [Math.min] of two arguments: NaN when either is NaN,
    and [+0] is larger than [-0]. *)
Definition Math_max (a b : float) : float :=
  if isNaN a || isNaN b then nan
  else if a <? b then b
  else if b <? a then a
  else if is_neg_zero a then b else a.

Definition Math_min (a b : float) : float :=
  if isNaN a || isNaN b then nan
  else if a <? b then a
  else if b <? a then b
  else if is_neg_zero a then a else b.

(** [Math.max] and [Math.min] of the arguments [xs]. *)
Definition Math_max_list (xs : list float) : float :=
  fold_left Math_max xs neg_infinity.
Definition Math_min_list (xs : list float) : float :=
  fold_left Math_min xs infinity.

(** The integer below a finite number, read off its mantissa and exponent. *)
Definition floorZ (x : float) : option Z :=
  match Prim2SF x with
  | S754_zero _ => Some 0%Z
  | S754_finite s m e =>
      let signed := if s then Zneg m else Zpos m in
      Some (if (0 <=? e)%Z then Z.shiftl signed e else Z.shiftr signed (- e))
  | _ => None
  end.

Definition is_integer (x : float) : bool :=
  match Prim2SF x with
  | S754_zero _ => true
  | S754_finite _ m e =>
      if (0 <=? e)%Z then true
      else (Z.shiftl (Z.shiftr (Zpos m) (- e)) (- e) =? Zpos m)%Z
  | _ => false
  end.

Definition is_odd_integer (x : float) : bool :=
  is_integer x &&
  match floorZ x with Some z => Z.odd z | None => false end.

(** [Math.round]: the nearest integer, ties towards +Infinity; a result of
    zero keeps the sign of the argument. *)
Definition Math_round (x : float) : float :=
  match Prim2SF x with
  | S754_finite s m e =>
      if (0 <=? e)%Z then x
      else
        let k := (- e)%Z in
        let signed := if s then Zneg m else Zpos m in
        let r := Z.shiftr (2 * signed + Z.shiftl 1 k) (k + 1) in
        if (r =? 0)%Z then (if s then (-0) else 0)
        else if (r <? 0)%Z then - num_of_Z (- r) else num_of_Z r
  | _ => x
  end.

Section WithRuntime.
Context {rt : Runtime}.

(** [Math.exp], [Math.log] and [Math.pow]: the cases the standard fixes
    exactly, and the runtime's approximation elsewhere. *)
Definition Math_exp (x : float) : float :=
  if isNaN x then nan
  else if x =? 0 then 1
  else if x =? infinity then infinity
  else if x =? neg_infinity then 0
  else exp_approx x.

Definition Math_log (x : float) : float :=
  if isNaN x || (x <? 0) then nan
  else if x =? 1 then 0
  else if x =? 0 then neg_infinity
  else if x =? infinity then infinity
  else log_approx x.

Definition Math_pow (base exponent : float) : float :=
  if isNaN exponent then nan
  else if exponent =? 0 then 1
  else if isNaN base then nan
  else if base =? infinity then (if 0 <? exponent then infinity else 0)
  else if base =? neg_infinity then
    (if 0 <? exponent
     then (if is_odd_integer exponent then neg_infinity else infinity)
     else (if is_odd_integer exponent then (-0) else 0))
  else if base =? 0 then
    (if is_neg_zero base
     then (if 0 <? exponent
           then (if is_odd_integer exponent then (-0) else 0)
           else (if is_odd_integer exponent then neg_infinity else infinity))
     else (if 0 <? exponent then 0 else infinity))
  else if exponent =? infinity then
    (if 1 <? abs base then infinity
     else if abs base =? 1 then nan else 0)
  else if exponent =? neg_infinity then
    (if 1 <? abs base then 0
     else if abs base =? 1 then nan else infinity)
  else if (base <? 0) && negb (is_integer exponent) then nan
  else pow_approx base exponent.

(** [f(...xs)]: the elements of [xs] become the arguments of the call;
    more of them than the engine takes is a RangeError, [None]. *)
Definition spread_arguments {A} (xs : list A) : option (list A) :=
  if (N.of_nat (List.length xs) <=? argumentLimit)%N then Some xs else None.

(** [Math.min(...xs)] and [Math.max(...xs)]. *)
Definition Math_min_spread (xs : list float) : option float :=
  option_map Math_min_list (spread_arguments xs).
Definition Math_max_spread (xs : list float) : option float :=
  option_map Math_max_list (spread_arguments xs).

(** The conversions [Boolean(v)], [Number(v)], [String(v)] and [a === b].
    An object is truthy; a built-in function converts to its source text,
    the prototype object to ["[object Object]"], and neither text is a
    number; two built-in objects are the same object when they are
    inherited under the same name. *)
Definition ToBoolean (v : Value) : bool :=
  match v with
  | Undefined | Null => false
  | Boolean b => b
  | Number n => negb ((n =? 0) || isNaN n)
  | String s => negb (String.eqb s "")
  | Builtin _ => true
  end.

Definition ToNumber (v : Value) : float :=
  match v with
  | Undefined => nan
  | Null => 0
  | Boolean true => 1
  | Boolean false => 0
  | Number n => n
  | String s => stringToNumber s
  | Builtin _ => nan
  end.

Definition ToString (v : Value) : string :=
  match v with
  | Undefined => "undefined"
  | Null => "null"
  | Boolean true => "true"
  | Boolean false => "false"
  | Number n => numberToString n
  | String s => s
  | Builtin name =>
      if String.eqb name "__proto__" then "[object Object]" else builtinToString name
  end.

Definition strictEquals (a b : Value) : bool :=
  match a, b with
  | Undefined, Undefined => true
  | Null, Null => true
  | Boolean x, Boolean y => Bool.eqb x y
  | Number x, Number y => x =? y
  | String x, String y => String.eqb x y
  | Builtin x, Builtin y => String.eqb x y
  | _, _ => false
  end.

(** [a || b] on values. *)
Definition logicalOr (a b : Value) : Value :=
  if ToBoolean a then a else b.
End WithRuntime.

(** *** Records: [Record<string, any>]

    The rows of a parsed sheet: plain objects, given by their own
    properties in creation order. *)

Definition Record := list (string * Value).

(** The properties an object created by [{}] inherits from
    [Object.prototype]; reading any of them gives a function, or the
    prototype itself for [__proto__], all truthy values. *)
Definition Object_prototype_properties : list string :=
  ["constructor"; "hasOwnProperty"; "isPrototypeOf"; "propertyIsEnumerable";
   "toLocaleString"; "toString"; "valueOf"; "__proto__";
   "__defineGetter__"; "__defineSetter__"; "__lookupGetter__";
   "__lookupSetter__"]%string.

Definition inherited (k : string) : bool :=
  existsb (String.eqb k) Object_prototype_properties.

(** The own property [field] of [item], if it has one. *)
Fixpoint own (item : Record) (field : string) : option Value :=
  match item with
  | [] => None
  | (k, v) :: rest => if String.eqb k field then Some v else own rest field
  end.

(** [item[field]]: the own property, else the property of that name that
    the object inherits, else [undefined]. *)
Definition get (item : Record) (field : string) : Value :=
  match own item field with
  | Some v => v
  | None => if inherited field then Builtin field else Undefined
  end.

(** *** Arrays *)

(** [xs.slice(start, end)]. *)
Definition slice {A} (start stop : nat) (xs : list A) : list A :=
  firstn (stop - start) (skipn start xs).

(** [xs.sort(cmp)]: the sort is stable, [a] goes after [b] only when
    [cmp(a, b) > 0] (a NaN result counts as 0).  For a comparator that
    orders the elements consistently this is the one order the language
    defines, whatever the engine.  For another comparator (differences
    that are NaN among others that are not) the language leaves the order
    to the engine; the result is then still a rearrangement of [xs], but
    its order here, that of a stable insertion sort, need not be the
    engine's.  The properties below that speak of an order are therefore
    stated for comparators that are consistent on the array. *)
Fixpoint sort_insert {A} (cmp : A -> A -> float) (x : A) (l : list A) : list A :=
  match l with
  | [] => [x]
  | y :: r => if 0 <? cmp x y then y :: sort_insert cmp x r else x :: y :: r
  end.

Fixpoint sort {A} (cmp : A -> A -> float) (l : list A) : list A :=
  match l with
  | [] => []
  | x :: r => sort_insert cmp x (sort cmp r)
  end.

(** *** Objects used as dictionaries

    An object's own string-keyed properties, in creation order.
    [Object.entries] lists the keys that are array indices first, in
    ascending numeric order, then the others in creation order. *)
Definition Dict (V : Type) := list (string * V).

Fixpoint dict_get {V} (d : Dict V) (k : string) : option V :=
  match d with
  | [] => None
  | (k', v) :: rest => if String.eqb k' k then Some v else dict_get rest k
  end.

Fixpoint dict_set {V} (d : Dict V) (k : string) (v : V) : Dict V :=
  match d with
  | [] => [(k, v)]
  | (k', v') :: rest =>
      if String.eqb k' k then (k', v) :: rest else (k', v') :: dict_set rest k v
  end.

(** [if (!obj[key]) { obj[key] = []; } obj[key].push(item)] on an object
    created by [{}].  A key that names an inherited property reads as that
    property, which is truthy and has no [push]: the call throws a
    TypeError, [None]. *)
Definition push_into {V} (obj : Dict (list V)) (key : string) (item : V)
  : option (Dict (list V)) :=
  match dict_get obj key with
  | Some items => Some (dict_set obj key (items ++ [item]))
  | None => if inherited key then None else Some (dict_set obj key [item])
  end.

(** [items.forEach(...)] with a callback that updates [s] and may throw;
    an exception ends the loop. *)
Fixpoint forEach {S A} (f : S -> A -> option S) (items : list A) (s : S) : option S :=
  match items with
  | [] => Some s
  | item :: rest =>
      match f s item with
      | Some s' => forEach f rest s'
      | None => None
      end
  end.

Definition digit_of (c : ascii) : option N :=
  let n := N_of_ascii c in
  if ((48 <=? n) && (n <=? 57))%N then Some (n - 48)%N else None.

Fixpoint digits_value (s : string) (acc : N) : option N :=
  match s with
  | EmptyString => Some acc
  | String.String c r =>
      match digit_of c with
      | Some d => digits_value r (10 * acc + d)%N
      | None => None
      end
  end.

(** A canonical numeric string below 2^32 - 1 is an array index. *)
Definition array_index (k : string) : option N :=
  match k with
  | EmptyString => None
  | String.String c r =>
      if (String.length k <=? 10)%nat then
        match digits_value k 0 with
        | Some n =>
            if (Ascii.eqb c "0" && negb (String.eqb r "")) then None
            else if (n <? 4294967295)%N then Some n else None
        | None => None
        end
      else None
  end.

Fixpoint insert_index {V} (n : N) (e : string * V) (l : list (N * (string * V)))
  : list (N * (string * V)) :=
  match l with
  | [] => [(n, e)]
  | (m, e') :: r =>
      if (n <? m)%N then (n, e) :: (m, e') :: r else (m, e') :: insert_index n e r
  end.

Fixpoint index_entries {V} (d : Dict V) : list (N * (string * V)) :=
  match d with
  | [] => []
  | (k, v) :: rest =>
      match array_index k with
      | Some n => insert_index n (k, v) (index_entries rest)
      | None => index_entries rest
      end
  end.

Definition named_entries {V} (d : Dict V) : list (string * V) :=
  filter (fun e => match array_index (fst e) with Some _ => false | None => true end) d.

Definition Object_entries {V} (d : Dict V) : list (string * V) :=
  map snd (index_entries d) ++ named_entries d.

Definition Object_values {V} (d : Dict V) : list V :=
  map snd (Object_entries d).

(** An optional property of an options literal: absent, or present with a
    value that may be [undefined]. *)
Definition spread {T} (default : option T) (given : option (option T)) : option T :=
  match given with
  | Some v => v
  | None => default
  end.

(** [x || d] for an optional number: [undefined], NaN and zero are falsy. *)
Definition num_or (x : option float) (d : float) : float :=
  match x with
  | Some n => if (n =? 0) || isNaN n then d else n
  | None => d
  end.

Definition truthy_bool (x : option bool) : bool :=
  match x with Some b => b | None => false end.

End Js.

Import Js.

(* ================================================================== *)
(** ** KPICalculator (kpi-calculator.ts) *)

Module KPICalculator.

(** The literal passed to the constructor. *)
Record KPICalculatorOptions : Type := {
  given_confidenceLevel : option (option float);
  given_outlierDetection : option (option bool);
  given_outlierThreshold : option (option float)
}.

(** The instance: [this.options] after the defaults were merged in. *)
Record t : Type := {
  confidenceLevel : option float;
  outlierDetection : option bool;
  outlierThreshold : option float
}.

Definition new (options : KPICalculatorOptions) : t :=
  {| confidenceLevel := spread (Some 0.95) (given_confidenceLevel options);
     outlierDetection := spread (Some true) (given_outlierDetection options);
     outlierThreshold := spread (Some 1.5) (given_outlierThreshold options) |}.

Record RFTResult : Type := {
  rate : float;
  rft_confidenceInterval : float * float;
  rft_sampleSize : nat
}.

Record ProcessDurationResult : Type := {
  average : float;
  median : float;
  min : float;
  max : float;
  stdDev : float;
  confidenceInterval : float * float;
  outliers : list float;
  sampleSize : nat
}.

Record VarianceAnalysisResult : Type := {
  groupName : string;
  va_average : float;
  variance : float;
  va_sampleSize : nat;
  significantlyDifferent : bool;
  va_pValue : float
}.

Record PeriodStat : Type := {
  period : nat;
  ps_average : float;
  ps_stdDev : float;
  ps_sampleSize : nat
}.

Variant Trend : Type := increasing | decreasing | stable.

Record TrendAnalysis : Type := {
  trend : Trend;
  slope : float;
  intercept : float;
  rSquared : float;
  significant : bool;
  pValue : float;
  periods : list PeriodStat
}.

(** What [identifyTrends] returns: the object
    [{trend: 'none', significance, periods}] when no value is numeric,
    the full analysis otherwise. *)
Variant TrendResult : Type :=
  | TrendNone (significance : float) (periods : list PeriodStat)
  | TrendFound (analysis : TrendAnalysis).

Record Regression : Type := {
  reg_slope : float;
  reg_intercept : float;
  reg_rSquared : float
}.

Section Methods.
Context {rt : Runtime}.

Definition calculateMean (values : list float) : float :=
  match values with
  | [] => 0
  | _ => fold_left (fun sum value => sum + value) values 0
         / num_of_nat (List.length values)
  end.

Definition calculateMedian (values : list float) : float :=
  match values with
  | [] => 0
  | _ =>
      let sortedValues := sort (fun a b => a - b) values in
      let midIndex := (List.length sortedValues / 2)%nat in
      if Nat.even (List.length sortedValues)
      then (nth (midIndex - 1) sortedValues nan + nth midIndex sortedValues nan) / 2
      else nth midIndex sortedValues nan
  end.

Definition calculateVariance (values : list float) : float :=
  if (List.length values <=? 1)%nat then 0
  else
    let mean := calculateMean values in
    let squaredDiffs := map (fun value => Math_pow (value - mean) 2) values in
    fold_left (fun sum value => sum + value) squaredDiffs 0
    / (num_of_nat (List.length values) - 1).

Definition calculateStandardDeviation (values : list float) : float :=
  Math_sqrt (calculateVariance values).

Definition normalCDF (x : float) : float :=
  let t := 1 / (1 + 0.2316419 * Math_abs x) in
  let d := 0.3989423 * Math_exp ((- x) * x / 2) in
  let p := d * t * (0.3193815 + t * (-0.3565638 + t * (1.781478 + t * (-1.821256 + t * 1.330274)))) in
  if 0 <? x then 1 - p else p.

Definition inverseNormalCDF (p : float) : float :=
  if p <=? 0 then neg_infinity
  else if 1 <=? p then infinity
  else
    let a1 := -39.6968302866538 in
    let a2 := 220.946098424521 in
    let a3 := -275.928510446969 in
    let a4 := 138.357751867269 in
    let a5 := -30.6647980661472 in
    let a6 := 2.50662827745924 in
    let b1 := -54.4760987982241 in
    let b2 := 161.585836858041 in
    let b3 := -155.698979859887 in
    let b4 := 66.8013118877197 in
    let b5 := -13.2806815528857 in
    let c1 := -7.78489400243029E-03 in
    let c2 := -0.322396458041136 in
    let c3 := -2.40075827716184 in
    let c4 := -2.54973253934373 in
    let c5 := 4.37466414146497 in
    let c6 := 2.93816398269878 in
    let d1 := 7.78469570904146E-03 in
    let d2 := 0.32246712907004 in
    let d3 := 2.445134137143 in
    let d4 := 3.75440866190742 in
    let q := p - 0.5 in
    if Math_abs q <=? 0.425 then
      let r := 0.180625 - q * q in
      q * (((((a6 * r + a5) * r + a4) * r + a3) * r + a2) * r + a1) /
          (((((b5 * r + b4) * r + b3) * r + b2) * r + b1) * r + 1)
    else
      let r := if q <? 0 then p else 1 - p in
      let r := Math_sqrt (- Math_log r) in
      let x :=
        if r <=? 5 then
          let r := r - 1.6 in
          (((((c6 * r + c5) * r + c4) * r + c3) * r + c2) * r + c1) /
          ((((d4 * r + d3) * r + d2) * r + d1) * r + 1)
        else
          let r := r - 5 in
          (((((c6 * r + c5) * r + c4) * r + c3) * r + c2) * r + c1) /
          ((((d4 * r + d3) * r + d2) * r + d1) * r + 1) in
      if q <? 0 then - x else x.

Definition getZScore (confidenceLevel : float) : float :=
  if confidenceLevel =? 0.90 then 1.645
  else if confidenceLevel =? 0.95 then 1.96
  else if confidenceLevel =? 0.99 then 2.576
  else
    let alpha := 1 - confidenceLevel in
    - inverseNormalCDF (alpha / 2).

Definition tDistPValue (t df : float) : float :=
  if 30 <? df then 2 * (1 - normalCDF t)
  else
    let x := df / (df + t * t) in
    let p := Math_sqrt (1 - x) * (0.5 + (0.3989422804 * Math_exp ((- t) * t / 2))) in
    let p := p * (1 - 1 / (4 * df)) in
    2 * p.

Definition calculateWilsonInterval (successes total : nat) (confidenceLevel : float)
  : float * float :=
  if (total =? 0)%nat then (0, 0)
  else
    let successes := num_of_nat successes in
    let total := num_of_nat total in
    let proportion := successes / total in
    let z := getZScore confidenceLevel in
    let z2 := z * z in
    let numerator := proportion + z2 / (2 * total) in
    let denominator := 1 + z2 / total in
    let center := numerator / denominator in
    let adjustment :=
      z * Math_sqrt ((proportion * (1 - proportion) + z2 / (4 * total)) / total)
      / denominator in
    (Math_max 0 (center - adjustment), Math_min 1 (center + adjustment)).

Definition calculateConfidenceIntervalForMean (values : list float) (confidenceLevel : float)
  : float * float :=
  match values with
  | [] => (0, 0)
  | _ =>
      let mean := calculateMean values in
      let stdDev := calculateStandardDeviation values in
      let n := num_of_nat (List.length values) in
      let z := getZScore confidenceLevel in
      let marginOfError := z * (stdDev / Math_sqrt n) in
      (mean - marginOfError, mean + marginOfError)
  end.

(** The result of [detectOutliers]: [(cleanData, outliers)].  The indices
    [Math.floor(length * 0.25)] and [Math.floor(length * 0.75)] are the
    integers [length / 4] and [length * 3 / 4]: 0.25 and 0.75 are binary
    fractions and the products are exact for every array length. *)
Definition detectOutliers (values : list float) (threshold : float)
  : list float * list float :=
  match values with
  | [] => ([], [])
  | _ =>
      let sortedValues := sort (fun a b => a - b) values in
      let q1Index := (List.length sortedValues / 4)%nat in
      let q3Index := (List.length sortedValues * 3 / 4)%nat in
      let q1 := nth q1Index sortedValues nan in
      let q3 := nth q3Index sortedValues nan in
      let iqr := q3 - q1 in
      let lowerBound := q1 - threshold * iqr in
      let upperBound := q3 + threshold * iqr in
      let isOutlier value := (value <? lowerBound) || (upperBound <? value) in
      (filter (fun value => negb (isOutlier value)) values,
       filter isOutlier values)
  end.

Definition calculateLinearRegression (x y : list float) : Regression :=
  if negb (List.length x =? List.length y)%nat || (List.length x =? 0)%nat
  then {| reg_slope := 0; reg_intercept := 0; reg_rSquared := 0 |}
  else
    let xMean := calculateMean x in
    let yMean := calculateMean y in
    let '(sumXY, sumXX, sumYY) :=
      fold_left
        (fun '(sumXY, sumXX, sumYY) '(xi, yi) =>
           let xDiff := xi - xMean in
           let yDiff := yi - yMean in
           (sumXY + xDiff * yDiff, sumXX + xDiff * xDiff, sumYY + yDiff * yDiff))
        (combine x y) (0, 0, 0) in
    let slope := sumXY / sumXX in
    let intercept := yMean - slope * xMean in
    let rSquared := Math_pow sumXY 2 / (sumXX * sumYY) in
    {| reg_slope := slope; reg_intercept := intercept; reg_rSquared := rSquared |}.

(** The predicate of [calculateRFT]'s filter. *)
Definition isSuccess (successField : string) (successValue : Value) (item : Record) : bool :=
  let value := get item successField in
  match successValue with
  | Boolean b => Bool.eqb (ToBoolean value) b
  | String s => String.eqb (toLowerCase (ToString value)) (toLowerCase s)
  | _ => strictEquals value successValue
  end.

Definition calculateRFT (this : t) (data : list Record)
    (successField : string) (successValue : Value) : RFTResult :=
  let totalCount := List.length data in
  let successCount := List.length (filter (isSuccess successField successValue) data) in
  let rftRate :=
    if (0 <? totalCount)%nat
    then num_of_nat successCount / num_of_nat totalCount else 0 in
  let confidenceInterval :=
    calculateWilsonInterval successCount totalCount
      (num_or (confidenceLevel this) 0.95) in
  {| rate := rftRate;
     rft_confidenceInterval := confidenceInterval;
     rft_sampleSize := totalCount |}.

(** [data.map(item => Number(item[field])).filter(value => !isNaN(value))]. *)
Definition numericValues (data : list Record) (field : string) : list float :=
  filter (fun value => negb (isNaN value))
         (map (fun item => ToNumber (get item field)) data).

(** The outlier step of [calculateProcessDuration]:
    [(cleanedDurations, outliers)]. *)
Definition cleanDurations (this : t) (durations : list float)
  : list float * list float :=
  if truthy_bool (outlierDetection this)
  then detectOutliers durations (num_or (outlierThreshold this) 1.5)
  else (durations, []).

(** The result, or [None] when [Math.min(...cleanedDurations)] or
    [Math.max(...cleanedDurations)] throws a RangeError. *)
Definition calculateProcessDuration (this : t) (data : list Record)
    (durationField : string) : option ProcessDurationResult :=
  let durations := numericValues data durationField in
  if (List.length durations =? 0)%nat then
    Some {| average := 0; median := 0; min := 0; max := 0; stdDev := 0;
            confidenceInterval := (0, 0); outliers := []; sampleSize := 0 |}
  else
    let '(cleanedDurations, outliers) := cleanDurations this durations in
    match Math_min_spread cleanedDurations with
    | None => None
    | Some min =>
        match Math_max_spread cleanedDurations with
        | None => None
        | Some max =>
            Some {| average := calculateMean cleanedDurations;
                    median := calculateMedian cleanedDurations;
                    min := min;
                    max := max;
                    stdDev := calculateStandardDeviation cleanedDurations;
                    confidenceInterval :=
                      calculateConfidenceIntervalForMean cleanedDurations
                        (num_or (confidenceLevel this) 0.95);
                    outliers := outliers;
                    sampleSize := List.length durations |}
        end
    end.

(** [[...data].sort((a, b) => new Date(a[timeField]).getTime() - ...)]. *)
Definition sortByTime (data : list Record) (timeField : string) : list Record :=
  sort (fun a b => dateTime (get a timeField) - dateTime (get b timeField)) data.

(** The grouping loop of [analyzeVariance]. *)
Definition groupValues (data : list Record) (groupField valueField : string)
  : option (Dict (list float)) :=
  forEach
    (fun groups item =>
       let groupValue := ToString (logicalOr (get item groupField) (String "Unknown")) in
       let value := ToNumber (get item valueField) in
       if negb (isNaN value) then push_into groups groupValue value
       else Some groups)
    data [].

Definition analyzeVariance (data : list Record) (groupField valueField : string)
  : option (list VarianceAnalysisResult) :=
  match groupValues data groupField valueField with
  | None => None
  | Some groups =>
      let allValues := List.concat (Object_values groups) in
      let overallAverage := calculateMean allValues in
      let overallVariance := calculateVariance allValues in
      Some
        (map
           (fun '(groupName, values) =>
              let average := calculateMean values in
              let variance := calculateVariance values in
              let sampleSize := List.length values in
              let significantlyDifferent :=
                2 * Math_sqrt (overallVariance / num_of_nat sampleSize)
                <? Math_abs (average - overallAverage) in
              let zScore :=
                Math_abs (average - overallAverage)
                / Math_sqrt (overallVariance / num_of_nat sampleSize) in
              let pValue := 2 * (1 - normalCDF zScore) in
              {| groupName := groupName;
                 va_average := average;
                 variance := variance;
                 va_sampleSize := sampleSize;
                 significantlyDifferent := significantlyDifferent;
                 va_pValue := pValue |})
           (Object_entries groups))
  end.

(** The values of the [i]-th of [periods] periods. *)
Definition periodSlice (values : list float) (periods periodSize i : nat) : list float :=
  let start := (i * periodSize)%nat in
  let stop := if (i =? periods - 1)%nat then List.length values
              else ((i + 1) * periodSize)%nat in
  slice start stop values.

Definition identifyTrends (data : list Record) (timeField valueField : string)
    (periods : nat) : TrendResult :=
  let sortedData := sortByTime data timeField in
  let values := numericValues sortedData valueField in
  if (List.length values =? 0)%nat then TrendNone 0 []
  else
    let periodSize := Nat.max 1 (List.length values / periods) in
    let periodValues :=
      map (periodSlice values periods periodSize) (seq 0 periods) in
    let periodStats :=
      map (fun '(index, periodData) =>
             {| period := index + 1;
                ps_average := calculateMean periodData;
                ps_stdDev := calculateStandardDeviation periodData;
                ps_sampleSize := List.length periodData |})
          (combine (seq 0 periods) periodValues) in
    let xValues := map (fun i => num_of_nat (i + 1)) (seq 0 (List.length periodStats)) in
    let yValues := map ps_average periodStats in
    let regression := calculateLinearRegression xValues yValues in
    let trend :=
      if 0 <? reg_slope regression then increasing
      else if reg_slope regression <? 0 then decreasing
      else stable in
    let n := num_of_nat periods in
    let xMean := calculateMean xValues in
    let sumSquaredX :=
      fold_left (fun sum x => sum + Math_pow (x - xMean) 2) xValues 0 in
    let residuals :=
      map (fun '(y, x) => y - (reg_slope regression * x + reg_intercept regression))
          (combine yValues xValues) in
    let residualSumSquares := fold_left (fun sum r => sum + r * r) residuals 0 in
    let standardError := Math_sqrt (residualSumSquares / (n - 2)) in
    let slopeStandardError := standardError / Math_sqrt sumSquaredX in
    let tStatistic := reg_slope regression / slopeStandardError in
    let degreesOfFreedom := n - 2 in
    let pValue := tDistPValue (Math_abs tStatistic) degreesOfFreedom in
    let significant := pValue <? 0.05 in
    TrendFound
      {| trend := trend;
         slope := reg_slope regression;
         intercept := reg_intercept regression;
         rSquared := reg_rSquared regression;
         significant := significant;
         pValue := pValue;
         periods := periodStats |}.
End Methods.

End KPICalculator.

(* ================================================================== *)
(** ** ProcessAnalytics (process-analytics.ts) *)

Module ProcessAnalytics.

Record ProcessAnalyticsOptions : Type := {
  given_confidenceLevel : option (option float);
  given_significanceThreshold : option (option float);
  given_minCorrelationStrength : option (option float);
  given_predictionHorizon : option (option float)
}.

Record t : Type := {
  confidenceLevel : option float;
  significanceThreshold : option float;
  minCorrelationStrength : option float;
  predictionHorizon : option float;
  kpiCalculator : KPICalculator.t
}.

Definition new (options : ProcessAnalyticsOptions) : t :=
  let confidenceLevel := spread (Some 0.95) (given_confidenceLevel options) in
  {| confidenceLevel := confidenceLevel;
     significanceThreshold := spread (Some 0.05) (given_significanceThreshold options);
     minCorrelationStrength := spread (Some 0.3) (given_minCorrelationStrength options);
     predictionHorizon := spread (Some 3) (given_predictionHorizon options);
     kpiCalculator :=
       KPICalculator.new
         {| KPICalculator.given_confidenceLevel := Some confidenceLevel;
            KPICalculator.given_outlierDetection := None;
            KPICalculator.given_outlierThreshold := None |} |}.

Record CorrelationResult : Type := {
  parameter1 : string;
  parameter2 : string;
  correlationCoefficient : float;
  pValue : float;
  significant : bool;
  sampleSize : nat
}.

(** The objects put into [supportingData]. *)
Variant SupportingData : Type :=
  | CycleData (cycleLength : nat) (autocorrelation : float)
  | TrendData (slope rSquared pValue trendStrength : float)
  | StepChangeData (changePoint : nat)
      (beforeMean afterMean relativeChange pValue : float).

Record PatternRecognitionResult : Type := {
  patternType : string;
  description : string;
  affectedParameters : list string;
  confidence : float;
  supportingData : list SupportingData
}.

Record PredictionResult : Type := {
  parameter : string;
  currentValue : float;
  predictedValue : float;
  predictedChange : float;
  predictedChangePercent : float;
  pr_confidenceInterval : float * float;
  pr_predictionHorizon : string;
  reliability : float
}.

(** A group's statistics in [identifyBestPerformers], before ranking. *)
Record Performance : Type := {
  processType : string;
  average : float;
  stdDev : float;
  confidenceInterval : float * float;
  pf_sampleSize : nat
}.

(** An element of the array [identifyBestPerformers] returns. *)
Record Performer : Type := {
  performance : Performance;
  rank : nat;
  significantlyBetterCount : nat;
  percentileBetter : float
}.

Record Regression : Type := {
  reg_slope : float;
  reg_intercept : float;
  reg_rSquared : float
}.

Section Methods.
Context {rt : Runtime}.

Definition calculateMean (values : list float) : float :=
  match values with
  | [] => 0
  | _ => fold_left (fun sum value => sum + value) values 0
         / num_of_nat (List.length values)
  end.

Definition calculateStandardDeviation (values : list float) : float :=
  if (List.length values <=? 1)%nat then 0
  else
    let mean := calculateMean values in
    let squaredDiffs := map (fun value => Math_pow (value - mean) 2) values in
    Math_sqrt (fold_left (fun sum value => sum + value) squaredDiffs 0
               / (num_of_nat (List.length values) - 1)).

Definition normalCDF (x : float) : float :=
  let t := 1 / (1 + 0.2316419 * Math_abs x) in
  let d := 0.3989423 * Math_exp ((- x) * x / 2) in
  let p := d * t * (0.3193815 + t * (-0.3565638 + t * (1.781478 + t * (-1.821256 + t * 1.330274)))) in
  if 0 <? x then 1 - p else p.

Definition tDistPValue (t df : float) : float :=
  if 30 <? df then 2 * (1 - normalCDF t)
  else
    let x := df / (df + t * t) in
    let p := Math_sqrt (1 - x) * (0.5 + (0.3989422804 * Math_exp ((- t) * t / 2))) in
    let p := p * (1 - 1 / (4 * df)) in
    2 * p.

Definition getTValue (degreesOfFreedom confidenceLevel : float) : float :=
  if 30 <? degreesOfFreedom then
    if confidenceLevel =? 0.90 then 1.645
    else if confidenceLevel =? 0.95 then 1.96
    else if confidenceLevel =? 0.99 then 2.576
    else if (0.90 <? confidenceLevel) && (confidenceLevel <? 0.95) then
      1.645 + (1.96 - 1.645) * ((confidenceLevel - 0.90) / 0.05)
    else if (0.95 <? confidenceLevel) && (confidenceLevel <? 0.99) then
      1.96 + (2.576 - 1.96) * ((confidenceLevel - 0.95) / 0.04)
    else 2
  else if confidenceLevel =? 0.95 then
    if degreesOfFreedom =? 1 then 12.71
    else if degreesOfFreedom =? 2 then 4.30
    else if degreesOfFreedom =? 3 then 3.18
    else if degreesOfFreedom =? 4 then 2.78
    else if degreesOfFreedom =? 5 then 2.57
    else if degreesOfFreedom <=? 10 then 2.23
    else if degreesOfFreedom <=? 20 then 2.09
    else 2.04
  else if confidenceLevel =? 0.99 then
    if degreesOfFreedom =? 1 then 63.66
    else if degreesOfFreedom =? 2 then 9.92
    else if degreesOfFreedom =? 3 then 5.84
    else if degreesOfFreedom =? 4 then 4.60
    else if degreesOfFreedom =? 5 then 4.03
    else if degreesOfFreedom <=? 10 then 3.17
    else if degreesOfFreedom <=? 20 then 2.85
    else 2.75
  else 2.

Definition calculateConfidenceInterval (values : list float) (confidenceLevel : float)
  : float * float :=
  if (List.length values <=? 1)%nat then (0, 0)
  else
    let mean := calculateMean values in
    let stdDev := calculateStandardDeviation values in
    let n := num_of_nat (List.length values) in
    let tValue := getTValue (n - 1) confidenceLevel in
    let marginOfError := tValue * (stdDev / Math_sqrt n) in
    (mean - marginOfError, mean + marginOfError).

Definition calculateLinearRegression (x y : list float) : Regression :=
  if negb (List.length x =? List.length y)%nat || (List.length x =? 0)%nat
  then {| reg_slope := 0; reg_intercept := 0; reg_rSquared := 0 |}
  else
    let xMean := calculateMean x in
    let yMean := calculateMean y in
    let '(sumXY, sumXX, sumYY) :=
      fold_left
        (fun '(sumXY, sumXX, sumYY) '(xi, yi) =>
           let xDiff := xi - xMean in
           let yDiff := yi - yMean in
           (sumXY + xDiff * yDiff, sumXX + xDiff * xDiff, sumYY + yDiff * yDiff))
        (combine x y) (0, 0, 0) in
    let slope := sumXY / sumXX in
    let intercept := yMean - slope * xMean in
    let rSquared := Math_pow sumXY 2 / (sumXX * sumYY) in
    {| reg_slope := slope; reg_intercept := intercept; reg_rSquared := rSquared |}.

Definition calculatePredictionInterval (x y : list float) (regression : Regression)
    (predictX confidenceLevel : float) : float * float :=
  if negb (List.length x =? List.length y)%nat || (List.length x <? 3)%nat then (0, 0)
  else
    let n := num_of_nat (List.length x) in
    let xMean := calculateMean x in
    let predictedY := reg_slope regression * predictX + reg_intercept regression in
    let residuals :=
      map (fun '(yValue, xi) =>
             yValue - (reg_slope regression * xi + reg_intercept regression))
          (combine y x) in
    let residualSumSquares := fold_left (fun sum r => sum + r * r) residuals 0 in
    let standardError := Math_sqrt (residualSumSquares / (n - 2)) in
    let sumSquaredX :=
      fold_left (fun sum xValue => sum + Math_pow (xValue - xMean) 2) x 0 in
    let tValue := getTValue (n - 2) confidenceLevel in
    let predictionWidth :=
      tValue * standardError
      * Math_sqrt (1 + 1 / n + Math_pow (predictX - xMean) 2 / sumSquaredX) in
    (predictedY - predictionWidth, predictedY + predictionWidth).

Definition calculatePearsonCorrelation (pairs : list (float * float)) : float :=
  if (List.length pairs <? 2)%nat then 0
  else
    let n := num_of_nat (List.length pairs) in
    let '(sumX, sumY) :=
      fold_left (fun '(sumX, sumY) '(x, y) => (sumX + x, sumY + y)) pairs (0, 0) in
    let meanX := sumX / n in
    let meanY := sumY / n in
    let '(numerator, denominatorX, denominatorY) :=
      fold_left
        (fun '(numerator, denominatorX, denominatorY) '(x, y) =>
           let xDiff := x - meanX in
           let yDiff := y - meanY in
           (numerator + xDiff * yDiff,
            denominatorX + xDiff * xDiff,
            denominatorY + yDiff * yDiff))
        pairs (0, 0, 0) in
    let denominator := Math_sqrt (denominatorX * denominatorY) in
    if denominator =? 0 then 0 else numerator / denominator.

Definition calculateCorrelationPValue (r : float) (n : nat) : float :=
  if (n <? 3)%nat then 1
  else
    let n := num_of_nat n in
    let tStat := r * Math_sqrt ((n - 2) / (1 - r * r)) in
    tDistPValue (Math_abs tStat) (n - 2).

(** [values = sortedData.map(item => Number(item[parameter])).filter(...)]. *)
Definition numericValues (data : list Record) (field : string) : list float :=
  filter (fun value => negb (isNaN value))
         (map (fun item => ToNumber (get item field)) data).

Definition sortByTime (data : list Record) (timeField : string) : list Record :=
  sort (fun a b => dateTime (get a timeField) - dateTime (get b timeField)) data.

(** *** analyzeCorrelations *)

Definition numericPairs (data : list Record) (param1 param2 : string)
  : list (float * float) :=
  fold_left
    (fun pairs item =>
       let value1 := ToNumber (get item param1) in
       let value2 := ToNumber (get item param2) in
       if negb (isNaN value1) && negb (isNaN value2)
       then pairs ++ [(value1, value2)] else pairs)
    data [].

(** The pairs [(parameters[i], parameters[j])], [i < j], in loop order. *)
Fixpoint parameterPairs (parameters : list string) : list (string * string) :=
  match parameters with
  | [] => []
  | param1 :: rest => map (pair param1) rest ++ parameterPairs rest
  end.

Definition correlate (this : t) (data : list Record) (param1 param2 : string)
  : option CorrelationResult :=
  let pairs := numericPairs data param1 param2 in
  if (List.length pairs <? 3)%nat then None
  else
    let correlation := calculatePearsonCorrelation pairs in
    let pValue := calculateCorrelationPValue correlation (List.length pairs) in
    let significant :=
      (pValue <? num_or (significanceThreshold this) 0.05)
      && (num_or (minCorrelationStrength this) 0.3 <=? Math_abs correlation) in
    Some {| parameter1 := param1;
            parameter2 := param2;
            correlationCoefficient := correlation;
            pValue := pValue;
            significant := significant;
            sampleSize := List.length pairs |}.

Definition analyzeCorrelations (this : t) (data : list Record)
    (parameters : list string) : list CorrelationResult :=
  let results :=
    flat_map
      (fun '(param1, param2) =>
         match correlate this data param1 param2 with
         | Some r => [r]
         | None => []
         end)
      (parameterPairs parameters) in
  sort (fun a b => Math_abs (correlationCoefficient b)
                   - Math_abs (correlationCoefficient a))
       results.

(** *** The pattern detectors *)

(** The autocorrelation at one lag. *)
Definition autocorrelationAt (values : list float) (lag : nat) : float :=
  let mean := calculateMean values in
  let '(numerator, denominator) :=
    fold_left
      (fun '(numerator, denominator) i =>
         (numerator + (nth i values nan - mean) * (nth (i + lag) values nan - mean),
          denominator + Math_pow (nth i values nan - mean) 2))
      (seq 0 (List.length values - lag)) (0, 0) in
  numerator / denominator.

Definition detectCyclicalPattern (sortedData : list Record) (parameter : string)
  : option PatternRecognitionResult :=
  let values := numericValues sortedData parameter in
  if (List.length values <? 10)%nat then None
  else
    let maxLag := (List.length values / 3)%nat in
    let autocorrelations := map (autocorrelationAt values) (seq 1 maxLag) in
    let peaks :=
      flat_map
        (fun i =>
           if (nth (i - 1) autocorrelations nan <? nth i autocorrelations nan)
              && (nth (i + 1) autocorrelations nan <? nth i autocorrelations nan)
              && (0.3 <? nth i autocorrelations nan)
           then [(i + 1)%nat] else [])
        (seq 1 (List.length autocorrelations - 2)) in
    match peaks with
    | [] => None
    | cycleLength :: _ =>
        let confidence := Math_min 1 (nth (cycleLength - 1) autocorrelations nan + 0.5) in
        Some {| patternType := "cyclical";
                description :=
                  ("Cyclical pattern detected in " ++ parameter
                   ++ " with approximate cycle length of "
                   ++ numberToString (num_of_nat cycleLength) ++ " data points")%string;
                affectedParameters := [parameter];
                confidence := confidence;
                supportingData :=
                  [CycleData cycleLength (nth (cycleLength - 1) autocorrelations nan)] |}
    end.

Definition detectTrendPattern (this : t) (sortedData : list Record) (parameter : string)
  : option PatternRecognitionResult :=
  let values := numericValues sortedData parameter in
  if (List.length values <? 5)%nat then None
  else
    let xValues := map num_of_nat (seq 0 (List.length values)) in
    let regression := calculateLinearRegression xValues values in
    let n := num_of_nat (List.length values) in
    let xMean := calculateMean xValues in
    let sumSquaredX :=
      fold_left (fun sum x => sum + Math_pow (x - xMean) 2) xValues 0 in
    let residuals :=
      map (fun '(y, x) => y - (reg_slope regression * x + reg_intercept regression))
          (combine values xValues) in
    let residualSumSquares := fold_left (fun sum r => sum + r * r) residuals 0 in
    let standardError := Math_sqrt (residualSumSquares / (n - 2)) in
    let slopeStandardError := standardError / Math_sqrt sumSquaredX in
    let tStatistic := reg_slope regression / slopeStandardError in
    let degreesOfFreedom := n - 2 in
    let pValue := tDistPValue (Math_abs tStatistic) degreesOfFreedom in
    if (num_or (significanceThreshold this) 0.05 <=? pValue)
       || (Math_abs (reg_slope regression) <? 0.01 * calculateMean values)
    then None
    else
      let trendDirection :=
        if 0 <? reg_slope regression then "Increasing"%string
        else "Decreasing"%string in
      let trendStrength := Math_abs (reg_slope regression) / calculateMean values in
      let confidence := (1 - pValue) * reg_rSquared regression in
      Some {| patternType := "trend";
              description := (trendDirection ++ " trend detected in " ++ parameter)%string;
              affectedParameters := [parameter];
              confidence := confidence;
              supportingData :=
                [TrendData (reg_slope regression) (reg_rSquared regression)
                           pValue trendStrength] |}.

(** The scan of the split points: [(bestChangePoint, maxMeanDifference)],
    [None] for the initial [-1]. *)
Definition scanChangePoints (values : list float) (minSegmentSize : nat)
  : option nat * float :=
  fold_left
    (fun '(bestChangePoint, maxMeanDifference) i =>
       let segment1 := slice 0 i values in
       let segment2 := skipn i values in
       let mean1 := calculateMean segment1 in
       let mean2 := calculateMean segment2 in
       let meanDifference := Math_abs (mean2 - mean1) in
       if maxMeanDifference <? meanDifference
       then (Some i, meanDifference)
       else (bestChangePoint, maxMeanDifference))
    (seq minSegmentSize (List.length values - minSegmentSize + 1 - minSegmentSize))
    (None, 0).

Definition detectStepChangePattern (this : t) (sortedData : list Record)
    (parameter : string) : option PatternRecognitionResult :=
  let values := numericValues sortedData parameter in
  if (List.length values <? 10)%nat then None
  else
    let minSegmentSize := Nat.max 3 (List.length values / 10) in
    match fst (scanChangePoints values minSegmentSize) with
    | None => None
    | Some bestChangePoint =>
        let segment1 := slice 0 bestChangePoint values in
        let segment2 := skipn bestChangePoint values in
        let mean1 := calculateMean segment1 in
        let mean2 := calculateMean segment2 in
        let stdDev1 := calculateStandardDeviation segment1 in
        let stdDev2 := calculateStandardDeviation segment2 in
        let n1 := num_of_nat (List.length segment1) in
        let n2 := num_of_nat (List.length segment2) in
        let pooledVariance :=
          ((n1 - 1) * Math_pow stdDev1 2 + (n2 - 1) * Math_pow stdDev2 2)
          / (n1 + n2 - 2) in
        let standardError := Math_sqrt (pooledVariance * (1 / n1 + 1 / n2)) in
        let tStat := Math_abs (mean2 - mean1) / standardError in
        let df := n1 + n2 - 2 in
        let pValue := tDistPValue tStat df in
        if num_or (significanceThreshold this) 0.05 <=? pValue then None
        else
          let relativeChange := (mean2 - mean1) / mean1 in
          let confidence :=
            (1 - pValue) * Math_min 1 (Math_abs relativeChange * 5) in
          Some {| patternType := "step_change";
                  description :=
                    ("Step change detected in " ++ parameter ++ " at data point "
                     ++ numberToString (num_of_nat bestChangePoint))%string;
                  affectedParameters := [parameter];
                  confidence := confidence;
                  supportingData :=
                    [StepChangeData bestChangePoint mean1 mean2
                                    (relativeChange * 100) pValue] |}
    end.

Definition detected {A} (r : option A) : list A :=
  match r with Some x => [x] | None => [] end.

Definition recognizePatterns (this : t) (data : list Record) (timeField : string)
    (parameters : list string) : list PatternRecognitionResult :=
  let sortedData := sortByTime data timeField in
  let cyclical :=
    flat_map (fun param => detected (detectCyclicalPattern sortedData param)) parameters in
  let trends :=
    flat_map (fun param => detected (detectTrendPattern this sortedData param)) parameters in
  let steps :=
    flat_map (fun param => detected (detectStepChangePattern this sortedData param))
             parameters in
  let correlations := analyzeCorrelations this data parameters in
  let significantCorrelations := filter significant correlations in
  cyclical ++ trends ++ steps
  ++ map (fun corr =>
            {| patternType := "correlation";
               description :=
                 ("Strong "
                  ++ (if (0 <? correlationCoefficient corr)%float
                      then "positive" else "negative")
                  ++ " correlation between " ++ parameter1 corr
                  ++ " and " ++ parameter2 corr)%string;
               affectedParameters := [parameter1 corr; parameter2 corr];
               confidence := 1 - pValue corr;
               supportingData := [] |})
         significantCorrelations.

(** *** generatePredictions *)

(** The [[timestamp, value]] pairs of one parameter, timestamps in
    milliseconds. *)
Definition timeSeries (sortedData : list Record) (timeField param : string)
  : list (float * float) :=
  fold_left
    (fun timeSeriesData item =>
       let timestamp := dateTime (get item timeField) in
       let value := ToNumber (get item param) in
       if negb (isNaN value) && negb (isNaN timestamp)
       then timeSeriesData ++ [(timestamp, value)] else timeSeriesData)
    sortedData [].

Definition predict (this : t) (sortedData : list Record) (timeField param : string)
  : option PredictionResult :=
  let timeSeriesData := timeSeries sortedData timeField param in
  if (List.length timeSeriesData <? 5)%nat then None
  else
    let currentValue := snd (last timeSeriesData (nan, nan)) in
    let firstTimestamp := fst (hd (nan, nan) timeSeriesData) in
    let xValues :=
      map (fun '(timestamp, _) =>
             (timestamp - firstTimestamp) / (1000 * 60 * 60 * 24))
          timeSeriesData in
    let yValues := map snd timeSeriesData in
    let regression := calculateLinearRegression xValues yValues in
    let predictionHorizonDays :=
      num_or (predictionHorizon this) 3
      * (last xValues nan - hd nan xValues)
      / num_of_nat (List.length xValues) in
    let lastX := last xValues nan in
    let predictX := lastX + predictionHorizonDays in
    let predictedValue := reg_slope regression * predictX + reg_intercept regression in
    let predictionInterval :=
      calculatePredictionInterval xValues yValues regression predictX
        (num_or (confidenceLevel this) 0.95) in
    let predictedChange := predictedValue - currentValue in
    let predictedChangePercent := (predictedChange / currentValue) * 100 in
    let reliability :=
      reg_rSquared regression
      * (1 - 1 / Math_sqrt (num_of_nat (List.length timeSeriesData))) in
    let predictionHorizonText :=
      (numberToString (Math_round predictionHorizonDays) ++ " days")%string in
    Some {| parameter := param;
            currentValue := currentValue;
            predictedValue := predictedValue;
            predictedChange := predictedChange;
            predictedChangePercent := predictedChangePercent;
            pr_confidenceInterval := predictionInterval;
            pr_predictionHorizon := predictionHorizonText;
            reliability := reliability |}.

Definition generatePredictions (this : t) (data : list Record) (timeField : string)
    (parameters : list string) : list PredictionResult :=
  let sortedData := sortByTime data timeField in
  flat_map (fun param => detected (predict this sortedData timeField param)) parameters.

(** *** identifyBestPerformers *)

(** [String(item[processTypeField] || 'Unknown')]. *)
Definition processTypeOf (processTypeField : string) (item : Record) : string :=
  ToString (logicalOr (get item processTypeField) (String "Unknown")).

(** The grouping loop: [processByType], or [None] when the loop throws. *)
Definition groupByProcessType (data : list Record) (processTypeField : string)
  : option (Dict (list Record)) :=
  forEach
    (fun processByType item =>
       let processType := processTypeOf processTypeField item in
       push_into processByType processType item)
    data [].

(** One group's statistics, [None] for the [null] of a group with fewer
    than three numeric values. *)
Definition groupPerformance (this : t) (performanceField : string)
    (entry : string * list Record) : option Performance :=
  let '(processType, items) := entry in
  let performanceValues := numericValues items performanceField in
  if (List.length performanceValues <? 3)%nat then None
  else
    Some {| processType := processType;
            average := calculateMean performanceValues;
            stdDev := calculateStandardDeviation performanceValues;
            confidenceInterval :=
              calculateConfidenceInterval performanceValues
                (num_or (confidenceLevel this) 0.95);
            pf_sampleSize := List.length performanceValues |}.

(** The comparator of the ranking sort. *)
Definition comparePerformance (higherIsBetter : bool) (a b : Performance) : float :=
  if higherIsBetter then average b - average a else average a - average b.

(** [better && significant] of the comparison of [process] with
    [otherProcess]. *)
Definition significantlyBetterThan (this : t) (higherIsBetter : bool)
    (process otherProcess : Performance) : bool :=
  let diff := average process - average otherProcess in
  let direction := if higherIsBetter then 0 <? diff else diff <? 0 in
  if negb direction then false
  else
    let n1 := num_of_nat (pf_sampleSize process) in
    let n2 := num_of_nat (pf_sampleSize otherProcess) in
    let pooledVariance :=
      ((n1 - 1) * Math_pow (stdDev process) 2
       + (n2 - 1) * Math_pow (stdDev otherProcess) 2)
      / (n1 + n2 - 2) in
    let standardError := Math_sqrt (pooledVariance * (1 / n1 + 1 / n2)) in
    let tStat := Math_abs diff / standardError in
    let df := n1 + n2 - 2 in
    let pValue := tDistPValue tStat df in
    pValue <? num_or (significanceThreshold this) 0.05.

(** The element of the result for the group at position [index] of the
    sorted array. *)
Definition rankPerformer (this : t) (higherIsBetter : bool)
    (sortedPerformance : list Performance) (index : nat) (process : Performance)
  : Performer :=
  let others :=
    map snd
        (filter (fun '(i, _) => negb (i =? index)%nat)
                (combine (seq 0 (List.length sortedPerformance)) sortedPerformance)) in
  let significantlyBetterCount :=
    List.length (filter (significantlyBetterThan this higherIsBetter process) others) in
  {| performance := process;
     rank := index + 1;
     significantlyBetterCount := significantlyBetterCount;
     percentileBetter :=
       (num_of_nat significantlyBetterCount
        / Math_max 1 (num_of_nat (List.length sortedPerformance) - 1)) * 100 |}.

(** [processPerformance]: the statistics of the groups that are kept, in
    the order of [Object.entries(processByType)]. *)
Definition processPerformance (this : t) (performanceField : string)
    (processByType : Dict (list Record)) : list Performance :=
  flat_map (fun entry => detected (groupPerformance this performanceField entry))
           (Object_entries processByType).

(** The result, or [None] for the TypeError of the grouping loop. *)
Definition identifyBestPerformers (this : t) (data : list Record)
    (processTypeField performanceField : string) (higherIsBetter : bool)
  : option (list Performer) :=
  match groupByProcessType data processTypeField with
  | None => None
  | Some processByType =>
      let processPerformance :=
        processPerformance this performanceField processByType in
      let sortedPerformance :=
        sort (comparePerformance higherIsBetter) processPerformance in
      Some
        (map (fun '(index, process) =>
                rankPerformer this higherIsBetter sortedPerformance index process)
             (combine (seq 0 (List.length sortedPerformance)) sortedPerformance))
  end.
End Methods.

End ProcessAnalytics.

(* ================================================================== *)
(** ** AnalyticsService (analytics-service.ts) *)

Module AnalyticsService.

Record AnalyticsOptions : Type := {
  given_confidenceLevel : option (option float);
  given_outlierDetection : option (option bool);
  given_outlierThreshold : option (option float);
  given_significanceThreshold : option (option float);
  given_minCorrelationStrength : option (option float);
  given_predictionHorizon : option (option float)
}.

(** [this.options] after the defaults were merged in. *)
Record Options : Type := {
  confidenceLevel : option float;
  outlierDetection : option bool;
  outlierThreshold : option float;
  significanceThreshold : option float;
  minCorrelationStrength : option float;
  predictionHorizon : option float
}.

(** The service object: its three private fields. *)
Record t : Type := {
  kpiCalculator : KPICalculator.t;
  processAnalytics : ProcessAnalytics.t;
  options : Options
}.

Definition new (given : AnalyticsOptions) : t :=
  let options :=
    {| confidenceLevel := spread (Some 0.95) (given_confidenceLevel given);
       outlierDetection := spread (Some true) (given_outlierDetection given);
       outlierThreshold := spread (Some 1.5) (given_outlierThreshold given);
       significanceThreshold := spread (Some 0.05) (given_significanceThreshold given);
       minCorrelationStrength := spread (Some 0.3) (given_minCorrelationStrength given);
       predictionHorizon := spread (Some 3) (given_predictionHorizon given) |} in
  {| options := options;
     kpiCalculator :=
       KPICalculator.new
         {| KPICalculator.given_confidenceLevel := Some (confidenceLevel options);
            KPICalculator.given_outlierDetection := Some (outlierDetection options);
            KPICalculator.given_outlierThreshold := Some (outlierThreshold options) |};
     processAnalytics :=
       ProcessAnalytics.new
         {| ProcessAnalytics.given_confidenceLevel := Some (confidenceLevel options);
            ProcessAnalytics.given_significanceThreshold :=
              Some (significanceThreshold options);
            ProcessAnalytics.given_minCorrelationStrength :=
              Some (minCorrelationStrength options);
            ProcessAnalytics.given_predictionHorizon :=
              Some (predictionHorizon options) |} |}.

(** The [config] argument of [generateDashboardAnalytics]. *)
Record Config : Type := {
  processTypeField : string;
  successField : string;
  successValue : Value;
  durationField : string;
  timeField : string;
  parameterFields : list string
}.

Record ProcessPerformanceResult : Type := {
  processType : string;
  rft : KPICalculator.RFTResult;
  duration : KPICalculator.ProcessDurationResult;
  rank : nat;
  significantlyBetter : bool;
  percentileBetter : float
}.

Record AnalyticsDashboardData : Type := {
  overallRFT : KPICalculator.RFTResult;
  processPerformance : list ProcessPerformanceResult;
  trends : KPICalculator.TrendResult;
  patterns : list ProcessAnalytics.PatternRecognitionResult;
  correlations : list ProcessAnalytics.CorrelationResult;
  predictions : list ProcessAnalytics.PredictionResult
}.

(** A method call on the service object: what it returns, [None] when it
    throws, and the object after the call. *)
Definition Call (A : Type) : Type := t -> option A * t.

Definition ret {A} (a : A) : Call A := fun this => (Some a, this).
Definition bind {A B} (c : Call A) (k : A -> Call B) : Call B :=
  fun this =>
    match c this with
    | (Some a, this') => k a this'
    | (None, this') => (None, this')
    end.
(** Reading a private field of [this]. *)
Definition read {A} (field : t -> A) : Call A := fun this => (Some (field this), this).
(** A step that does not touch [this] and may throw. *)
Definition lift {A} (outcome : option A) : Call A := fun this => (outcome, this).

Notation "x <- c ;; k" := (bind c (fun x => k))
  (at level 61, c at next level, right associativity).

Section Methods.
Context {rt : Runtime}.

(** The grouping loop of [generateDashboardAnalytics]: [processByType],
    or [None] when the loop throws. *)
Definition groupByProcessType (data : list Record) (processTypeField : string)
  : option (Dict (list Record)) :=
  forEach
    (fun processByType item =>
       let processType :=
         ToString (logicalOr (get item processTypeField) (String "Unknown")) in
       push_into processByType processType item)
    data [].

(** The callback of the loop over [Object.entries(processByType)]: a
    group of fewer than three rows is skipped, another one gets its
    unranked entry pushed onto [processPerformance]; [None] when the
    duration metrics throw. *)
Definition groupMetrics (kpi : KPICalculator.t) (config : Config)
    (processPerformance : list ProcessPerformanceResult)
    (entry : string * list Record) : option (list ProcessPerformanceResult) :=
  let '(processType, items) := entry in
  if (List.length items <? 3)%nat then Some processPerformance
  else
    let rft :=
      KPICalculator.calculateRFT kpi items (successField config) (successValue config) in
    match KPICalculator.calculateProcessDuration kpi items (durationField config) with
    | None => None
    | Some duration =>
        Some (processPerformance
              ++ [{| processType := processType;
                     rft := rft;
                     duration := duration;
                     rank := 0;
                     significantlyBetter := false;
                     percentileBetter := 0 |}])
    end.

(** The update of one entry from the ranking. *)
Definition applyRanking (bestPerformers : list ProcessAnalytics.Performer)
    (process : ProcessPerformanceResult) : ProcessPerformanceResult :=
  match
    find (fun bp =>
            String.eqb (ProcessAnalytics.processType (ProcessAnalytics.performance bp))
                       (processType process))
         bestPerformers
  with
  | Some bestPerformer =>
      {| processType := processType process;
         rft := rft process;
         duration := duration process;
         rank := ProcessAnalytics.rank bestPerformer;
         significantlyBetter :=
           (0 <? ProcessAnalytics.significantlyBetterCount bestPerformer)%nat;
         percentileBetter := ProcessAnalytics.percentileBetter bestPerformer |}
  | None => process
  end.

Definition generateDashboardAnalytics (data : list Record) (config : Config)
  : Call AnalyticsDashboardData :=
  kpi <- read kpiCalculator ;;
  analytics <- read processAnalytics ;;
  let overallRFT :=
    KPICalculator.calculateRFT kpi data (successField config) (successValue config) in
  processByType <- lift (groupByProcessType data (processTypeField config)) ;;
  processPerformance <-
    lift (forEach (groupMetrics kpi config) (Object_entries processByType) []) ;;
  bestPerformers <-
    lift (ProcessAnalytics.identifyBestPerformers analytics data
            (processTypeField config) (successField config) true) ;;
  let processPerformance := map (applyRanking bestPerformers) processPerformance in
  let processPerformance :=
    sort (fun a b => num_of_nat (rank a) - num_of_nat (rank b)) processPerformance in
  let trends :=
    KPICalculator.identifyTrends data (timeField config) (successField config) 5 in
  let patterns :=
    ProcessAnalytics.recognizePatterns analytics data (timeField config)
      (parameterFields config) in
  let correlations :=
    ProcessAnalytics.analyzeCorrelations analytics data (parameterFields config) in
  let predictions :=
    ProcessAnalytics.generatePredictions analytics data (timeField config)
      (parameterFields config) in
  ret {| overallRFT := overallRFT;
         processPerformance := processPerformance;
         trends := trends;
         patterns := patterns;
         correlations := correlations;
         predictions := predictions |}.
End Methods.

End AnalyticsService.

(* ================================================================== *)
(** ** Definitions used by the properties *)

(** *** The order of binary64 numbers

    The comparisons and the rounding of the primitive floats are specified
    on [spec_float]; the definitions below place every float on the
    integer line, in units of 2^-1074, the smallest positive float. *)

Local Open Scope Z_scope.

(** After shifting [M] right by [k] bits: the quotient, and whether bits were lost. *)
Definition shifted (M : Z) (k : Z) (mrs : shr_record) : Prop :=
  shr_m mrs = M / 2 ^ k
  /\ (shr_r mrs || shr_s mrs = false <-> M mod 2 ^ k = 0).

(** The spacing of the floats around a positive scaled value. *)
Definition grid (V : Z) : Z := 2 ^ Z.max (Z.log2 V + 1 - 53) 0.

(** [W] is [V] rounded to a multiple of the grid: down, or up when [V] is
    not a multiple itself. *)
Definition rounds_to (V W : Z) : Prop :=
  W = V / grid V * grid V
  \/ (W = V / grid V * grid V + grid V /\ V mod grid V <> 0).

(** What the rounding of a positive scaled value [V] with sign [s] may give. *)
Definition pos_rounded (s : bool) (V : Z) (r : spec_float) : Prop :=
  match r with
  | S754_finite s' m' e' => s' = s /\ rounds_to V (Zpos m' * 2 ^ (e' + 1074))
  | S754_infinity s' => s' = s /\ exists W, rounds_to V W /\ 2 ^ 2098 <= W
  | _ => False
  end.

(** The value of a finite float, in units of 2^-1074. *)
Definition scaled (x : spec_float) : Z :=
  match x with
  | S754_finite s m e => cond_Zopp s (Zpos m * 2 ^ (e + 1074))
  | _ => 0
  end.

(** [r] is the exact value [V] rounded to a float. *)
Definition rounded (V : Z) (r : spec_float) : Prop :=
  (V = 0 /\ r = S754_zero false)
  \/ (0 < V /\ pos_rounded false V r)
  \/ (V < 0 /\ pos_rounded true (- V) r).

(** A positive scaled value that some valid float has. *)
Definition representable (C : Z) : Prop :=
  exists m e, bounded prec emax m e = true /\ C = Zpos m * 2 ^ (e + 1074).

(** A float's place on the integer line: its scaled value, with the
    infinities beyond every finite one. *)
Definition place (x : spec_float) : Z :=
  match x with
  | S754_infinity s => cond_Zopp s (2 ^ 2100)
  | _ => scaled x
  end.

Definition is_nan (x : spec_float) : bool :=
  match x with S754_nan => true | _ => false end.

Local Close Scope Z_scope.

(** The place of a JavaScript number. *)
Definition fplace (x : float) : Z := place (Prim2SF x).

(** *** Order and position in a list *)

(** The comparator orders by [key]: [cmp x y > 0] exactly when [x]'s key
    is the larger. *)
Definition orders_by {A} (cmp : A -> A -> float) (key : A -> Z) (l : list A) : Prop :=
  forall x y, In x l -> In y l -> (0 <? cmp x y) = (key y <? key x)%Z.

Definition key_le {A} (key : A -> Z) (a b : A) : Prop := (key a <= key b)%Z.

(** [x] stands before [y] in [l]. *)
Definition precedes {A} (x y : A) (l : list A) : Prop :=
  exists l1 l2 l3, l = l1 ++ x :: l2 ++ y :: l3.

(** *** Runtimes for the examples *)

(** A runtime for the examples: they reach none of its functions. *)
Definition exampleRuntime : Runtime :=
  {| exp_approx := fun _ => nan;
     log_approx := fun _ => nan;
     pow_approx := fun _ _ => nan;
     stringToNumber := fun _ => nan;
     numberToString := fun _ => EmptyString;
     toLowerCase := fun s => s;
     dateTime := fun _ => nan;
     builtinToString := fun _ => "function () { [native code] }"%string;
     argumentLimit := 65535%N |}.

(** [new Date(t).getTime()] for a number [t] of milliseconds since the
    epoch: the integer part of [t], NaN beyond 8.64e15. *)
Definition timeClip (t : float) : float :=
  if isNaN t || (8.64e15 <? abs t) then nan
  else
    match floorZ (abs t) with
    | Some z => (if t <? 0 then - num_of_Z z else num_of_Z z) + 0
    | None => nan
    end.

(** The same runtime with a clock for the examples that have times:
    a time is a number of milliseconds, [null] and the booleans convert to
    one, and no string is taken for a date. *)
Definition epochRuntime : Runtime :=
  {| exp_approx := fun _ => nan;
     log_approx := fun _ => nan;
     pow_approx := fun _ _ => nan;
     stringToNumber := fun _ => nan;
     numberToString := fun _ => EmptyString;
     toLowerCase := fun s => s;
     dateTime := fun v =>
       match v with
       | Number t => timeClip t
       | Null | Boolean false => 0
       | Boolean true => 1
       | Undefined | String _ | Builtin _ => nan
       end;
     builtinToString := fun _ => "function () { [native code] }"%string;
     argumentLimit := 65535%N |}.

(** *** The specification's words *)

(** The success test in the specification's words: a boolean success
    value is compared with the boolean coercion of the field, a string
    one with the field's string without regard to case, and any other
    one by strict equality. *)
Inductive CountsAsSuccess `{rt : Runtime} : Value -> Value -> Prop :=
  | by_boolean_coercion (fieldValue : Value) :
      CountsAsSuccess (Boolean (ToBoolean fieldValue)) fieldValue
  | case_insensitively (expected : string) (fieldValue : Value) :
      toLowerCase (ToString fieldValue) = toLowerCase expected ->
      CountsAsSuccess (String expected) fieldValue
  | by_strict_equality (successValue fieldValue : Value) :
      (forall b, successValue <> Boolean b) ->
      (forall s, successValue <> String s) ->
      strictEquals fieldValue successValue = true ->
      CountsAsSuccess successValue fieldValue.

(** Every record has a valid time: [new Date(item[timeField]).getTime()]
    is a number. *)
Definition validTimes `{rt : Runtime} (timeField : string) (data : list Record) : Prop :=
  Forall (fun item => isNaN (dateTime (get item timeField)) = false) data.

(** [sorted] holds the records of [data] in the order of their times,
    records that are not later than one another in the order of [data]. *)
Definition chronological `{rt : Runtime} (timeField : string) (data sorted : list Record)
  : Prop :=
  Permutation data sorted
  /\ StronglySorted
       (fun a b => (dateTime (get a timeField) <=? dateTime (get b timeField)) = true)
       sorted
  /\ (forall a b, precedes a b data ->
        (dateTime (get a timeField) <=? dateTime (get b timeField)) = true ->
        precedes a b sorted).

(** Scenario A: five batches, the third one failed. *)
Definition scenarioA : list Record :=
  map (fun ok => [("Success"%string, Boolean ok)]) [true; true; false; true; true].

(** An analytics engine constructed with no options. *)
Definition defaultAnalytics : ProcessAnalytics.t :=
  ProcessAnalytics.new {| ProcessAnalytics.given_confidenceLevel := None;
            ProcessAnalytics.given_significanceThreshold := None;
            ProcessAnalytics.given_minCorrelationStrength := None;
            ProcessAnalytics.given_predictionHorizon := None |}.

(** Scenario D without noise: ten values of 10, then ten values of 20. *)
Definition scenarioD : list float := repeat 10 10 ++ repeat 20 10.

(** No own key of the object names an inherited property. *)
Definition plain {V} (obj : Dict V) : Prop :=
  Forall (fun e => inherited (fst e) = false) obj.

(** No value is NaN. *)
Definition numeric (values : list float) : Prop :=
  Forall (fun v => isNaN v = false) values.

(** The statistics of one group, in the specification's words. *)
Definition groupStatistics `{rt : Runtime} (this : ProcessAnalytics.t) (performanceField : string)
    (entry : string * list Record) : ProcessAnalytics.Performance :=
  let values := ProcessAnalytics.numericValues (snd entry) performanceField in
  {| ProcessAnalytics.processType := fst entry;
     ProcessAnalytics.average := ProcessAnalytics.calculateMean values;
     ProcessAnalytics.stdDev := ProcessAnalytics.calculateStandardDeviation values;
     ProcessAnalytics.confidenceInterval :=
       ProcessAnalytics.calculateConfidenceInterval values (num_or (ProcessAnalytics.confidenceLevel this) 0.95);
     ProcessAnalytics.pf_sampleSize := List.length values |}.

(** A group has the three numeric values the ranking requires. *)
Definition hasEnoughValues `{rt : Runtime} (performanceField : string)
    (entry : string * list Record) : bool :=
  (3 <=? List.length (ProcessAnalytics.numericValues (snd entry) performanceField))%nat.

(** Ranked before, by the direction of the ranking. *)
Definition notWorse (higherIsBetter : bool) (a b : ProcessAnalytics.Performance) : Prop :=
  if higherIsBetter then (ProcessAnalytics.average a <? ProcessAnalytics.average b) = false
  else (ProcessAnalytics.average b <? ProcessAnalytics.average a) = false.

(** Sorting by the ranking comparator is sorting by this key. *)
Definition rankingKey (higherIsBetter : bool) (p : ProcessAnalytics.Performance) : Z :=
  if higherIsBetter then (- fplace (ProcessAnalytics.average p))%Z else fplace (ProcessAnalytics.average p).

(** The kept groups of [processByType] in the order in which their
    process types first occurred in the data. *)
Definition groupsInInsertionOrder `{rt : Runtime} (this : ProcessAnalytics.t)
    (performanceField : string) (processByType : Dict (list Record))
  : list ProcessAnalytics.Performance :=
  map (groupStatistics this performanceField)
      (filter (hasEnoughValues performanceField) processByType).

(** The claim that groups with equal means are ranked in insertion order. *)
Definition tiesKeepInsertionOrder `{rt : Runtime} (this : ProcessAnalytics.t) (data : list Record)
    (processTypeField performanceField : string) (higherIsBetter : bool) : Prop :=
  forall processByType result p q,
    ProcessAnalytics.groupByProcessType data processTypeField = Some processByType ->
    ProcessAnalytics.identifyBestPerformers this data processTypeField performanceField
      higherIsBetter = Some result ->
    precedes p q (groupsInInsertionOrder this performanceField processByType) ->
    (ProcessAnalytics.average p =? ProcessAnalytics.average q) = true ->
    precedes p q (map ProcessAnalytics.performance result).

(** A batch of a process type, right first time. *)
Definition batch (processType : string) : Record :=
  [("ProcessType"%string, String processType); ("Success"%string, Boolean true)].

(** Three batches of process type "2", then three of process type "1". *)
Definition twoThenOne : list Record :=
  [batch "2"; batch "2"; batch "2"; batch "1"; batch "1"; batch "1"].

(** *** Definitions of the further properties *)

(** The records of one process type, in the order of the data. *)
Definition recordsOfType `{rt : Runtime} (processTypeField processType : string)
    (data : list Record) : list Record :=
  filter (fun item =>
            String.eqb (ProcessAnalytics.processTypeOf processTypeField item) processType)
         data.

(** [String(item[groupField] || 'Unknown')] of [analyzeVariance]. *)
Definition groupOf `{rt : Runtime} (groupField : string) (item : Record) : string :=
  ToString (logicalOr (get item groupField) (String "Unknown")).

(** The numeric values of the records of one group, in the order of the
    data. *)
Definition valuesOfGroup `{rt : Runtime} (groupField valueField groupName : string)
    (data : list Record) : list float :=
  KPICalculator.numericValues
    (filter (fun item => String.eqb (groupOf groupField item) groupName) data) valueField.

(** The records that can enter the time series of [param]: a numeric value
    and a valid time. *)
Definition usableForPrediction `{rt : Runtime} (timeField param : string)
    (data : list Record) : list Record :=
  filter (fun item => negb (isNaN (ToNumber (get item param)))
                      && negb (isNaN (dateTime (get item timeField)))) data.

(** A calculator constructed with no options. *)
Definition defaultCalculator : KPICalculator.t :=
  KPICalculator.new {| KPICalculator.given_confidenceLevel := None;
                       KPICalculator.given_outlierDetection := None;
                       KPICalculator.given_outlierThreshold := None |}.

(** A service constructed with no options. *)
Definition defaultService : AnalyticsService.t :=
  AnalyticsService.new
    {| AnalyticsService.given_confidenceLevel := None;
       AnalyticsService.given_outlierDetection := None;
       AnalyticsService.given_outlierThreshold := None;
       AnalyticsService.given_significanceThreshold := None;
       AnalyticsService.given_minCorrelationStrength := None;
       AnalyticsService.given_predictionHorizon := None |}.

(** The field roles of the example records. *)
Definition exampleConfig : AnalyticsService.Config :=
  {| AnalyticsService.processTypeField := "ProcessType";
     AnalyticsService.successField := "Success";
     AnalyticsService.successValue := Boolean true;
     AnalyticsService.durationField := "Duration";
     AnalyticsService.timeField := "Timestamp";
     AnalyticsService.parameterFields := [] |}.

(** Five batches with their durations. *)
Definition timedBatches : list Record :=
  map (fun d => [("Duration"%string, Number d)]) [4.5; 4.2; 5.1; 3.8; 4.3].

(** Three measurements of three parameters. *)
Definition measurements : list Record :=
  map (fun '(x, y, z) =>
         [("x"%string, Number x); ("y"%string, Number y); ("z"%string, Number z)])
      [(1, 2, 3); (2, 4, 1); (3, 7, 2)].

Local Open Scope Z_scope.

(** The location of a remainder, spelled as two more bits of the quotient. *)
Definition location_bits (l : location) : Z :=
  match l with
  | loc_Exact => 0
  | loc_Inexact Lt => 1
  | loc_Inexact Eq => 2
  | loc_Inexact Gt => 3
  end.

(** A valid float with a full mantissa. *)
Definition normal (m : positive) (e : Z) : Prop :=
  bounded prec emax m e = true /\ 2 ^ 52 <= Zpos m.

Local Close Scope Z_scope.

(* ================================================================== *)
(** ** The arithmetic of binary64 numbers *)

Local Open Scope Z_scope.

(** digits *)
Lemma digits2_pos_log2 (m : positive) :
  Zpos (digits2_pos m) = Z.log2 (Zpos m) + 1.
Proof.
  assert (H : digits2_pos m = Pos.size m) by (induction m; cbn; congruence).
  rewrite H. destruct m; cbn; lia.
Qed.

Lemma log2_bounds (a : Z) : 0 < a -> 2 ^ Z.log2 a <= a < 2 ^ (Z.log2 a + 1).
Proof. intros H. pose proof (Z.log2_spec a H). now rewrite <- Z.add_1_r in H0. Qed.

Lemma iter_pos_invariant {A} (f : A -> A) (P : Z -> A -> Prop) :
  (forall k y, 0 <= k -> P k y -> P (k + 1) (f y)) ->
  forall n k x, 0 <= k -> P k x -> P (k + Zpos n) (SpecFloat.iter_pos f n x).
Proof.
  intros step. induction n as [n IH | n IH |]; intros k x Hk Hx; cbn [SpecFloat.iter_pos].
  - replace (k + Zpos n~1) with ((k + 1 + Zpos n) + Zpos n) by lia.
    apply IH; [lia|]. apply IH; [lia|]. now apply step.
  - replace (k + Zpos n~0) with ((k + Zpos n) + Zpos n) by lia.
    apply IH; [lia|]. now apply IH.
  - now apply step.
Qed.

Lemma shr_1_spec (m : Z) (r s : bool) :
  0 <= m ->
  shr_1 (Build_shr_record m r s) = Build_shr_record (m / 2) (Z.odd m) (r || s).
Proof.
  intros Hm. rewrite <- Z.div2_div.
  destruct m as [|[p|p|]|p]; try reflexivity; lia.
Qed.

Lemma shifted_step (M k : Z) (mrs : shr_record) :
  0 <= M -> 0 <= k -> shifted M k mrs -> shifted M (k + 1) (shr_1 mrs).
Proof.
  intros HM Hk (Hm & Hrs). destruct mrs as [m r s].
  cbn [shr_m shr_r shr_s] in *.
  assert (Hp : 0 < 2 ^ k) by (apply Z.pow_pos_nonneg; lia).
  assert (Hm0 : 0 <= m) by (subst m; apply Z.div_pos; lia).
  unfold shifted. rewrite shr_1_spec by assumption. cbn [shr_m shr_r shr_s].
  assert (E2 : 2 ^ (k + 1) = 2 ^ k * 2) by (rewrite Z.pow_add_r by lia; reflexivity).
  split; [|split].
  - rewrite E2, <- Z.div_div by lia. now subst m.
  - intros H. rewrite E2, Z.rem_mul_r by lia.
    apply orb_false_iff in H as [Ho Hrs']. apply Hrs in Hrs'. rewrite Hrs'.
    rewrite <- Hm. rewrite Zmod_odd, Ho. lia.
  - intros H. rewrite E2, Z.rem_mul_r in H by lia.
    pose proof (Z.mod_pos_bound M (2 ^ k) Hp) as B1.
    pose proof (Z.mod_pos_bound (M / 2 ^ k) 2 ltac:(lia)) as B2.
    assert (M mod 2 ^ k = 0 /\ (M / 2 ^ k) mod 2 = 0) as [H1 H2] by nia.
    apply orb_false_iff. split.
    + rewrite <- Hm in H2. rewrite Zmod_odd in H2.
      destruct (Z.odd m); [discriminate|reflexivity].
    + now apply Hrs.
Qed.

Lemma shifted_0 (M : Z) : shifted M 0 (Build_shr_record M false false).
Proof.
  split; cbn.
  - now rewrite Z.div_1_r.
  - split; [intros _; apply Z.mod_1_r | reflexivity].
Qed.

Lemma shr_shifted (M : Z) (e n : Z) :
  0 <= M ->
  shifted M (Z.max n 0) (fst (shr (Build_shr_record M false false) e n))
  /\ snd (shr (Build_shr_record M false false) e n) = e + Z.max n 0.
Proof.
  intros HM. destruct n as [|p|p]; cbn [shr fst snd].
  - split; [apply shifted_0 | lia].
  - split; [|lia].
    replace (Z.max (Zpos p) 0) with (0 + Zpos p) by lia.
    apply (iter_pos_invariant shr_1 (shifted M)); [|lia|apply shifted_0].
    intros k y Hk. now apply shifted_step.
  - split; [apply shifted_0 | lia].
Qed.

Lemma grid_pos V : 0 < grid V.
Proof. apply Z.pow_pos_nonneg; lia. Qed.

Lemma fexp_eq (z : Z) : fexp prec emax z = Z.max (z - 53) (-1074).
Proof. reflexivity. Qed.

Lemma round_nearest_even_cases (q : Z) (mrs : shr_record) :
  let m1 := round_nearest_even q (loc_of_shr_record mrs) in
  m1 = q \/ (m1 = q + 1 /\ shr_r mrs || shr_s mrs = true).
Proof.
  destruct mrs as [m [|] [|]]; cbn; auto.
  destruct (Z.even q); auto.
Qed.

(** [binary_round_aux] on an exact positive mantissa whose exponent is at
    most the canonical one. *)
Lemma binary_round_aux_spec (s : bool) (M : positive) (e : Z) :
  -1074 <= e ->
  e <= fexp prec emax (Zpos (digits2_pos M) + e) ->
  let V := Zpos M * 2 ^ (e + 1074) in
  match binary_round_aux prec emax s (Zpos M) e loc_Exact with
  | S754_finite s' m' e' => s' = s /\ rounds_to V (Zpos m' * 2 ^ (e' + 1074))
  | S754_infinity s' => s' = s /\ exists W, rounds_to V W /\ 2 ^ 2098 <= W
  | _ => False
  end.
Proof.
  intros He Hn V.
  rewrite fexp_eq, digits2_pos_log2 in Hn.
  set (d := Z.log2 (Zpos M) + 1) in *.
  set (E := Z.max (d + e - 53) (-1074)) in *.
  pose proof (log2_bounds (Zpos M) eq_refl) as [HMlo HMhi]. fold d in HMhi.
  assert (Hd : 1 <= d) by (unfold d; pose proof (Z.log2_nonneg (Zpos M)); lia).
  assert (HpE : 0 < 2 ^ (E + 1074)) by (apply Z.pow_pos_nonneg; lia).
  assert (Hpe : 0 < 2 ^ (e + 1074)) by (apply Z.pow_pos_nonneg; lia).
  assert (HV : 0 < V) by (unfold V; lia).
  assert (HlogV : Z.log2 V = Z.log2 (Zpos M) + (e + 1074)).
  { unfold V. rewrite Z.log2_mul_pow2 by lia. lia. }
  assert (Hgrid : grid V = 2 ^ (E + 1074)).
  { unfold grid. rewrite HlogV. f_equal. unfold E, d. lia. }
  unfold binary_round_aux, shr_fexp.
  cbn [Zdigits2 shr_record_of_loc]. rewrite fexp_eq, digits2_pos_log2. fold d. fold E.
  destruct (shr_shifted (Zpos M) e (E - e) ltac:(lia)) as [[Hq Hin] He'].
  destruct (shr _ e (E - e)) as [mrs' e'] eqn:Hshr. cbn [fst snd] in Hq, Hin, He'.
  replace (Z.max (E - e) 0) with (E - e) in * by lia.
  assert (He'E : e' = E) by lia. clear He'. subst e'.
  set (q := Zpos M / 2 ^ (E - e)) in *.
  set (m1 := round_nearest_even (shr_m mrs') (loc_of_shr_record mrs')).
  assert (Hm1 : m1 = q \/ (m1 = q + 1 /\ Zpos M mod 2 ^ (E - e) <> 0)).
  { unfold m1. rewrite Hq.
    destruct (round_nearest_even_cases q mrs') as [H | [H Hrs]]; [left; exact H|].
    right. split; [exact H|]. intros Hz. apply Hin in Hz. congruence. }
  assert (Hpn : 0 < 2 ^ (E - e)) by (apply Z.pow_pos_nonneg; lia).
  assert (Hsplit : 2 ^ (E + 1074) = 2 ^ (E - e) * 2 ^ (e + 1074)).
  { rewrite <- Z.pow_add_r by lia. f_equal. lia. }
  assert (HqV : V / grid V = q).
  { rewrite Hgrid, Hsplit. unfold V, q. apply Z.div_mul_cancel_r; lia. }
  assert (HmodV : V mod grid V = (Zpos M mod 2 ^ (E - e)) * 2 ^ (e + 1074)).
  { rewrite Hgrid, Hsplit. unfold V. apply Z.mul_mod_distr_r; lia. }
  assert (Hround : rounds_to V (m1 * 2 ^ (E + 1074))).
  { unfold rounds_to. rewrite HqV, Hgrid.
    destruct Hm1 as [-> | [-> Hne]]; [left; reflexivity|].
    right. split; [lia|]. rewrite <- Hgrid, HmodV. nia. }
  (* the size of the quotient *)
  assert (Hq1 : 1 <= q).
  { unfold q. apply Z.div_le_lower_bound; [lia|].
    destruct (Z.eq_dec (E - e) 0) as [Hz|Hz]; [rewrite Hz; cbn; lia|].
    assert (E = d + e - 53) by lia.
    assert (2 ^ (E - e) <= 2 ^ (d - 1)) by (apply Z.pow_le_mono_r; lia).
    unfold d in *. replace (Z.log2 (Zpos M) + 1 - 1) with (Z.log2 (Zpos M)) in * by lia. lia. }
  assert (Hm1pos : 1 <= m1) by lia.
  (* the second normalisation *)
  destruct (shr_shifted m1 E (fexp prec emax (Zdigits2 m1 + E) - E) ltac:(lia))
    as [[Hq2 _] He2].
  destruct (shr _ E (fexp prec emax (Zdigits2 m1 + E) - E)) as [mrs'' e''] eqn:Hshr2.
  cbn [fst snd] in Hq2, He2.
  assert (Hdig1 : Zdigits2 m1 = Z.log2 m1 + 1).
  { destruct m1 as [|p|p]; try lia. cbn [Zdigits2]. apply digits2_pos_log2. }
  rewrite fexp_eq, Hdig1 in Hq2, He2.
  set (n2 := Z.max (Z.max (Z.log2 m1 + 1 + E - 53) (-1074) - E) 0) in *.
  (* the value is unchanged by the second shift *)
  assert (Hval : shr_m mrs'' * 2 ^ (e'' + 1074) = m1 * 2 ^ (E + 1074) /\ 1 <= shr_m mrs''
                 /\ (971 < e'' -> 2 ^ 2098 <= m1 * 2 ^ (E + 1074))).
  { destruct (Z.eq_dec (E - e) 0) as [Hz|Hz].
    - (* no first shift: the mantissa is unchanged and canonical *)
      assert (Hqm : q = Zpos M) by (unfold q; rewrite Hz; apply Z.div_1_r).
      assert (Hm1M : m1 = Zpos M).
      { destruct Hm1 as [H | [_ Hne]]; [lia|]. rewrite Hz in Hne. cbn in Hne.
        rewrite Z.mod_1_r in Hne. congruence. }
      assert (Hn2 : n2 = 0) by (unfold n2; rewrite Hm1M; fold d; lia).
      rewrite Hn2 in *. rewrite Z.div_1_r in Hq2.
      replace e'' with E by lia. rewrite Hq2. repeat split; try lia.
      intros Hbig. rewrite Hm1M. assert (E = e) by lia.
      assert (E = d + e - 53) by lia.
      assert (2 ^ 2098 <= 2 ^ (d - 1 + (E + 1074))) by (apply Z.pow_le_mono_r; lia).
      rewrite Z.pow_add_r in H1 by lia.
      unfold d in H1. replace (Z.log2 (Zpos M) + 1 - 1) with (Z.log2 (Zpos M)) in H1 by lia.
      nia.
    - assert (HE : E = d + e - 53) by lia.
      assert (Hlogq : Z.log2 q = 52).
      { unfold q. rewrite <- Z.shiftr_div_pow2 by lia.
        rewrite Z.log2_shiftr by lia. unfold d in HE. lia. }
      pose proof (log2_bounds q ltac:(lia)) as [Hqlo Hqhi]. rewrite Hlogq in Hqlo, Hqhi.
      change (2 ^ 52) with 4503599627370496 in Hqlo.
      change (2 ^ (52 + 1)) with 9007199254740992 in Hqhi.
      destruct (Z.eq_dec m1 9007199254740992) as [Htop | Hnt].
      + assert (Hn2 : n2 = 1).
        { unfold n2. rewrite Htop. change (Z.log2 9007199254740992) with 53. lia. }
        rewrite Hn2 in *. rewrite Htop in *.
        change (9007199254740992 / 2 ^ 1) with 4503599627370496 in Hq2.
        rewrite Hq2. replace (e'' + 1074) with (1 + (E + 1074)) by lia.
        rewrite (Z.pow_add_r 2 1) by lia. repeat split; try lia.
        intros Hbig.
        assert (2 ^ 2045 <= 2 ^ (E + 1074)) by (apply Z.pow_le_mono_r; lia).
        change (2 ^ 2098) with (9007199254740992 * 2 ^ 2045). nia.
      + assert (Hlog1 : Z.log2 m1 = 52).
        { apply Z.log2_unique; [lia|]. change (2 ^ 52) with 4503599627370496.
          change (2 ^ (52 + 1)) with 9007199254740992. lia. }
        assert (Hn2 : n2 = 0) by (unfold n2; rewrite Hlog1; lia).
        rewrite Hn2 in *. rewrite Z.div_1_r in Hq2.
        replace e'' with E by lia. rewrite Hq2. repeat split; try lia.
        intros Hbig.
        assert (2 ^ 2046 <= 2 ^ (E + 1074)) by (apply Z.pow_le_mono_r; lia).
        change (2 ^ 2098) with (4503599627370496 * 2 ^ 2046). nia. }
  destruct Hval as (Hval & Hpos & Hover).
  destruct (shr_m mrs'') as [|m''|m''] eqn:Hm''; try lia.
  change (Z.sub emax prec) with 971.
  destruct (Z.leb_spec e'' 971).
  - split; [reflexivity|]. rewrite Hval. exact Hround.
  - split; [reflexivity|]. exists (m1 * 2 ^ (E + 1074)). split; [exact Hround|].
    apply Hover. lia.
Qed.

Lemma iter_xO_pow2 (m p : positive) :
  Zpos (Pos.iter xO m p) = Zpos m * 2 ^ Zpos p.
Proof.
  rewrite <- Z.shiftl_mul_pow2 by lia. cbn [Z.shiftl].
  apply (Pos.iter_swap_gen _ _ Zpos xO (Z.mul 2)). reflexivity.
Qed.

(** Aligning a mantissa to a smaller exponent keeps the value. *)
Lemma shl_align_value (m : positive) (e e' : Z) :
  -1074 <= e' ->
  let '(m', e'') := shl_align m e e' in
  Zpos m' * 2 ^ (e'' + 1074) = Zpos m * 2 ^ (e + 1074)
  /\ e'' = Z.min e e'
  /\ Z.log2 (Zpos m') + e'' = Z.log2 (Zpos m) + e.
Proof.
  intros He'. unfold shl_align.
  destruct (e' - e) as [|p|p] eqn:Hd.
  - repeat split; lia.
  - repeat split; lia.
  - rewrite iter_xO_pow2. rewrite Z.log2_mul_pow2 by lia.
    repeat split; try lia.
    rewrite <- Z.mul_assoc, <- Z.pow_add_r by lia. do 2 f_equal. lia.
Qed.

Lemma binary_round_spec (s : bool) (m : positive) (e : Z) :
  -1074 <= e ->
  pos_rounded s (Zpos m * 2 ^ (e + 1074)) (binary_round prec emax s m e).
Proof.
  intros He. unfold binary_round.
  pose proof (shl_align_value m e (fexp prec emax (Zpos (digits2_pos m) + e))) as Hal.
  rewrite fexp_eq in Hal |- *. rewrite digits2_pos_log2 in Hal |- *.
  destruct (shl_align m e _) as [mz ez]. destruct Hal as (Hv & Hez & Hlog); [lia|].
  rewrite <- Hv. apply binary_round_aux_spec; [lia|].
  rewrite fexp_eq, digits2_pos_log2. lia.
Qed.

Lemma binary_normalize_spec (M e : Z) :
  -1074 <= e ->
  rounded (M * 2 ^ (e + 1074)) (binary_normalize prec emax M e false).
Proof.
  intros He.
  assert (Hp : 0 < 2 ^ (e + 1074)) by (apply Z.pow_pos_nonneg; lia).
  destruct M as [|p|p]; cbn [binary_normalize].
  - left. split; [lia | reflexivity].
  - right; left. split; [lia|]. now apply binary_round_spec.
  - right; right. split; [lia|].
    replace (- (Zneg p * 2 ^ (e + 1074))) with (Zpos p * 2 ^ (e + 1074)) by lia.
    now apply binary_round_spec.
Qed.

Lemma bounded_canonical (m : positive) (e : Z) :
  bounded prec emax m e = true ->
  -1074 <= e <= 971
  /\ Z.log2 (Zpos m) + 1 <= 53
  /\ (Z.log2 (Zpos m) + 1 = 53 \/ e = -1074).
Proof.
  unfold bounded, canonical_mantissa. rewrite fexp_eq, digits2_pos_log2.
  change (emax - prec) with 971. intros H.
  apply andb_true_iff in H as [H1 H2].
  apply Z.eqb_eq in H1. apply Z.leb_le in H2. lia.
Qed.

Lemma aligned_value (s : bool) (m : positive) (e ez : Z) :
  -1074 <= ez -> ez <= e ->
  cond_Zopp s (Zpos (fst (shl_align m e ez))) * 2 ^ (ez + 1074)
  = scaled (S754_finite s m e).
Proof.
  intros H1 H2. pose proof (shl_align_value m e ez H1) as Hal.
  destruct (shl_align m e ez) as [m' e'']. destruct Hal as (Hv & He & _).
  cbn [fst scaled]. replace e'' with ez in Hv by lia.
  destruct s; cbn [cond_Zopp]; lia.
Qed.

Lemma SFsub_finite (sx sy : bool) (mx my : positive) (ex ey : Z) :
  bounded prec emax mx ex = true -> bounded prec emax my ey = true ->
  rounded (scaled (S754_finite sx mx ex) - scaled (S754_finite sy my ey))
          (SF64sub (S754_finite sx mx ex) (S754_finite sy my ey)).
Proof.
  intros Hx Hy.
  apply bounded_canonical in Hx as (Hx & _). apply bounded_canonical in Hy as (Hy & _).
  unfold SF64sub, SFsub. cbv zeta.
  rewrite <- (aligned_value sx mx ex (Z.min ex ey)) by lia.
  rewrite <- (aligned_value sy my ey (Z.min ex ey)) by lia.
  rewrite <- Z.mul_sub_distr_r. apply binary_normalize_spec. lia.
Qed.

Lemma SFadd_finite (sx sy : bool) (mx my : positive) (ex ey : Z) :
  bounded prec emax mx ex = true -> bounded prec emax my ey = true ->
  rounded (scaled (S754_finite sx mx ex) + scaled (S754_finite sy my ey))
          (SF64add (S754_finite sx mx ex) (S754_finite sy my ey)).
Proof.
  intros Hx Hy.
  apply bounded_canonical in Hx as (Hx & _). apply bounded_canonical in Hy as (Hy & _).
  unfold SF64add, SFadd. cbv zeta.
  rewrite <- (aligned_value sx mx ex (Z.min ex ey)) by lia.
  rewrite <- (aligned_value sy my ey (Z.min ex ey)) by lia.
  rewrite <- Z.mul_add_distr_r. apply binary_normalize_spec. lia.
Qed.

Lemma representable_grid (C : Z) :
  representable C ->
  0 < C /\ C mod grid C = 0 /\ C < 2 ^ 2098.
Proof.
  intros (m & e & Hb & ->). apply bounded_canonical in Hb as (He & Hd & Hc).
  assert (Hp : 0 < 2 ^ (e + 1074)) by (apply Z.pow_pos_nonneg; lia).
  pose proof (log2_bounds (Zpos m) eq_refl) as [Hlo Hhi].
  assert (Hm : Zpos m < 2 ^ 53).
  { eapply Z.lt_le_trans; [exact Hhi|]. apply Z.pow_le_mono_r; lia. }
  split; [lia|]. split.
  - unfold grid. rewrite Z.log2_mul_pow2 by lia.
    replace (Z.max (e + 1074 + Z.log2 (Zpos m) + 1 - 53) 0) with (e + 1074) by lia.
    apply Z.mod_mul. lia.
  - assert (2 ^ (e + 1074) <= 2 ^ 2045) by (apply Z.pow_le_mono_r; lia).
    change (2 ^ 2098) with (2 ^ 53 * 2 ^ 2045). nia.
Qed.

Lemma pow2_le_log2 (V : Z) : 0 < V -> 2 ^ Z.log2 V <= V.
Proof. intros H. apply (log2_bounds V H). Qed.

(** The grid of a value is at most the value's leading power of two. *)
Lemma grid_facts (V : Z) :
  0 < V ->
  let u := Z.max (Z.log2 V + 1 - 53) 0 in
  grid V = 2 ^ u
  /\ (0 < u -> 2 ^ (u + 52) <= V / grid V * grid V /\ V / grid V * grid V + grid V <= 2 ^ (u + 53)).
Proof.
  intros HV u. split; [reflexivity|]. intros Hu.
  assert (Hlog : Z.log2 V = u + 52) by lia.
  pose proof (log2_bounds V HV) as [Hlo Hhi]. rewrite Hlog in Hlo, Hhi.
  assert (HG : 0 < 2 ^ u) by (apply Z.pow_pos_nonneg; lia).
  unfold grid. fold u.
  assert (E1 : 2 ^ (u + 52) = 2 ^ 52 * 2 ^ u) by (rewrite Z.pow_add_r by lia; lia).
  assert (E2 : 2 ^ (u + 52 + 1) = 2 ^ 53 * 2 ^ u).
  { replace (u + 52 + 1) with (53 + u) by lia. now rewrite Z.pow_add_r by lia. }
  assert (Q1 : 2 ^ 52 <= V / 2 ^ u) by (apply Z.div_le_lower_bound; lia).
  assert (Q2 : V / 2 ^ u < 2 ^ 53) by (apply Z.div_lt_upper_bound; lia).
  replace (u + 53) with (u + 52 + 1) by lia. rewrite E1, E2. nia.
Qed.

(** No float lies strictly between a value and its rounding: a float that
    is at most the value is at most the rounding, and a float that is at
    least the value is at least the rounding. *)
Lemma rounds_to_above (V W C : Z) :
  0 < V -> rounds_to V W -> representable C -> C <= V -> C <= W.
Proof.
  intros HV HW HC HCV.
  pose proof (grid_facts V HV) as [HG Hbig]. cbv zeta in HG, Hbig.
  set (u := Z.max (Z.log2 V + 1 - 53) 0) in *.
  assert (HGp : 0 < grid V) by apply grid_pos.
  assert (HF : C <= V / grid V * grid V).
  { destruct HC as (m & e & Hb & ->). apply bounded_canonical in Hb as (He & Hd & Hc).
    pose proof (log2_bounds (Zpos m) eq_refl) as [Hlo Hhi].
    destruct (Z_le_gt_dec u (e + 1074)) as [Hge | Hlt].
    - (* the float is on the value's grid *)
      assert (Hmul : Zpos m * 2 ^ (e + 1074) = Zpos m * 2 ^ (e + 1074 - u) * grid V).
      { rewrite HG, <- Z.mul_assoc, <- Z.pow_add_r by lia. do 2 f_equal. lia. }
      rewrite Hmul in *.
      assert (Zpos m * 2 ^ (e + 1074 - u) <= V / grid V).
      { apply Z.div_le_lower_bound; lia. }
      nia.
    - (* the float is below the value's binade *)
      destruct (Hbig ltac:(lia)) as [Hb1 _].
      assert (Zpos m < 2 ^ 53).
      { eapply Z.lt_le_trans; [exact Hhi|]. apply Z.pow_le_mono_r; lia. }
      assert (2 ^ (e + 1074) <= 2 ^ (u - 1)) by (apply Z.pow_le_mono_r; lia).
      assert (0 < 2 ^ (e + 1074)) by (apply Z.pow_pos_nonneg; lia).
      assert (2 ^ (u + 52) = 2 ^ 53 * 2 ^ (u - 1)).
      { rewrite <- Z.pow_add_r by lia. f_equal. lia. }
      nia. }
  destruct HW as [-> | [-> _]]; lia.
Qed.

Lemma rounds_to_below (V W C : Z) :
  0 < V -> rounds_to V W -> representable C -> V <= C -> W <= C.
Proof.
  intros HV HW HC HVC.
  assert (HGp : 0 < grid V) by apply grid_pos.
  pose proof (Z.div_mod V (grid V) ltac:(lia)) as Hdm.
  pose proof (Z.mod_pos_bound V (grid V) HGp) as Hmod.
  destruct HW as [-> | [-> Hne]]; [nia|].
  pose proof (grid_facts V HV) as [HG Hbig]. cbv zeta in HG, Hbig.
  set (u := Z.max (Z.log2 V + 1 - 53) 0) in *.
  assert (Hu : 0 < u).
  { destruct (Z.eq_dec u 0) as [Hz|]; [|lia].
    rewrite HG, Hz in Hne. cbn in Hne. rewrite Z.mod_1_r in Hne. congruence. }
  destruct (Hbig Hu) as [Hb1 Hb2].
  set (F := V / grid V * grid V) in *.
  assert (HFV : F < V) by (unfold F; lia).
  destruct (Z_le_gt_dec (F + grid V) C) as [|Hlt]; [assumption|exfalso].
  pose proof (representable_grid C HC) as (HC0 & HCg & _).
  assert (HlogC : Z.log2 C = u + 52).
  { apply Z.log2_unique; [lia|]. replace (Z.succ (u + 52)) with (u + 53) by lia. lia. }
  assert (HgC : grid C = grid V).
  { rewrite HG. unfold grid. rewrite HlogC. f_equal. lia. }
  rewrite HgC in HCg.
  pose proof (Z.div_mod C (grid V) ltac:(lia)) as HCdm. rewrite HCg in HCdm.
  assert (V / grid V < C / grid V) by (unfold F in *; nia).
  assert (C / grid V < V / grid V + 1) by (unfold F in *; nia).
  lia.
Qed.

Lemma scaled_finite_bounds (s : bool) (m : positive) (e : Z) :
  bounded prec emax m e = true ->
  0 < Zpos m * 2 ^ (e + 1074) < 2 ^ 2098.
Proof.
  intros Hb.
  destruct (representable_grid (Zpos m * 2 ^ (e + 1074))) as (H1 & _ & H2); [|lia].
  now exists m, e.
Qed.

Lemma compare_same_sign (m1 m2 : positive) (e1 e2 : Z) :
  bounded prec emax m1 e1 = true -> bounded prec emax m2 e2 = true ->
  match Z.compare e1 e2 with
  | Lt => Lt
  | Gt => Gt
  | Eq => Pos.compare_cont Eq m1 m2
  end = Z.compare (Zpos m1 * 2 ^ (e1 + 1074)) (Zpos m2 * 2 ^ (e2 + 1074)).
Proof.
  intros H1 H2.
  apply bounded_canonical in H1 as (He1 & Hd1 & Hc1).
  apply bounded_canonical in H2 as (He2 & Hd2 & Hc2).
  pose proof (log2_bounds (Zpos m1) eq_refl) as [Hlo1 Hhi1].
  pose proof (log2_bounds (Zpos m2) eq_refl) as [Hlo2 Hhi2].
  assert (Hm1 : Zpos m1 < 2 ^ 53).
  { eapply Z.lt_le_trans; [exact Hhi1|]. apply Z.pow_le_mono_r; lia. }
  assert (Hm2 : Zpos m2 < 2 ^ 53).
  { eapply Z.lt_le_trans; [exact Hhi2|]. apply Z.pow_le_mono_r; lia. }
  assert (Hp1 : 0 < 2 ^ (e1 + 1074)) by (apply Z.pow_pos_nonneg; lia).
  assert (Hp2 : 0 < 2 ^ (e2 + 1074)) by (apply Z.pow_pos_nonneg; lia).
  destruct (Z.compare_spec e1 e2) as [-> | Hlt | Hgt].
  - change (Pos.compare_cont Eq m1 m2) with (Zpos m1 ?= Zpos m2).
    symmetry. destruct (Z.compare_spec (Zpos m1) (Zpos m2)) as [-> | H | H].
    + apply Z.compare_refl.
    + apply Z.compare_lt_iff. nia.
    + apply Z.compare_gt_iff. nia.
  - symmetry. apply Z.compare_lt_iff.
    assert (Z.log2 (Zpos m2) = 52) by lia.
    assert (2 ^ 52 <= Zpos m2) by (rewrite <- H; exact Hlo2).
    assert (2 ^ (e2 + 1074) = 2 ^ (e2 - e1 - 1) * 2 * 2 ^ (e1 + 1074)).
    { replace (e2 + 1074) with ((e2 - e1 - 1) + 1 + (e1 + 1074)) at 1 by lia.
      rewrite !Z.pow_add_r by lia. reflexivity. }
    assert (0 < 2 ^ (e2 - e1 - 1)) by (apply Z.pow_pos_nonneg; lia).
    change (2 ^ 53) with (2 ^ 52 * 2) in Hm1. nia.
  - symmetry. apply Z.compare_gt_iff.
    assert (Z.log2 (Zpos m1) = 52) by lia.
    assert (2 ^ 52 <= Zpos m1) by (rewrite <- H; exact Hlo1).
    assert (2 ^ (e1 + 1074) = 2 ^ (e1 - e2 - 1) * 2 * 2 ^ (e2 + 1074)).
    { replace (e1 + 1074) with ((e1 - e2 - 1) + 1 + (e2 + 1074)) at 1 by lia.
      rewrite !Z.pow_add_r by lia. reflexivity. }
    assert (0 < 2 ^ (e1 - e2 - 1)) by (apply Z.pow_pos_nonneg; lia).
    change (2 ^ 53) with (2 ^ 52 * 2) in Hm2. nia.
Qed.

(** Comparing two valid floats is comparing their places. *)
Lemma SFcompare_place (x y : spec_float) :
  valid_binary x = true -> valid_binary y = true ->
  is_nan x = false -> is_nan y = false ->
  SFcompare x y = Some (Z.compare (place x) (place y)).
Proof.
  intros Hx Hy Nx Ny.
  assert (Big : 2 ^ 2098 < 2 ^ 2100) by (apply Z.pow_lt_mono_r; lia).
  assert (Bpos : 0 < 2 ^ 2098) by (apply Z.pow_pos_nonneg; lia).
  destruct x as [sx | sx | | sx mx ex]; try discriminate;
  destruct y as [sy | sy | | sy my ey]; try discriminate;
  cbn [valid_binary] in Hx, Hy; cbn [SFcompare place scaled]; f_equal; symmetry.
  - destruct sy; cbn [cond_Zopp]; [apply Z.compare_gt_iff | apply Z.compare_lt_iff]; lia.
  - pose proof (scaled_finite_bounds sy my ey Hy).
    destruct sy; cbn [cond_Zopp]; [apply Z.compare_gt_iff | apply Z.compare_lt_iff]; lia.
  - destruct sx; cbn [cond_Zopp]; [apply Z.compare_lt_iff | apply Z.compare_gt_iff]; lia.
  - destruct sx, sy; cbn [cond_Zopp];
      [apply Z.compare_eq_iff | apply Z.compare_lt_iff
      | apply Z.compare_gt_iff | apply Z.compare_eq_iff]; lia.
  - pose proof (scaled_finite_bounds sy my ey Hy).
    destruct sx, sy; cbn [cond_Zopp];
      [apply Z.compare_lt_iff | apply Z.compare_lt_iff
      | apply Z.compare_gt_iff | apply Z.compare_gt_iff]; lia.
  - pose proof (scaled_finite_bounds sx mx ex Hx).
    destruct sx; cbn [cond_Zopp]; [apply Z.compare_lt_iff | apply Z.compare_gt_iff]; lia.
  - pose proof (scaled_finite_bounds sx mx ex Hx).
    destruct sx, sy; cbn [cond_Zopp];
      [apply Z.compare_gt_iff | apply Z.compare_lt_iff
      | apply Z.compare_gt_iff | apply Z.compare_lt_iff]; lia.
  - pose proof (scaled_finite_bounds sx mx ex Hx).
    pose proof (scaled_finite_bounds sy my ey Hy).
    destruct sx, sy; cbn [cond_Zopp].
    + rewrite Z.compare_opp. rewrite <- (compare_same_sign my mx ey ex Hy Hx).
      rewrite (Z.compare_antisym ex ey).
      destruct (ex ?= ey); cbn [CompOpp]; try reflexivity.
      change (Pos.compare_cont Eq my mx) with (Pos.compare my mx).
      change (Pos.compare_cont Eq mx my) with (Pos.compare mx my).
      apply Pos.compare_antisym.
    + apply Z.compare_lt_iff. lia.
    + apply Z.compare_gt_iff. lia.
    + symmetry. now apply compare_same_sign.
Qed.

Lemma rounds_to_pos (V W : Z) : 0 < V -> rounds_to V W -> 0 < W.
Proof.
  intros HV HW.
  pose proof (grid_pos V) as HG.
  assert (Hle : grid V <= V).
  { unfold grid. destruct (Z.max_spec (Z.log2 V + 1 - 53) 0) as [[_ ->] | [_ ->]].
    - cbn. lia.
    - pose proof (pow2_le_log2 V HV).
      assert (2 ^ (Z.log2 V + 1 - 53) <= 2 ^ Z.log2 V).
      { apply Z.pow_le_mono_r; [lia|]. pose proof (Z.log2_nonneg V). lia. }
      lia. }
  assert (1 <= V / grid V) by (apply Z.div_le_lower_bound; lia).
  destruct HW as [-> | [-> _]]; nia.
Qed.

Lemma place_finite_bounds (s : bool) (m : positive) (e : Z) :
  bounded prec emax m e = true ->
  let P := Zpos m * 2 ^ (e + 1074) in
  0 < P < 2 ^ 2098 /\ representable P.
Proof.
  intros Hb. split; [now apply (scaled_finite_bounds s)|]. now exists m, e.
Qed.

Lemma place_bounds (x : spec_float) :
  valid_binary x = true -> - 2 ^ 2100 <= place x <= 2 ^ 2100.
Proof.
  assert (Big : 2 ^ 2098 < 2 ^ 2100) by (apply Z.pow_lt_mono_r; lia).
  assert (Bpos : 0 < 2 ^ 2098) by (apply Z.pow_pos_nonneg; lia).
  destruct x as [s | s | | s m e]; cbn [valid_binary place scaled]; intros H;
    try lia.
  - destruct s; cbn [cond_Zopp]; lia.
  - pose proof (scaled_finite_bounds s m e H). destruct s; cbn [cond_Zopp]; lia.
Qed.

Lemma same_sign_compare (a b : Z) :
  (0 < a /\ 0 < b) \/ (a < 0 /\ b < 0) \/ (a = 0 /\ b = 0) ->
  Z.compare a 0 = Z.compare b 0.
Proof.
  intros [[Ha Hb] | [[Ha Hb] | [-> ->]]]; [| |reflexivity].
  - rewrite (proj2 (Z.compare_gt_iff a 0)), (proj2 (Z.compare_gt_iff b 0)); auto.
  - rewrite (proj2 (Z.compare_lt_iff a 0)), (proj2 (Z.compare_lt_iff b 0)); auto.
Qed.

(** The place of the rounding of [V], relative to zero and to the floats. *)
Lemma rounded_place (V : Z) (r : spec_float) :
  rounded V r ->
  is_nan r = false
  /\ Z.compare (place r) 0 = Z.compare V 0
  /\ (forall C, representable C -> C <= V -> C <= place r)
  /\ (forall C, representable C -> V <= C -> place r <= C)
  /\ (forall C, representable C -> - C <= V -> - C <= place r)
  /\ (forall C, representable C -> V <= - C -> place r <= - C).
Proof.
  assert (Big : 2 ^ 2098 < 2 ^ 2100) by (apply Z.pow_lt_mono_r; lia).
  assert (Bpos : 0 < 2 ^ 2098) by (apply Z.pow_pos_nonneg; lia).
  intros [[-> ->] | [[HV Hr] | [HV Hr]]].
  - cbn [is_nan place scaled]. repeat split; intros C HC;
      pose proof (representable_grid C HC); lia.
  - destruct r as [s | s | | s m e]; cbn [pos_rounded] in Hr; try contradiction.
    + destruct Hr as [-> (W & HW & HbigW)]. cbn [is_nan place cond_Zopp].
      repeat split; try (intros C HC HCV; pose proof (representable_grid C HC)).
      * apply same_sign_compare; lia.
      * lia.
      * pose proof (rounds_to_below V W C HV HW HC HCV). lia.
      * lia.
      * lia.
    + destruct Hr as [-> HW]. cbn [is_nan place scaled cond_Zopp].
      pose proof (rounds_to_pos _ _ HV HW) as HWpos.
      repeat split; try (intros C HC HCV; pose proof (representable_grid C HC)).
      * apply same_sign_compare; lia.
      * now apply (rounds_to_above V).
      * now apply (rounds_to_below V).
      * lia.
      * lia.
  - destruct r as [s | s | | s m e]; cbn [pos_rounded] in Hr; try contradiction.
    + destruct Hr as [-> (W & HW & HbigW)]. cbn [is_nan place cond_Zopp].
      repeat split; try (intros C HC HCV; pose proof (representable_grid C HC)).
      * apply same_sign_compare; lia.
      * lia.
      * lia.
      * pose proof (rounds_to_below (- V) W C ltac:(lia) HW HC ltac:(lia)). lia.
      * lia.
    + destruct Hr as [-> HW]. cbn [is_nan place scaled cond_Zopp].
      assert (HnV : 0 < - V) by lia.
      pose proof (rounds_to_pos _ _ HnV HW) as HWpos.
      repeat split; try (intros C HC HCV; pose proof (representable_grid C HC)).
      * apply same_sign_compare; lia.
      * lia.
      * lia.
      * pose proof (rounds_to_below (- V) _ C ltac:(lia) HW HC ltac:(lia)). lia.
      * pose proof (rounds_to_above (- V) _ C ltac:(lia) HW HC ltac:(lia)). lia.
Qed.

Lemma compare_sub_zero (a b : Z) : Z.compare (a - b) 0 = Z.compare a b.
Proof. symmetry. apply Z.compare_sub. Qed.

Lemma compare_sign_cases (a b c : Z) :
  (a < 0 /\ b < c) \/ (a = 0 /\ b = c) \/ (0 < a /\ c < b) ->
  Z.compare a 0 = Z.compare b c.
Proof.
  intros [[Ha Hb] | [[-> ->] | [Ha Hb]]].
  - rewrite (proj2 (Z.compare_lt_iff a 0)), (proj2 (Z.compare_lt_iff b c)); auto.
  - rewrite !Z.compare_refl. reflexivity.
  - rewrite (proj2 (Z.compare_gt_iff a 0)), (proj2 (Z.compare_gt_iff b c)); auto.
Qed.

(** The sign and the place of a finite float. *)
Lemma finite_place (s : bool) (m : positive) (e : Z) :
  bounded prec emax m e = true ->
  exists C, representable C /\ 0 < C < 2 ^ 2098
            /\ place (S754_finite s m e) = cond_Zopp s C.
Proof.
  intros Hb. exists (Zpos m * 2 ^ (e + 1074)).
  destruct (place_finite_bounds s m e Hb) as [H1 H2]. auto.
Qed.

Ltac place_facts :=
  assert (Big : 2 ^ 2098 < 2 ^ 2100) by (apply Z.pow_lt_mono_r; lia);
  assert (Bpos : 0 < 2 ^ 2098) by (apply Z.pow_pos_nonneg; lia).

(** Subtraction: the difference is NaN only for two equal infinities;
    otherwise its sign is the order of the operands, and subtracting a
    non-negative number does not increase. *)
Lemma SFsub_place (x y : spec_float) :
  valid_binary x = true -> valid_binary y = true ->
  is_nan x = false -> is_nan y = false ->
  let r := SF64sub x y in
  (is_nan r = true /\ place x = place y)
  \/ (is_nan r = false
      /\ Z.compare (place r) 0 = Z.compare (place x) (place y)
      /\ (0 <= place y -> place r <= place x)
      /\ (place y <= 0 -> place x <= place r)).
Proof.
  intros Hx Hy Nx Ny. place_facts.
  destruct x as [sx | sx | | sx mx ex]; try discriminate;
  destruct y as [sy | sy | | sy my ey]; try discriminate;
  cbn [valid_binary] in Hx, Hy.
  - right. destruct sx, sy; cbn; repeat split; lia.
  - right. destruct sx, sy; cbn; repeat split; try lia;
      apply compare_sign_cases; lia.
  - right. destruct (finite_place (negb sy) my ey Hy) as (C & _ & HC & Hr).
    destruct (finite_place sy my ey Hy) as (C' & _ & HC' & Hy').
    assert (C' = C) by (destruct sy; cbn [negb cond_Zopp place scaled] in *; lia). subst C'.
    unfold SF64sub, SFsub. cbv zeta. rewrite Hr, Hy'. cbn [is_nan place scaled].
    destruct sx, sy; cbn [negb cond_Zopp]; repeat split; try lia;
      apply compare_sign_cases; lia.
  - right. destruct sx, sy; cbn; repeat split; try lia;
      apply compare_sign_cases; lia.
  - destruct sx, sy; cbn; auto; right; repeat split; try lia;
      apply compare_sign_cases; lia.
  - right. destruct (finite_place sy my ey Hy) as (C & _ & HC & Hy').
    unfold SF64sub, SFsub. cbv zeta. rewrite Hy'. cbn [is_nan place].
    destruct sx, sy; cbn [cond_Zopp]; repeat split; try lia;
      apply compare_sign_cases; lia.
  - right. destruct (finite_place sx mx ex Hx) as (C & _ & HC & Hx').
    unfold SF64sub, SFsub. cbv zeta. rewrite Hx'. cbn [is_nan place scaled].
    destruct sx; cbn [cond_Zopp]; repeat split; try lia;
      apply compare_sign_cases; lia.
  - right. destruct (finite_place sx mx ex Hx) as (C & _ & HC & Hx').
    unfold SF64sub, SFsub. cbv zeta. rewrite Hx'. cbn [is_nan place].
    destruct sx, sy; cbn [negb cond_Zopp]; repeat split; try lia;
      apply compare_sign_cases; lia.
  - right.
    pose proof (SFsub_finite sx sy mx my ex ey Hx Hy) as Hr.
    apply rounded_place in Hr as (Hn & Hc & B1 & B2 & B3 & B4).
    destruct (finite_place sx mx ex Hx) as (C & HCr & HC & Hx').
    destruct (finite_place sy my ey Hy) as (D & HDr & HD & Hy').
    change (scaled (S754_finite sx mx ex)) with (place (S754_finite sx mx ex)) in *.
    change (scaled (S754_finite sy my ey)) with (place (S754_finite sy my ey)) in *.
    cbv zeta. rewrite Hx', Hy' in *.
    split; [exact Hn|]. split; [now rewrite Hc, compare_sub_zero|].
    split; intros Hy0.
    + destruct sx; cbn [cond_Zopp] in *; [apply B4 | apply B2]; auto; lia.
    + destruct sx; cbn [cond_Zopp] in *; [apply B3 | apply B1]; auto; lia.
Qed.

(** Addition: adding a non-negative number does not decrease. *)
Lemma SFadd_place (x y : spec_float) :
  valid_binary x = true -> valid_binary y = true ->
  is_nan x = false -> is_nan y = false ->
  let r := SF64add x y in
  is_nan r = true
  \/ (is_nan r = false
      /\ (0 <= place y -> place x <= place r)
      /\ (place y <= 0 -> place r <= place x)).
Proof.
  intros Hx Hy Nx Ny. place_facts.
  destruct x as [sx | sx | | sx mx ex]; try discriminate;
  destruct y as [sy | sy | | sy my ey]; try discriminate;
  cbn [valid_binary] in Hx, Hy.
  - right. destruct sx, sy; cbn; repeat split; lia.
  - right. destruct sx, sy; cbn; repeat split; lia.
  - right. destruct (finite_place sy my ey Hy) as (C & _ & HC & Hy').
    unfold SF64add, SFadd. cbv zeta. rewrite Hy'. cbn [is_nan place scaled].
    destruct sx, sy; cbn [cond_Zopp]; repeat split; lia.
  - right. destruct sx, sy; cbn; repeat split; lia.
  - destruct sx, sy; cbn; auto; right; repeat split; lia.
  - right. destruct (finite_place sy my ey Hy) as (C & _ & HC & Hy').
    unfold SF64add, SFadd. cbv zeta. rewrite Hy'. cbn [is_nan place].
    destruct sx, sy; cbn [cond_Zopp]; repeat split; lia.
  - right. destruct (finite_place sx mx ex Hx) as (C & _ & HC & Hx').
    unfold SF64add, SFadd. cbv zeta. rewrite Hx'. cbn [is_nan place scaled].
    destruct sx; cbn [cond_Zopp]; repeat split; lia.
  - right. destruct (finite_place sx mx ex Hx) as (C & _ & HC & Hx').
    unfold SF64add, SFadd. cbv zeta. rewrite Hx'. cbn [is_nan place].
    destruct sx, sy; cbn [cond_Zopp]; repeat split; lia.
  - right.
    pose proof (SFadd_finite sx sy mx my ex ey Hx Hy) as Hr.
    apply rounded_place in Hr as (Hn & Hc & B1 & B2 & B3 & B4).
    destruct (finite_place sx mx ex Hx) as (C & HCr & HC & Hx').
    destruct (finite_place sy my ey Hy) as (D & HDr & HD & Hy').
    change (scaled (S754_finite sx mx ex)) with (place (S754_finite sx mx ex)) in *.
    change (scaled (S754_finite sy my ey)) with (place (S754_finite sy my ey)) in *.
    cbv zeta. rewrite Hx', Hy' in *.
    split; [exact Hn|].
    split; intros Hy0.
    + destruct sx; cbn [cond_Zopp] in *; [apply B3 | apply B1]; auto; lia.
    + destruct sx; cbn [cond_Zopp] in *; [apply B4 | apply B2]; auto; lia.
Qed.

Lemma binary_round_aux_sign (s : bool) (m e : Z) (l : location) :
  match binary_round_aux prec emax s m e l with
  | S754_zero s' | S754_infinity s' | S754_finite s' _ _ => s' = s
  | S754_nan => True
  end.
Proof.
  unfold binary_round_aux.
  destruct (shr_fexp prec emax m e l) as [mrs' e'].
  destruct (shr_fexp prec emax _ e' loc_Exact) as [mrs'' e''].
  destruct (shr_m mrs''); auto.
  destruct (e'' <=? emax - prec); reflexivity.
Qed.

Lemma nonneg_finite_sign (s : bool) (m : positive) (e : Z) :
  bounded prec emax m e = true -> 0 <= place (S754_finite s m e) -> s = false.
Proof.
  intros Hb Hp. destruct (finite_place s m e Hb) as (C & _ & HC & Hpl).
  rewrite Hpl in Hp. destruct s; [cbn [cond_Zopp] in Hp; lia | reflexivity].
Qed.

(** The product of two non-negative numbers is not negative. *)
Lemma SFmul_place (x y : spec_float) :
  valid_binary x = true -> valid_binary y = true ->
  is_nan x = false -> is_nan y = false ->
  0 <= place x -> 0 <= place y ->
  let r := SF64mul x y in
  is_nan r = true \/ 0 <= place r.
Proof.
  intros Hx Hy Nx Ny Px Py. place_facts.
  destruct x as [sx | sx | | sx mx ex]; try discriminate;
  destruct y as [sy | sy | | sy my ey]; try discriminate;
  cbn [valid_binary] in Hx, Hy;
  try (pose proof (nonneg_finite_sign _ _ _ Hx Px); subst sx);
  try (pose proof (nonneg_finite_sign _ _ _ Hy Py); subst sy).
  - right. cbn. lia.
  - left. reflexivity.
  - right. cbn. lia.
  - left. reflexivity.
  - right. destruct sx, sy; cbn [place cond_Zopp] in *; try lia. cbn. lia.
  - right. destruct sx; cbn [place cond_Zopp] in *; try lia. cbn. lia.
  - right. cbn. lia.
  - right. destruct sy; cbn [place cond_Zopp] in *; try lia. cbn. lia.
  - cbv zeta. unfold SF64mul, SFmul.
    pose proof (binary_round_aux_sign (xorb false false) (Zpos (mx * my)) (ex + ey) loc_Exact)
      as Hs.
    destruct (binary_round_aux _ _ _ _ _ _) as [s | s | | s m e]; auto; right;
      cbn [xorb] in Hs; subst s.
    + cbn. lia.
    + cbn. lia.
    + cbn [place scaled cond_Zopp]. pose proof (Z.pow_nonneg 2 (e + 1074) ltac:(lia)). nia.
Qed.

Local Close Scope Z_scope.

(** *** The same facts on JavaScript numbers *)

Lemma isNaN_spec (x : float) : isNaN x = is_nan (Prim2SF x).
Proof.
  unfold isNaN. rewrite FloatAxioms.eqb_spec. unfold SFeqb.
  destruct (is_nan (Prim2SF x)) eqn:N.
  - destruct (Prim2SF x); try discriminate. reflexivity.
  - rewrite SFcompare_place by (auto using Prim2SF_valid).
    now rewrite Z.compare_refl.
Qed.

Lemma compare_floats (x y : float) :
  isNaN x = false -> isNaN y = false ->
  SFcompare (Prim2SF x) (Prim2SF y) = Some (Z.compare (fplace x) (fplace y)).
Proof.
  rewrite !isNaN_spec. intros Nx Ny. apply SFcompare_place; auto using Prim2SF_valid.
Qed.

Lemma ltb_place (x y : float) :
  isNaN x = false -> isNaN y = false ->
  (x <? y)%float = (fplace x <? fplace y)%Z.
Proof.
  intros Nx Ny. rewrite FloatAxioms.ltb_spec. unfold SFltb, Z.ltb.
  now rewrite compare_floats.
Qed.

Lemma leb_place (x y : float) :
  isNaN x = false -> isNaN y = false ->
  (x <=? y)%float = (fplace x <=? fplace y)%Z.
Proof.
  intros Nx Ny. rewrite FloatAxioms.leb_spec. unfold SFleb, Z.leb.
  rewrite compare_floats by assumption.
  destruct (fplace x ?= fplace y)%Z; reflexivity.
Qed.

Lemma eqb_place (x y : float) :
  isNaN x = false -> isNaN y = false ->
  (x =? y)%float = (fplace x =? fplace y)%Z.
Proof.
  intros Nx Ny. rewrite FloatAxioms.eqb_spec, Z.eqb_compare. unfold SFeqb.
  now rewrite compare_floats by assumption.
Qed.

Lemma ltb_nan (x y : float) :
  isNaN x = true \/ isNaN y = true -> (x <? y)%float = false.
Proof.
  rewrite !isNaN_spec, FloatAxioms.ltb_spec. unfold SFltb.
  intros [N | N].
  - destruct (Prim2SF x); try discriminate. reflexivity.
  - destruct (Prim2SF y); try discriminate. now destruct (Prim2SF x).
Qed.

Lemma leb_true_not_nan (x y : float) :
  (x <=? y)%float = true -> isNaN x = false /\ isNaN y = false.
Proof.
  rewrite !isNaN_spec, FloatAxioms.leb_spec. unfold SFleb.
  destruct (Prim2SF x), (Prim2SF y); cbn; try discriminate; auto.
Qed.

Lemma fplace_zero : fplace 0 = 0%Z.
Proof. reflexivity. Qed.

Lemma sub_cases (x y : float) :
  isNaN x = false -> isNaN y = false ->
  (isNaN (x - y) = true /\ fplace x = fplace y)
  \/ (isNaN (x - y) = false
      /\ Z.compare (fplace (x - y)) 0 = Z.compare (fplace x) (fplace y)
      /\ (0 <= fplace y -> fplace (x - y) <= fplace x)%Z
      /\ (fplace y <= 0 -> fplace x <= fplace (x - y))%Z).
Proof.
  rewrite !isNaN_spec. unfold fplace. rewrite FloatAxioms.sub_spec. intros Nx Ny.
  apply SFsub_place; auto using Prim2SF_valid.
Qed.

Lemma add_cases (x y : float) :
  isNaN x = false -> isNaN y = false ->
  isNaN (x + y) = true
  \/ (isNaN (x + y) = false
      /\ (0 <= fplace y -> fplace x <= fplace (x + y))%Z
      /\ (fplace y <= 0 -> fplace (x + y) <= fplace x)%Z).
Proof.
  rewrite !isNaN_spec. unfold fplace. rewrite FloatAxioms.add_spec. intros Nx Ny.
  apply SFadd_place; auto using Prim2SF_valid.
Qed.

Lemma mul_cases (x y : float) :
  isNaN x = false -> isNaN y = false ->
  (0 <= fplace x)%Z -> (0 <= fplace y)%Z ->
  isNaN (x * y) = true \/ (0 <= fplace (x * y))%Z.
Proof.
  rewrite !isNaN_spec. unfold fplace. rewrite FloatAxioms.mul_spec. intros Nx Ny.
  apply SFmul_place; auto using Prim2SF_valid.
Qed.

Lemma nan_sub (x y : float) :
  isNaN x = true \/ isNaN y = true -> isNaN (x - y) = true.
Proof.
  rewrite !isNaN_spec, FloatAxioms.sub_spec. intros [N | N].
  - destruct (Prim2SF x); try discriminate. reflexivity.
  - destruct (Prim2SF y); try discriminate. now destruct (Prim2SF x).
Qed.

Lemma nan_add (x y : float) :
  isNaN x = true \/ isNaN y = true -> isNaN (x + y) = true.
Proof.
  rewrite !isNaN_spec, FloatAxioms.add_spec. intros [N | N].
  - destruct (Prim2SF x); try discriminate. reflexivity.
  - destruct (Prim2SF y); try discriminate. now destruct (Prim2SF x).
Qed.

Lemma nan_mul (x y : float) :
  isNaN x = true \/ isNaN y = true -> isNaN (x * y) = true.
Proof.
  rewrite !isNaN_spec, FloatAxioms.mul_spec. intros [N | N].
  - destruct (Prim2SF x); try discriminate. reflexivity.
  - destruct (Prim2SF y); try discriminate. now destruct (Prim2SF x).
Qed.

(** The sign of a difference is the order of its operands. *)
Lemma sub_positive (a b : float) :
  isNaN a = false -> isNaN b = false ->
  (0 <? a - b)%float = (fplace b <? fplace a)%Z.
Proof.
  intros Na Nb. destruct (sub_cases a b Na Nb) as [[Hn He] | (Hn & Hc & _)].
  - rewrite ltb_nan by auto. rewrite He. symmetry. apply Z.ltb_irrefl.
  - rewrite ltb_place by auto. rewrite fplace_zero.
    unfold Z.ltb. rewrite (Z.compare_antisym (fplace a) (fplace b)), <- Hc.
    rewrite (Z.compare_antisym (fplace (a - b)) 0). reflexivity.
Qed.

Lemma eqb_zero_not_lt (s : float) :
  (s =? 0) = true -> (0 <? s) = false /\ (s <? 0) = false.
Proof.
  rewrite FloatAxioms.eqb_spec, !FloatAxioms.ltb_spec.
  replace (Prim2SF 0) with (S754_zero false) by reflexivity.
  destruct (Prim2SF s) as [sg | sg | | sg m e]; cbn; try discriminate; auto.
  - destruct sg; discriminate.
  - destruct sg; discriminate.
Qed.

(* ================================================================== *)
(** ** Array.prototype.sort *)

Section SortFacts.
Context {A : Type} (cmp : A -> A -> float) (key : A -> Z).

Lemma sort_insert_perm (x : A) (l : list A) :
  Permutation (x :: l) (sort_insert cmp x l).
Proof.
  induction l as [|y r IH]; cbn [sort_insert]; [reflexivity|].
  destruct (0 <? cmp x y); [|reflexivity].
  rewrite perm_swap. now apply perm_skip.
Qed.

Lemma sort_perm (l : list A) : Permutation l (sort cmp l).
Proof.
  induction l as [|x r IH]; cbn [sort]; [reflexivity|].
  rewrite <- sort_insert_perm. now apply perm_skip.
Qed.

Lemma sort_length (l : list A) : List.length (sort cmp l) = List.length l.
Proof. symmetry. apply Permutation_length, sort_perm. Qed.

Lemma sort_insert_sorted (x : A) (l : list A) :
  orders_by cmp key (x :: l) ->
  StronglySorted (key_le key) l -> StronglySorted (key_le key) (sort_insert cmp x l).
Proof.
  intros Hk Hs. induction Hs as [|y r Hs IH Hy]; cbn [sort_insert].
  - repeat constructor.
  - rewrite (Hk x y) by (cbn; auto).
    destruct (Z.ltb_spec (key y) (key x)) as [Hlt | Hge].
    + constructor.
      * apply IH. intros a b Ha Hb. apply Hk; cbn in *; tauto.
      * apply Forall_forall. intros z Hz.
        apply (Permutation_in _ (Permutation_sym (sort_insert_perm x r))) in Hz.
        destruct Hz as [<- | Hz]; [unfold key_le; lia|].
        rewrite Forall_forall in Hy. now apply Hy.
    + constructor; [now constructor|].
      constructor; [exact Hge|].
      rewrite Forall_forall in Hy |- *. intros z Hz.
      specialize (Hy z Hz). unfold key_le in *. lia.
Qed.

Lemma sort_sorted (l : list A) :
  orders_by cmp key l -> StronglySorted (key_le key) (sort cmp l).
Proof.
  induction l as [|x r IH]; intros Hk; cbn [sort]; [constructor|].
  apply sort_insert_sorted.
  - intros a b Ha Hb. apply Hk.
    + destruct Ha as [<- | Ha]; [now left | right].
      now apply (Permutation_in _ (Permutation_sym (sort_perm r))).
    + destruct Hb as [<- | Hb]; [now left | right].
      now apply (Permutation_in _ (Permutation_sym (sort_perm r))).
  - apply IH. intros a b Ha Hb. apply Hk; now right.
Qed.

Lemma sorted_nth (l : list A) (d : A) :
  StronglySorted (key_le key) l ->
  forall i j, (i <= j)%nat -> (j < List.length l)%nat ->
  key_le key (nth i l d) (nth j l d).
Proof.
  induction 1 as [|x r Hs IH Hx]; intros i j Hij Hj; [cbn in Hj; lia|].
  destruct j as [|j].
  - replace i with 0%nat by lia. unfold key_le. cbn. lia.
  - destruct i as [|i].
    + cbn [nth]. rewrite Forall_forall in Hx. apply Hx. apply nth_In. cbn in Hj. lia.
    + cbn [nth]. apply IH; cbn in Hj; lia.
Qed.

Lemma precedes_cons (h x y : A) (l : list A) :
  precedes x y l -> precedes x y (h :: l).
Proof. intros (l1 & l2 & l3 & ->). now exists (h :: l1), l2, l3. Qed.

Lemma precedes_head (x y : A) (l : list A) : In y l -> precedes x y (x :: l).
Proof.
  intros Hy. apply in_split in Hy as (l2 & l3 & ->). now exists [], l2, l3.
Qed.

Lemma precedes_insert (h x y : A) (l : list A) :
  precedes x y l -> precedes x y (sort_insert cmp h l).
Proof.
  revert x y. induction l as [|z r IH]; intros x y Hp.
  - destruct Hp as ([|? ?] & ? & ? & ?); discriminate.
  - cbn [sort_insert]. destruct (0 <? cmp h z); [|now apply precedes_cons].
    destruct Hp as (l1 & l2 & l3 & E). destruct l1 as [|a l1]; cbn in E; inversion E; subst.
    + apply precedes_head.
      apply (Permutation_in _ (sort_insert_perm h (l2 ++ y :: l3))).
      right. apply in_or_app. right. now left.
    + apply precedes_cons. apply IH. now exists l1, l2, l3.
Qed.

Lemma insert_before (x y : A) (l : list A) :
  In y l -> (0 <? cmp x y) = false -> precedes x y (sort_insert cmp x l).
Proof.
  induction l as [|z r IH]; intros Hy Hc; [destruct Hy|].
  cbn [sort_insert]. destruct (0 <? cmp x z) eqn:E.
  - destruct Hy as [-> | Hy]; [congruence|].
    apply precedes_cons. now apply IH.
  - now apply precedes_head.
Qed.

(** The sort is stable: an element stays before a later one it does not
    compare greater than. *)
Lemma sort_stable (x y : A) (l : list A) :
  precedes x y l -> (0 <? cmp x y) = false -> precedes x y (sort cmp l).
Proof.
  intros Hp Hc. induction l as [|h t IH].
  - destruct Hp as ([|? ?] & ? & ? & ?); discriminate.
  - cbn [sort]. destruct Hp as (l1 & l2 & l3 & E).
    destruct l1 as [|a l1]; cbn in E; inversion E; subst.
    + apply insert_before; [|exact Hc].
      apply (Permutation_in _ (sort_perm (l2 ++ y :: l3))).
      apply in_or_app. right. now left.
    + apply precedes_insert. apply IH. now exists l1, l2, l3.
Qed.
End SortFacts.

Lemma StronglySorted_weaken {A} (R R' : A -> A -> Prop) (l : list A) :
  (forall a b, In a l -> In b l -> R a b -> R' a b) ->
  StronglySorted R l -> StronglySorted R' l.
Proof.
  intros Himp Hs. induction Hs as [|x r Hs IH Hx]; constructor.
  - apply IH. intros a b Ha Hb. apply Himp; now right.
  - rewrite Forall_forall in Hx |- *. intros y Hy.
    apply Himp; [now left | now right | now apply Hx].
Qed.

Lemma combine_seq_snd {A} (l : list A) (start : nat) :
  map snd (combine (seq start (List.length l)) l) = l.
Proof.
  revert start. induction l as [|x r IH]; intros start; cbn; [reflexivity|].
  now rewrite IH.
Qed.

Lemma combine_seq_fst {A} (l : list A) (start : nat) :
  map fst (combine (seq start (List.length l)) l) = seq start (List.length l).
Proof.
  revert start. induction l as [|x r IH]; intros start; cbn; [reflexivity|].
  now rewrite IH.
Qed.

Lemma filter_complement {A} (p : A -> bool) (l : list A) (v : A) :
  In v (filter (fun x => negb (p x)) l) -> In v l /\ ~ In v (filter p l).
Proof.
  intros Hv. apply filter_In in Hv as [Hin Hc]. split; [exact Hin|].
  intros Ho. apply filter_In in Ho as [_ Ho]. rewrite Ho in Hc. discriminate.
Qed.

Lemma filter_complement_length {A} (p : A -> bool) (l : list A) :
  (List.length (filter (fun x => negb (p x)) l) + List.length (filter p l)
   = List.length l)%nat.
Proof. rewrite Nat.add_comm. apply filter_length. Qed.

(* ================================================================== *)
(** ** Grouping into a plain object *)

Section Grouping.
Context {V A : Type} (key : A -> string) (value : A -> V).

Lemma dict_get_plain (obj : Dict (list V)) (k : string) :
  plain obj -> inherited k = true -> dict_get obj k = None.
Proof.
  intros Hp Hk. induction Hp as [|[k' v] rest Hk' _ IH]; [reflexivity|].
  cbn [dict_get]. destruct (String.eqb_spec k' k) as [-> | _]; [|exact IH].
  cbn [fst] in Hk'. congruence.
Qed.

Lemma dict_set_plain (obj : Dict (list V)) (k : string) (v : list V) :
  plain obj -> inherited k = false -> plain (dict_set obj k v).
Proof.
  intros Hp Hk. induction Hp as [|[k' v'] rest Hk' Hr IH].
  - repeat constructor. exact Hk.
  - cbn [dict_set]. destruct (String.eqb k' k); constructor; assumption.
Qed.

Lemma push_into_plain (obj obj' : Dict (list V)) (k : string) (v : V) :
  plain obj -> push_into obj k v = Some obj' -> plain obj' /\ inherited k = false.
Proof.
  intros Hp. unfold push_into.
  destruct (inherited k) eqn:Hk.
  - now rewrite (dict_get_plain obj k Hp Hk).
  - destruct (dict_get obj k); intros [= <-]; split; auto using dict_set_plain.
Qed.

Lemma push_into_ordinary (obj : Dict (list V)) (k : string) (v : V) :
  inherited k = false -> exists obj', push_into obj k v = Some obj'.
Proof.
  intros Hk. unfold push_into. rewrite Hk. destruct (dict_get obj k); eauto.
Qed.

Lemma push_into_inherited (obj : Dict (list V)) (k : string) (v : V) :
  plain obj -> inherited k = true -> push_into obj k v = None.
Proof.
  intros Hp Hk. unfold push_into. now rewrite (dict_get_plain obj k Hp Hk), Hk.
Qed.

(** The grouping loop returns exactly when no key names an inherited
    property. *)
Lemma grouping_returns (items : list A) (obj : Dict (list V)) :
  Forall (fun item => inherited (key item) = false) items ->
  exists obj', forEach (fun o item => push_into o (key item) (value item)) items obj = Some obj'.
Proof.
  intros Hi. revert obj. induction Hi as [|item rest Hk _ IH]; intros obj.
  - now exists obj.
  - cbn [forEach]. destruct (push_into_ordinary obj _ (value item) Hk) as [o ->]. apply IH.
Qed.

Lemma grouping_throws (items : list A) (obj : Dict (list V)) :
  plain obj ->
  Exists (fun item => inherited (key item) = true) items ->
  forEach (fun o item => push_into o (key item) (value item)) items obj = None.
Proof.
  intros Hp He. revert obj Hp. induction He as [item rest Hk | item rest _ IH]; intros obj Hp.
  - cbn [forEach]. now rewrite (push_into_inherited obj _ _ Hp Hk).
  - cbn [forEach]. destruct (push_into obj (key item) (value item)) as [o|] eqn:E; [|reflexivity].
    apply IH. now apply (push_into_plain obj o _ _ Hp E).
Qed.
End Grouping.

(* ================================================================== *)
(** ** KPICalculator: success rate and Wilson interval *)

(** C1, at a failing input.  With a confidence level of 0.84 the z-score
    that [getZScore] takes from [inverseNormalCDF] is negative, and the
    interval for 5 successes out of 10 is returned upside down: its lower
    end is above the rate 0.5 and its upper end below it.  At the default
    level 0.95, 6 successes out of 6 give an upper end below the rate 1. *)
Theorem wilson_interval_misses_rate `{rt : Runtime} :
  KPICalculator.getZScore 0.84 = -21.072122215814922
  /\ KPICalculator.calculateWilsonInterval 5 10 0.84
     = (0.99446315179947997, 0.0055368482005200281)
  /\ KPICalculator.calculateWilsonInterval 6 6 0.95
     = (0.60965696634693545, 0.99999999999999989).
Proof. repeat split; vm_compute; reflexivity. Qed.

Lemma own_get (item : Record) (field : string) (v : Value) :
  own item field = Some v -> get item field = v.
Proof. unfold get. now intros ->. Qed.

Lemma absent_get (item : Record) (field : string) :
  own item field = None ->
  get item field = if inherited field then Builtin field else Undefined.
Proof. unfold get. now intros ->. Qed.

(** The filter of [calculateRFT] is the success test of the specification. *)
Lemma isSuccess_spec `{rt : Runtime} (successField : string) (successValue : Value)
    (item : Record) :
  KPICalculator.isSuccess successField successValue item = true
  <-> CountsAsSuccess successValue (get item successField).
Proof.
  unfold KPICalculator.isSuccess. cbv zeta.
  set (value := get item successField).
  split.
  - destruct successValue as [| |expected|n|expected|name]; intros H;
      try (apply by_strict_equality; [discriminate | discriminate | exact H]).
    + apply Bool.eqb_prop in H. rewrite <- H. constructor.
    + apply String.eqb_eq in H. now constructor.
  - intros H. inversion H as [fieldValue Hb Hv | expected fieldValue He Hs Hv
                              | sv fieldValue Hnb Hns He Hs Hv]; subst.
    + apply Bool.eqb_reflx.
    + now apply String.eqb_eq.
    + destruct successValue as [| |b|n|s|name]; try exact He.
      * now elim (Hnb b).
      * now elim (Hns s).
Qed.

(** C2.  [calculateRFT] counts a record as a success by the type of
    [successValue]: a boolean against the boolean coercion of the field, a
    string against the field's string without regard to case, anything
    else by strict equality; the field is read as [item[successField]]
    reads it, so that a record without the field of its own counts for
    [true] exactly when the field names an inherited property.  The rate
    is the count over the number of records (0 for no records), the
    sample size is the number of records, and the interval is Wilson's at
    the configured level.  On scenario A the rate is 0.8 and the sample
    size 5. *)
Theorem calculateRFT_rate `{rt : Runtime} (this : KPICalculator.t) (data : list Record)
    (successField : string) (successValue : Value) :
  let result := KPICalculator.calculateRFT this data successField successValue in
  let total := List.length data in
  let successCount :=
    List.length (filter (KPICalculator.isSuccess successField successValue) data) in
  (forall item,
     KPICalculator.isSuccess successField successValue item = true
     <-> CountsAsSuccess successValue (get item successField))
  /\ (forall item, own item successField = None ->
        KPICalculator.isSuccess successField (Boolean true) item = inherited successField)
  /\ KPICalculator.rate result
     = (if (total =? 0)%nat then 0 else num_of_nat successCount / num_of_nat total)
  /\ KPICalculator.rft_sampleSize result = total
  /\ KPICalculator.rft_confidenceInterval result
     = KPICalculator.calculateWilsonInterval successCount total
         (num_or (KPICalculator.confidenceLevel this) 0.95)
  /\ KPICalculator.rate (KPICalculator.calculateRFT this scenarioA "Success" (Boolean true)) = 0.8
  /\ KPICalculator.rft_sampleSize (KPICalculator.calculateRFT this scenarioA "Success" (Boolean true)) = 5%nat.
Proof.
  cbv zeta.
  split; [intros item; apply isSuccess_spec|].
  split.
  { intros item Hown. unfold KPICalculator.isSuccess. rewrite (absent_get item _ Hown).
    now destruct (inherited successField). }
  unfold KPICalculator.calculateRFT.
  cbn [KPICalculator.rate KPICalculator.rft_sampleSize KPICalculator.rft_confidenceInterval].
  split; [destruct data; reflexivity|].
  split; [reflexivity|].
  split; [reflexivity|].
  split; vm_compute; reflexivity.
Qed.

(* ================================================================== *)
(** ** KPICalculator: durations and outliers *)

Lemma numericValues_numeric `{rt : Runtime} (data : list Record) (field : string) :
  numeric (KPICalculator.numericValues data field).
Proof.
  unfold numeric, KPICalculator.numericValues. apply Forall_forall. intros v Hv.
  apply filter_In in Hv as [_ Hv]. now apply negb_true_iff in Hv.
Qed.

Lemma numericValues_length `{rt : Runtime} (data : list Record) (field : string) :
  List.length (KPICalculator.numericValues data field)
  = List.length (filter (fun item => negb (isNaN (ToNumber (get item field)))) data).
Proof.
  unfold KPICalculator.numericValues. induction data as [|item r IH]; [reflexivity|].
  cbn [map filter]. destruct (negb (isNaN (ToNumber (get item field)))); cbn; now rewrite IH.
Qed.

Lemma detectOutliers_partition (values : list float) (threshold : float) :
  let '(cleanData, outliers) := KPICalculator.detectOutliers values threshold in
  (List.length cleanData + List.length outliers = List.length values)%nat
  /\ (forall v, In v cleanData -> In v values /\ ~ In v outliers)
  /\ (forall v, In v outliers -> In v values).
Proof.
  unfold KPICalculator.detectOutliers. destruct values as [|v0 vs]; [cbn; intuition|].
  cbv zeta. set (values := v0 :: vs).
  split; [|split].
  - apply filter_complement_length.
  - intros v. apply filter_complement.
  - intros v Hv. now apply filter_In in Hv as [Hin _].
Qed.

(** The quartile indices as the source computes them, on floats, for the
    lengths up to 1024. *)
Lemma quartile_indices :
  forallb (fun n =>
             match floorZ (num_of_nat n * 0.25), floorZ (num_of_nat n * 0.75) with
             | Some q1Index, Some q3Index =>
                 (q1Index =? Z.of_nat (n / 4))%Z && (q3Index =? Z.of_nat (n * 3 / 4))%Z
             | _, _ => false
             end)
          (seq 0 1025) = true.
Proof. vm_compute. reflexivity. Qed.

Lemma nth_repeat_inside {A} (a d : A) (n i : nat) :
  (i < n)%nat -> nth i (repeat a n) d = a.
Proof.
  revert i. induction n as [|n IH]; intros i Hi; [lia|].
  destruct i as [|i]; [reflexivity|]. cbn [repeat nth]. apply IH. lia.
Qed.

Lemma filter_repeat {A} (p : A -> bool) (a : A) (n : nat) :
  filter p (repeat a n) = if p a then repeat a n else [].
Proof.
  induction n as [|n IH]; [now destruct (p a)|].
  cbn [repeat filter]. rewrite IH. now destruct (p a).
Qed.

Lemma sort_ones (n : nat) : sort (fun a b => a - b) (repeat 1 n) = repeat 1 n.
Proof.
  induction n as [|n IH]; [reflexivity|].
  cbn [repeat sort]. rewrite IH. destruct n; reflexivity.
Qed.

(** [k * 0] is a zero or NaN, so that a value of 1 is within the fences
    around quartiles that are both 1, whatever the threshold. *)
Lemma within_collapsed_fences (k : float) :
  (1 <? 1 - k * (1 - 1)) || (1 + k * (1 - 1) <? 1) = false.
Proof.
  change (1 - 1) with 0.
  assert (H : k * 0 = 0 \/ k * 0 = (-0) \/ k * 0 = nan).
  { pose proof (FloatAxioms.mul_spec k 0) as E.
    change (Prim2SF 0) with (S754_zero false) in E.
    destruct (Prim2SF k) as [sg | sg | | sg m e]; cbn in E.
    - destruct sg; [right; left | left]; apply FloatAxioms.Prim2SF_inj; now rewrite E.
    - right; right. apply FloatAxioms.Prim2SF_inj. now rewrite E.
    - right; right. apply FloatAxioms.Prim2SF_inj. now rewrite E.
    - destruct sg; [right; left | left]; apply FloatAxioms.Prim2SF_inj; now rewrite E. }
  destruct H as [-> | [-> | ->]]; reflexivity.
Qed.

Lemma detectOutliers_ones (n : nat) (threshold : float) :
  KPICalculator.detectOutliers (repeat 1 (S n)) threshold = (repeat 1 (S n), []).
Proof.
  unfold KPICalculator.detectOutliers.
  change (repeat 1 (S n)) with (1 :: repeat 1 n) at 1. cbv zeta.
  change (1 :: repeat 1 n) with (repeat 1 (S n)).
  rewrite sort_ones, repeat_length.
  rewrite !(nth_repeat_inside 1 nan (S n))
    by (apply Nat.Div0.div_lt_upper_bound; lia).
  rewrite !filter_repeat. now rewrite within_collapsed_fences.
Qed.

Lemma numericValues_ones `{rt : Runtime} (field : string) (n : nat) :
  KPICalculator.numericValues (repeat [(field, Number 1)] n) field = repeat 1 n.
Proof.
  unfold KPICalculator.numericValues. induction n as [|n IH]; [reflexivity|].
  cbn [repeat map]. unfold get at 1. cbn [own]. rewrite String.eqb_refl.
  cbn [ToNumber filter]. change (negb (isNaN 1)) with true. cbv iota. now rewrite IH.
Qed.

(** C3, at a failing input.  Whatever the engine's limit on the number of
    arguments of a call, [calculateProcessDuration] throws on a list with
    one more record than that, each with the duration 1: every duration
    is numeric, none is an outlier, and [Math.min(...cleanedDurations)]
    spreads them all into one call. *)
Theorem calculateProcessDuration_long_input_throws `{rt : Runtime}
    (this : KPICalculator.t) (durationField : string) :
  let rows := S (N.to_nat argumentLimit) in
  let data := repeat [(durationField, Number 1)] rows in
  KPICalculator.numericValues data durationField = repeat 1 rows
  /\ KPICalculator.cleanDurations this (repeat 1 rows) = (repeat 1 rows, [])
  /\ Math_min_spread (repeat 1 rows) = None
  /\ KPICalculator.calculateProcessDuration this data durationField = None.
Proof.
  intros rows data.
  assert (Hv : KPICalculator.numericValues data durationField = repeat 1 rows)
    by apply numericValues_ones.
  assert (Hc : KPICalculator.cleanDurations this (repeat 1 rows) = (repeat 1 rows, [])).
  { unfold KPICalculator.cleanDurations.
    destruct (truthy_bool (KPICalculator.outlierDetection this)); [|reflexivity].
    apply detectOutliers_ones. }
  assert (Hs : Math_min_spread (repeat 1 rows) = None).
  { unfold Math_min_spread, spread_arguments. rewrite repeat_length.
    destruct (N.leb_spec (N.of_nat rows) argumentLimit) as [Hle | _]; [|reflexivity].
    unfold rows in Hle. lia. }
  repeat split; try assumption.
  unfold KPICalculator.calculateProcessDuration. rewrite Hv, repeat_length.
  cbn [Nat.eqb]. rewrite Hc. now rewrite Hs.
Qed.

Lemma numeric_orders (values : list float) :
  numeric values -> orders_by (fun a b => a - b) fplace values.
Proof.
  intros Hn x y Hx Hy. unfold numeric in Hn. rewrite Forall_forall in Hn.
  apply sub_positive; auto.
Qed.

(** An element that is NaN in neither bound's comparison. *)
Lemma not_below_lower (q e : float) :
  isNaN q = false ->
  (isNaN e = true \/ (isNaN e = false /\ (0 <= fplace e)%Z)) ->
  (q <? q - e) = false.
Proof.
  intros Nq [Ne | [Ne He]].
  - apply ltb_nan. right. apply nan_sub. now right.
  - destruct (sub_cases q e Nq Ne) as [[Hn _] | (Hn & _ & Hle & _)].
    + apply ltb_nan. now right.
    + rewrite ltb_place by assumption. apply Z.ltb_ge. auto.
Qed.

Lemma not_above_upper (q1 q3 e : float) :
  isNaN q1 = false -> isNaN q3 = false -> (fplace q1 <= fplace q3)%Z ->
  (isNaN e = true \/ (isNaN e = false /\ (0 <= fplace e)%Z)) ->
  (q3 + e <? q1) = false.
Proof.
  intros N1 N3 H13 [Ne | [Ne He]].
  - apply ltb_nan. left. apply nan_add. now right.
  - destruct (add_cases q3 e N3 Ne) as [Hn | (Hn & Hge & _)].
    + apply ltb_nan. now left.
    + rewrite ltb_place by assumption. apply Z.ltb_ge. specialize (Hge He). lia.
Qed.

Lemma spread_nonneg (k q1 q3 : float) :
  (0 <=? k) = true -> isNaN q1 = false -> isNaN q3 = false ->
  (fplace q1 <= fplace q3)%Z ->
  let e := k * (q3 - q1) in
  isNaN e = true \/ (isNaN e = false /\ (0 <= fplace e)%Z).
Proof.
  intros Hk N1 N3 H13 e. subst e.
  destruct (leb_true_not_nan _ _ Hk) as [_ Nk].
  assert (Pk : (0 <= fplace k)%Z).
  { rewrite leb_place in Hk by (auto; reflexivity). rewrite fplace_zero in Hk.
    now apply Z.leb_le. }
  destruct (sub_cases q3 q1 N3 N1) as [[Hn _] | (Hn & Hc & _)].
  - left. apply nan_mul. now right.
  - assert (Pi : (0 <= fplace (q3 - q1))%Z).
    { destruct (Z.compare_spec (fplace q3) (fplace q1)) as [E | E | E];
        destruct (Z.compare_spec (fplace (q3 - q1)) 0); try discriminate; lia. }
    destruct (isNaN (k * (q3 - q1))) eqn:Ne; [now left | right].
    split; [reflexivity|].
    destruct (mul_cases k (q3 - q1) Nk Hn Pk Pi) as [H | H]; [congruence | exact H].
Qed.

(** C10.  For a non-empty list without NaN and a threshold [k >= 0], the
    value at the first-quartile index of the sorted list is neither below
    the lower bound [q1 - k * iqr] nor above the upper bound
    [q3 + k * iqr] (it lies between them whenever they are numbers), so it
    is in the clean part of [detectOutliers]; hence the values
    [calculateProcessDuration] takes its statistics from are never empty
    when one duration is numeric. *)
Theorem detectOutliers_cleanData_nonempty `{rt : Runtime} (values : list float) (k : float) :
  values <> [] ->
  numeric values ->
  (0 <=? k) = true ->
  let sortedValues := sort (fun a b => a - b) values in
  let q1 := nth (List.length sortedValues / 4) sortedValues nan in
  let q3 := nth (List.length sortedValues * 3 / 4) sortedValues nan in
  (q1 <? q1 - k * (q3 - q1)) = false
  /\ (q3 + k * (q3 - q1) <? q1) = false
  /\ (isNaN (q1 - k * (q3 - q1)) = false -> (q1 - k * (q3 - q1) <=? q1) = true)
  /\ (isNaN (q3 + k * (q3 - q1)) = false -> (q1 <=? q3 + k * (q3 - q1)) = true)
  /\ In q1 (fst (KPICalculator.detectOutliers values k))
  /\ (forall (this : KPICalculator.t) (data : list Record) (field : string),
        KPICalculator.numericValues data field = values ->
        num_or (KPICalculator.outlierThreshold this) 1.5 = k ->
        fst (KPICalculator.cleanDurations this (KPICalculator.numericValues data field)) <> []).
Proof.
  intros Hne Hnum Hk sortedValues q1 q3.
  pose proof (sort_perm (fun a b => a - b) values) as Hperm. fold sortedValues in Hperm.
  pose proof (sort_sorted _ _ values (numeric_orders values Hnum)) as Hsorted.
  fold sortedValues in Hsorted.
  assert (Hlen : (0 < List.length sortedValues)%nat).
  { rewrite <- (Permutation_length Hperm). destruct values; [congruence | cbn; lia]. }
  assert (Hi1 : (List.length sortedValues / 4 < List.length sortedValues)%nat).
  { apply Nat.Div0.div_lt_upper_bound. lia. }
  assert (Hi3 : (List.length sortedValues * 3 / 4 < List.length sortedValues)%nat).
  { apply Nat.Div0.div_lt_upper_bound. lia. }
  assert (Hi13 : (List.length sortedValues / 4 <= List.length sortedValues * 3 / 4)%nat).
  { apply Nat.Div0.div_le_mono. lia. }
  assert (Hin1 : In q1 values).
  { apply (Permutation_in _ (Permutation_sym Hperm)). now apply nth_In. }
  assert (Hin3 : In q3 values).
  { apply (Permutation_in _ (Permutation_sym Hperm)). now apply nth_In. }
  unfold numeric in Hnum. rewrite Forall_forall in Hnum.
  pose proof (Hnum q1 Hin1) as N1. pose proof (Hnum q3 Hin3) as N3.
  pose proof (sorted_nth fplace sortedValues nan Hsorted _ _ Hi13 Hi3) as H13.
  fold q1 q3 in H13. unfold key_le in H13.
  pose proof (spread_nonneg k q1 q3 Hk N1 N3 H13) as He. cbv zeta in He.
  assert (Hlo : (q1 <? q1 - k * (q3 - q1)) = false) by now apply not_below_lower.
  assert (Hhi : (q3 + k * (q3 - q1) <? q1) = false) by now apply not_above_upper.
  assert (Hclean : In q1 (fst (KPICalculator.detectOutliers values k))).
  { unfold KPICalculator.detectOutliers. destruct values as [|v vs] eqn:Ev; [congruence|].
    cbv zeta. cbn [fst].
    apply filter_In. split; [exact Hin1|].
    change (negb ((q1 <? q1 - k * (q3 - q1)) || (q3 + k * (q3 - q1) <? q1)) = true).
    now rewrite Hlo, Hhi. }
  split; [exact Hlo|]. split; [exact Hhi|].
  split.
  { intros Nl. rewrite ltb_place in Hlo by assumption.
    rewrite leb_place by assumption. apply Z.ltb_ge in Hlo. now apply Z.leb_le. }
  split.
  { intros Nu. rewrite ltb_place in Hhi by assumption.
    rewrite leb_place by assumption. apply Z.ltb_ge in Hhi. now apply Z.leb_le. }
  split; [exact Hclean|].
  intros this data field Hv Hthr. rewrite Hv. unfold KPICalculator.cleanDurations.
  destruct (truthy_bool (KPICalculator.outlierDetection this)).
  - rewrite Hthr. intros E. rewrite E in Hclean. destruct Hclean.
  - exact Hne.
Qed.

Lemma detectOutliers_cleanData_nonempty_witness :
  In 4.2 (fst (KPICalculator.detectOutliers [4.5; 4.2; 5.1; 3.8; 4.3] 1.5)).
Proof.
  refine (proj1 (proj2 (proj2 (proj2 (proj2
    (@detectOutliers_cleanData_nonempty exampleRuntime
       [4.5; 4.2; 5.1; 3.8; 4.3] 1.5 _ _ _)))))).
  - discriminate.
  - repeat constructor.
  - reflexivity.
Defined.

(* ================================================================== *)
(** ** Linear regression and trends *)

(** C4, at a failing input.  For [xs = [1, 1, 1]] the sum of the squared
    deviations of [xs] is 0, and both copies of [calculateLinearRegression]
    divide by it: slope, intercept and rSquared are NaN, not 0. *)
Theorem linear_regression_degenerate `{rt : Runtime} :
  let xs := [1; 1; 1] in
  let ys := [1; 2; 3] in
  fold_left (fun sum x => sum + (x - KPICalculator.calculateMean xs) * (x - KPICalculator.calculateMean xs)) xs 0 = 0
  /\ KPICalculator.calculateLinearRegression xs ys
     = {| KPICalculator.reg_slope := nan; KPICalculator.reg_intercept := nan; KPICalculator.reg_rSquared := nan |}
  /\ ProcessAnalytics.calculateLinearRegression xs ys
     = {| ProcessAnalytics.reg_slope := nan; ProcessAnalytics.reg_intercept := nan; ProcessAnalytics.reg_rSquared := nan |}.
Proof. repeat split; vm_compute; reflexivity. Qed.

Lemma combine_map_self {A B} (f : A -> B) (l : list A) :
  combine l (map f l) = map (fun x => (x, f x)) l.
Proof. induction l as [|x r IH]; [reflexivity|]. cbn [map combine]. now rewrite IH. Qed.

(** The comparator of the time sorts orders records with valid times by
    their times. *)
Lemma byTime_orders `{rt : Runtime} (timeField : string) (data : list Record) :
  validTimes timeField data ->
  orders_by (fun a b => dateTime (get a timeField) - dateTime (get b timeField))
            (fun item => fplace (dateTime (get item timeField))) data.
Proof.
  intros Hv x y Hx Hy. unfold validTimes in Hv. rewrite Forall_forall in Hv.
  apply sub_positive; auto.
Qed.

Lemma precedes_members {A} (x y : A) (l : list A) : precedes x y l -> In x l /\ In y l.
Proof.
  intros (l1 & l2 & l3 & ->). split.
  - apply in_or_app. right. now left.
  - apply in_or_app. right. right. apply in_or_app. right. now left.
Qed.

(** With valid times the time sort gives the one chronological order. *)
Lemma sortByTime_chronological `{rt : Runtime} (data : list Record) (timeField : string) :
  validTimes timeField data ->
  chronological timeField data (KPICalculator.sortByTime data timeField).
Proof.
  intros Hv. pose proof (byTime_orders timeField data Hv) as Ho.
  unfold validTimes in Hv. rewrite Forall_forall in Hv.
  unfold chronological, KPICalculator.sortByTime.
  set (cmp := fun a b : Record => dateTime (get a timeField) - dateTime (get b timeField)).
  split; [apply sort_perm|]. split.
  - apply (StronglySorted_weaken
             (key_le (fun item => fplace (dateTime (get item timeField))))).
    + intros a b Ha Hb Hab.
      apply (Permutation_in _ (Permutation_sym (sort_perm cmp data))) in Ha, Hb.
      rewrite leb_place by auto. apply Z.leb_le. exact Hab.
    + now apply sort_sorted.
  - intros a b Hp Hle. apply sort_stable; [exact Hp|].
    destruct (precedes_members a b data Hp) as [Ha Hb].
    unfold cmp. rewrite sub_positive by auto.
    rewrite leb_place in Hle by auto. apply Z.leb_le in Hle. apply Z.ltb_ge. exact Hle.
Qed.

(** The trend is read off the sign of the slope. *)
Lemma trend_of_slope (s : float) :
  let trend :=
    if 0 <? s then KPICalculator.increasing
    else if s <? 0 then KPICalculator.decreasing else KPICalculator.stable in
  (trend = KPICalculator.increasing <-> (0 <? s) = true)
  /\ (trend = KPICalculator.decreasing <-> (s <? 0) = true)
  /\ (trend = KPICalculator.stable <-> (0 <? s) = false /\ (s <? 0) = false)
  /\ ((s =? 0) = true -> trend = KPICalculator.stable).
Proof.
  cbv zeta.
  assert (Hx : (0 <? s) = true -> (s <? 0) = false).
  { rewrite !FloatAxioms.ltb_spec.
    replace (Prim2SF 0) with (S754_zero false) by reflexivity.
    destruct (Prim2SF s) as [sg | sg | | sg m e]; cbn; try discriminate; auto;
      destruct sg; auto; discriminate. }
  split; [|split; [|split]].
  - destruct (0 <? s); [tauto|]. destruct (s <? 0); split; discriminate.
  - destruct (0 <? s) eqn:E.
    + rewrite (Hx eq_refl). split; discriminate.
    + destruct (s <? 0); split; try discriminate; reflexivity.
  - destruct (0 <? s); [split; [discriminate | intros []; discriminate]|].
    destruct (s <? 0); [split; [discriminate | intros []; discriminate]|]. tauto.
  - intros H. destruct (eqb_zero_not_lt s H) as [-> ->]. reflexivity.
Qed.

(** The trends of the dashboard are those of [identifyTrends] with five
    periods on the success field. *)
Lemma dashboard_trends `{rt : Runtime} (data : list Record)
    (config : AnalyticsService.Config) (this : AnalyticsService.t)
    (result : AnalyticsService.AnalyticsDashboardData) :
  fst (AnalyticsService.generateDashboardAnalytics data config this) = Some result ->
  AnalyticsService.trends result
  = KPICalculator.identifyTrends data (AnalyticsService.timeField config)
      (AnalyticsService.successField config) 5.
Proof.
  unfold AnalyticsService.generateDashboardAnalytics, AnalyticsService.bind,
    AnalyticsService.read, AnalyticsService.lift, AnalyticsService.ret.
  destruct (AnalyticsService.groupByProcessType data (AnalyticsService.processTypeField config));
    [|discriminate].
  destruct (forEach _ _ _); [|discriminate].
  destruct (ProcessAnalytics.identifyBestPerformers _ data _ _ true); [|discriminate].
  cbn [fst]. now intros [= <-].
Qed.

(** C5.  For every record list, [identifyTrends] takes the numeric values
    of the records in sorted order (the order of their times, when all
    times are valid), cuts them into the periods, fits the regression
    line through the period means, and reports 'increasing' for a
    positive slope, 'decreasing' for a negative one and 'stable'
    otherwise, in particular for a slope of zero; the p-value is that of
    the t-statistic of the slope on the residuals with [periods - 2]
    degrees of freedom, and [significant] is [pValue < 0.05].  The trends
    of the dashboard are these, with five periods, whatever options the
    service was constructed with. *)
Theorem identifyTrends_classification `{rt : Runtime}
    (data : list Record) (timeField valueField : string) (periods : nat) :
  (exists sorted,
     Permutation data sorted
     /\ (validTimes timeField data -> chronological timeField data sorted)
     /\ let values :=
          filter (fun value => negb (isNaN value))
                 (map (fun item => ToNumber (get item valueField)) sorted) in
        match KPICalculator.identifyTrends data timeField valueField periods with
        | KPICalculator.TrendNone _ _ => values = []
        | KPICalculator.TrendFound a =>
            let size := Nat.max 1 (List.length values / periods) in
            let xValues := map (fun i => num_of_nat (i + 1)) (seq 0 periods) in
            let yValues := map KPICalculator.ps_average (KPICalculator.periods a) in
            let regression := KPICalculator.calculateLinearRegression xValues yValues in
            let residuals :=
              map (fun '(y, x) => y - (KPICalculator.slope a * x + KPICalculator.intercept a))
                  (combine yValues xValues) in
            let residualSumSquares := fold_left (fun sum r => sum + r * r) residuals 0 in
            let sumSquaredX :=
              fold_left (fun sum x => sum + Math_pow (x - KPICalculator.calculateMean xValues) 2)
                        xValues 0 in
            let degreesOfFreedom := num_of_nat periods - 2 in
            let tStatistic :=
              KPICalculator.slope a
              / (Math_sqrt (residualSumSquares / degreesOfFreedom) / Math_sqrt sumSquaredX) in
            values <> []
            /\ KPICalculator.periods a
               = map (fun i =>
                        let periodData :=
                          slice (i * size)
                                (if (i =? periods - 1)%nat then List.length values
                                 else ((i + 1) * size)%nat)
                                values in
                        {| KPICalculator.period := i + 1;
                           KPICalculator.ps_average := KPICalculator.calculateMean periodData;
                           KPICalculator.ps_stdDev :=
                             KPICalculator.calculateStandardDeviation periodData;
                           KPICalculator.ps_sampleSize := List.length periodData |})
                     (seq 0 periods)
            /\ KPICalculator.slope a = KPICalculator.reg_slope regression
            /\ KPICalculator.intercept a = KPICalculator.reg_intercept regression
            /\ KPICalculator.rSquared a = KPICalculator.reg_rSquared regression
            /\ (KPICalculator.trend a = KPICalculator.increasing
                <-> (0 <? KPICalculator.slope a) = true)
            /\ (KPICalculator.trend a = KPICalculator.decreasing
                <-> (KPICalculator.slope a <? 0) = true)
            /\ (KPICalculator.trend a = KPICalculator.stable
                <-> (0 <? KPICalculator.slope a) = false
                    /\ (KPICalculator.slope a <? 0) = false)
            /\ ((KPICalculator.slope a =? 0) = true
                -> KPICalculator.trend a = KPICalculator.stable)
            /\ KPICalculator.pValue a
               = KPICalculator.tDistPValue (Math_abs tStatistic) degreesOfFreedom
            /\ KPICalculator.significant a = (KPICalculator.pValue a <? 0.05)
        end)
  /\ (forall (config : AnalyticsService.Config) (this : AnalyticsService.t)
             (result : AnalyticsService.AnalyticsDashboardData),
        fst (AnalyticsService.generateDashboardAnalytics data config this) = Some result ->
        AnalyticsService.trends result
        = KPICalculator.identifyTrends data (AnalyticsService.timeField config)
            (AnalyticsService.successField config) 5).
Proof.
  split; [|intros config this result; apply dashboard_trends].
  exists (KPICalculator.sortByTime data timeField).
  split; [apply sort_perm|].
  split; [now apply sortByTime_chronological|].
  cbv zeta. unfold KPICalculator.identifyTrends.
  change (filter (fun value => negb (isNaN value))
            (map (fun item => ToNumber (get item valueField))
                 (KPICalculator.sortByTime data timeField)))
    with (KPICalculator.numericValues (KPICalculator.sortByTime data timeField) valueField).
  set (values := KPICalculator.numericValues (KPICalculator.sortByTime data timeField)
                   valueField).
  destruct (Nat.eqb_spec (List.length values) 0) as [E | E].
  { now apply length_zero_iff_nil. }
  cbv zeta.
  cbn [KPICalculator.slope KPICalculator.intercept KPICalculator.rSquared
       KPICalculator.trend KPICalculator.significant KPICalculator.pValue
       KPICalculator.periods].
  set (size := Nat.max 1 (List.length values / periods)).
  rewrite combine_map_self, map_map.
  set (stats := map _ (seq 0 periods)).
  assert (Hlen : List.length stats = periods)
    by (unfold stats; now rewrite length_map, length_seq).
  rewrite Hlen.
  set (regression := KPICalculator.calculateLinearRegression _ _).
  destruct (trend_of_slope (KPICalculator.reg_slope regression)) as (T1 & T2 & T3 & T4).
  split; [intros ->; now apply E|].
  split; [reflexivity|].
  repeat (split; [first [reflexivity | assumption]|]).
  reflexivity.
Qed.

Lemma identifyTrends_classification_witness :
  let data :=
    map (fun '(t, v) => [("Time"%string, Number t); ("Yield"%string, Number v)])
        [(3, 30); (1, 10); (2, 20); (5, 50); (4, 40); (6, 60)] in
  @validTimes epochRuntime "Time" data
  /\ exists sorted a,
       @chronological epochRuntime "Time" data sorted
       /\ @KPICalculator.identifyTrends epochRuntime data "Time" "Yield" 3
          = KPICalculator.TrendFound a
       /\ map KPICalculator.ps_average (KPICalculator.periods a) = [15; 35; 55]
       /\ KPICalculator.trend a = KPICalculator.increasing.
Proof.
  intros data.
  assert (Hv : @validTimes epochRuntime "Time" data) by (repeat constructor).
  split; [exact Hv|].
  destruct (proj1 (@identifyTrends_classification epochRuntime data "Time" "Yield" 3))
    as (sorted & _ & Hc & Hm).
  specialize (Hc Hv).
  cbv zeta in Hm.
  destruct (@KPICalculator.identifyTrends epochRuntime data "Time" "Yield" 3)
    as [? ?|a] eqn:E; [vm_compute in E; discriminate|].
  exists sorted, a. split; [exact Hc|]. split; [reflexivity|].
  destruct Hm as (_ & _ & _ & _ & _ & Hinc & _).
  pose proof E as E'. vm_compute in E'. injection E' as E'.
  split; [now rewrite <- E'|].
  apply Hinc. now rewrite <- E'.
Defined.
(* ================================================================== *)
(** ** ProcessAnalytics *)

(** C9.  The copies of [tDistPValue] and of [normalCDF] in the two classes
    are the same functions. *)
Theorem statistical_helpers_agree `{rt : Runtime} :
  (forall t df, KPICalculator.tDistPValue t df = ProcessAnalytics.tDistPValue t df)
  /\ (forall x, KPICalculator.normalCDF x = ProcessAnalytics.normalCDF x).
Proof. split; reflexivity. Qed.

(** C6, at a failing input.  On ten values of 10 followed by ten values of
    20 the scan finds the change point 10, the t-statistic is infinite,
    [tDistPValue] gives 0.986 and [detectStepChangePattern] returns
    [null]. *)
Theorem step_change_scenario_rejected `{rt : Runtime} :
  let sortedData := map (fun v => [("Pressure"%string, Number v)]) scenarioD in
  ProcessAnalytics.numericValues sortedData "Pressure" = scenarioD
  /\ fst (ProcessAnalytics.scanChangePoints scenarioD 3) = Some 10%nat
  /\ ProcessAnalytics.tDistPValue infinity 18 = 0.98611111111111116
  /\ ProcessAnalytics.detectStepChangePattern defaultAnalytics sortedData "Pressure" = None.
Proof. repeat split; vm_compute; reflexivity. Qed.

Lemma flat_map_detected_filter `{rt : Runtime} (this : ProcessAnalytics.t) (field : string)
    (entries : list (string * list Record)) :
  flat_map (fun entry => ProcessAnalytics.detected (ProcessAnalytics.groupPerformance this field entry)) entries
  = map (groupStatistics this field) (filter (hasEnoughValues field) entries).
Proof.
  induction entries as [|[name items] r IH]; [reflexivity|].
  cbn [flat_map filter]. rewrite IH.
  unfold ProcessAnalytics.groupPerformance, hasEnoughValues at 2. cbn [snd].
  destruct (Nat.ltb_spec (List.length (ProcessAnalytics.numericValues items field)) 3) as [Hlt | Hge].
  - destruct (Nat.leb_spec 3 (List.length (ProcessAnalytics.numericValues items field))); [lia|].
    reflexivity.
  - destruct (Nat.leb_spec 3 (List.length (ProcessAnalytics.numericValues items field))); [|lia].
    reflexivity.
Qed.

Lemma comparePerformance_orders (higherIsBetter : bool) (l : list ProcessAnalytics.Performance) :
  Forall (fun p => isNaN (ProcessAnalytics.average p) = false) l ->
  orders_by (ProcessAnalytics.comparePerformance higherIsBetter) (rankingKey higherIsBetter) l.
Proof.
  intros Hn x y Hx Hy. rewrite Forall_forall in Hn.
  unfold ProcessAnalytics.comparePerformance, rankingKey. destruct higherIsBetter.
  - rewrite sub_positive by auto.
    destruct (Z.ltb_spec (fplace (ProcessAnalytics.average x)) (fplace (ProcessAnalytics.average y)));
      symmetry; [apply Z.ltb_lt | apply Z.ltb_ge]; lia.
  - now rewrite sub_positive by auto.
Qed.

Lemma equal_means_not_greater (higherIsBetter : bool) (p q : ProcessAnalytics.Performance) :
  (ProcessAnalytics.average p =? ProcessAnalytics.average q) = true ->
  (0 <? ProcessAnalytics.comparePerformance higherIsBetter p q) = false.
Proof.
  intros He.
  assert (Np : isNaN (ProcessAnalytics.average p) = false /\ isNaN (ProcessAnalytics.average q) = false).
  { revert He. rewrite !isNaN_spec, FloatAxioms.eqb_spec. unfold SFeqb.
    destruct (Prim2SF (ProcessAnalytics.average p)), (Prim2SF (ProcessAnalytics.average q)); cbn;
      try discriminate; auto. }
  destruct Np as [Np Nq].
  rewrite eqb_place in He by assumption. apply Z.eqb_eq in He.
  unfold ProcessAnalytics.comparePerformance. destruct higherIsBetter;
    rewrite sub_positive by assumption; rewrite He; apply Z.ltb_irrefl.
Qed.

(** C7, amended.  When [identifyBestPerformers] returns, it has kept
    exactly the groups with three numeric values or more, each with the
    statistics of its own values, and ranked them 1, 2, ...;
    [percentileBetter] is
    [significantlyBetterCount / max(1, groups - 1) * 100].  When no mean
    is NaN the groups are sorted by mean, descending when
    [higherIsBetter] and ascending otherwise, and groups of equal mean
    stay in the order of [Object.entries]. *)
Theorem identifyBestPerformers_ranking `{rt : Runtime} (this : ProcessAnalytics.t)
    (data : list Record) (processTypeField performanceField : string)
    (higherIsBetter : bool) (result : list ProcessAnalytics.Performer) :
  ProcessAnalytics.identifyBestPerformers this data processTypeField performanceField
    higherIsBetter = Some result ->
  exists processByType,
    ProcessAnalytics.groupByProcessType data processTypeField = Some processByType
    /\ let entries := Object_entries processByType in
       let groups := map (groupStatistics this performanceField)
                         (filter (hasEnoughValues performanceField) entries) in
       let ranked := map ProcessAnalytics.performance result in
       Permutation groups ranked
       /\ map ProcessAnalytics.rank result = seq 1 (List.length result)
       /\ Forall (fun r =>
                    ProcessAnalytics.percentileBetter r
                    = num_of_nat (ProcessAnalytics.significantlyBetterCount r)
                      / Math_max 1 (num_of_nat (List.length result) - 1) * 100)
                 result
       /\ (Forall (fun p => isNaN (ProcessAnalytics.average p) = false) groups ->
           StronglySorted (notWorse higherIsBetter) ranked
           /\ (forall p q, precedes p q groups ->
                 (ProcessAnalytics.average p =? ProcessAnalytics.average q) = true ->
                 precedes p q ranked)).
Proof.
  unfold ProcessAnalytics.identifyBestPerformers.
  destruct (ProcessAnalytics.groupByProcessType data processTypeField) as [processByType|];
    [|discriminate].
  unfold ProcessAnalytics.processPerformance. rewrite flat_map_detected_filter.
  set (entries := Object_entries processByType).
  set (groups := map (groupStatistics this performanceField)
                     (filter (hasEnoughValues performanceField) entries)).
  set (sorted := sort (ProcessAnalytics.comparePerformance higherIsBetter) groups).
  intros [= <-].
  exists processByType. split; [reflexivity|].
  fold entries. fold groups.
  set (result := map _ (combine _ sorted)).
  set (ranked := map ProcessAnalytics.performance result).
  assert (Hranked : ranked = sorted).
  { unfold ranked, result. rewrite map_map.
    rewrite <- (combine_seq_snd sorted 0) at 3.
    apply map_ext. now intros [i p]. }
  assert (Hlen : List.length result = List.length sorted).
  { rewrite <- Hranked. unfold ranked. now rewrite length_map. }
  split; [rewrite Hranked; apply sort_perm|].
  split.
  { rewrite Hlen. unfold result. rewrite map_map.
    rewrite <- (map_ext (fun ip => S (fst ip))).
    - rewrite <- (map_map fst S), combine_seq_fst. apply seq_shift.
    - intros [i p]. cbn. lia. }
  split.
  { rewrite Hlen. unfold result. apply Forall_forall. intros r Hr.
    apply in_map_iff in Hr as ([i p] & <- & _). reflexivity. }
  intros Hn. split.
  - rewrite Hranked.
    apply (StronglySorted_weaken (key_le (rankingKey higherIsBetter))).
    + intros a b Ha Hb Hab. rewrite Forall_forall in Hn.
      assert (Na : isNaN (ProcessAnalytics.average a) = false).
      { apply Hn. apply (Permutation_in _ (Permutation_sym (sort_perm (ProcessAnalytics.comparePerformance higherIsBetter) groups))), Ha. }
      assert (Nb : isNaN (ProcessAnalytics.average b) = false).
      { apply Hn. apply (Permutation_in _ (Permutation_sym (sort_perm (ProcessAnalytics.comparePerformance higherIsBetter) groups))), Hb. }
      unfold key_le, rankingKey in Hab. unfold notWorse.
      destruct higherIsBetter; rewrite ltb_place by assumption; apply Z.ltb_ge; lia.
    + apply sort_sorted. now apply comparePerformance_orders.
  - intros p q Hpq He. rewrite Hranked. apply sort_stable; [exact Hpq|].
    now apply equal_means_not_greater.
Qed.

Lemma identifyBestPerformers_ranking_witness :
  exists result,
    @ProcessAnalytics.identifyBestPerformers exampleRuntime defaultAnalytics twoThenOne
      "ProcessType" "Success" true = Some result
    /\ map (fun r => ProcessAnalytics.processType (ProcessAnalytics.performance r)) result
       = ["1"; "2"]%string
    /\ StronglySorted (notWorse true) (map ProcessAnalytics.performance result).
Proof.
  destruct (@ProcessAnalytics.identifyBestPerformers exampleRuntime defaultAnalytics twoThenOne
              "ProcessType" "Success" true) as [result|] eqn:E;
    [|vm_compute in E; discriminate].
  exists result. split; [reflexivity|].
  split; [pose proof E as E'; vm_compute in E'; now injection E' as <-|].
  destruct (@identifyBestPerformers_ranking exampleRuntime defaultAnalytics twoThenOne
              "ProcessType" "Success" true result E)
    as (processByType & Hg & _ & _ & _ & Hsorted).
  apply Hsorted.
  pose proof Hg as Hg'. vm_compute in Hg'. injection Hg' as <-.
  repeat constructor.
Defined.

(** C7 as stated fails.  Process type "2" occurs first in the data and
    "1" second, both with mean 1, yet "1" is ranked first:
    [Object.entries] lists the integer-like keys in ascending order. *)
Lemma ties_follow_entries_order_not_insertion :
  ~ @tiesKeepInsertionOrder exampleRuntime defaultAnalytics twoThenOne
      "ProcessType" "Success" true.
Proof.
  intros H.
  set (items2 := [batch "2"; batch "2"; batch "2"]).
  set (items1 := [batch "1"; batch "1"; batch "1"]).
  set (p2 := @groupStatistics exampleRuntime defaultAnalytics "Success" ("2"%string, items2)).
  set (p1 := @groupStatistics exampleRuntime defaultAnalytics "Success" ("1"%string, items1)).
  assert (Hgrp : @ProcessAnalytics.groupByProcessType exampleRuntime twoThenOne "ProcessType"
                 = Some [("2"%string, items2); ("1"%string, items1)])
    by (vm_compute; reflexivity).
  assert (Hres : option_map (map ProcessAnalytics.performance)
                   (@ProcessAnalytics.identifyBestPerformers exampleRuntime defaultAnalytics
                      twoThenOne "ProcessType" "Success" true) = Some [p1; p2])
    by (vm_compute; reflexivity).
  destruct (@ProcessAnalytics.identifyBestPerformers exampleRuntime defaultAnalytics
              twoThenOne "ProcessType" "Success" true) as [result|] eqn:Hr; [|discriminate].
  injection Hres as Hres.
  assert (Hins : @groupsInInsertionOrder exampleRuntime defaultAnalytics "Success"
                   [("2"%string, items2); ("1"%string, items1)] = [p2; p1])
    by (vm_compute; reflexivity).
  assert (Hne : ProcessAnalytics.processType p2 <> ProcessAnalytics.processType p1)
    by (vm_compute; discriminate).
  assert (Heq : (ProcessAnalytics.average p2 =? ProcessAnalytics.average p1) = true)
    by (vm_compute; reflexivity).
  specialize (H _ result p2 p1 Hgrp Hr). rewrite Hins, Hres in H. clearbody p1 p2.
  destruct H as (l1 & l2 & l3 & E); [now exists [], [], [] | exact Heq |].
  destruct l1 as [|a [|b l1]]; cbn in E.
  - injection E as E1 E2. apply Hne. now rewrite E1.
  - injection E as E1 E2. destruct l2; discriminate.
  - injection E as E1 E2. destruct l1; discriminate.
Qed.

(* ================================================================== *)
(** ** Objects as dictionaries: lookups, keys and entries *)

Section DictFacts.
Context {V : Type}.

Lemma dict_get_set (d : Dict V) (k : string) (v : V) (k' : string) :
  dict_get (dict_set d k v) k' = if String.eqb k k' then Some v else dict_get d k'.
Proof.
  induction d as [|[k0 v0] r IH]; cbn [dict_set dict_get].
  - reflexivity.
  - destruct (String.eqb_spec k0 k) as [-> | Hne]; cbn [dict_get].
    + destruct (String.eqb k k'); reflexivity.
    + destruct (String.eqb_spec k0 k') as [-> | Hne'].
      * destruct (String.eqb_spec k k'); [congruence | reflexivity].
      * exact IH.
Qed.

Lemma dict_get_none (d : Dict V) (k : string) :
  dict_get d k = None <-> ~ In k (map fst d).
Proof.
  induction d as [|[k0 v0] r IH]; cbn [dict_get map fst In].
  - tauto.
  - destruct (String.eqb_spec k0 k) as [-> | Hne].
    + split; [discriminate | tauto].
    + rewrite IH. tauto.
Qed.

Lemma dict_keys_set (d : Dict V) (k : string) (v : V) :
  map fst (dict_set d k v)
  = match dict_get d k with Some _ => map fst d | None => map fst d ++ [k] end.
Proof.
  induction d as [|[k0 v0] r IH]; cbn [dict_set dict_get map fst app].
  - reflexivity.
  - destruct (String.eqb_spec k0 k) as [-> | Hne]; [reflexivity|].
    cbn [map fst]. rewrite IH. now destruct (dict_get r k).
Qed.

Lemma dict_get_in (d : Dict V) (k : string) (v : V) :
  dict_get d k = Some v -> In (k, v) d.
Proof.
  induction d as [|[k0 v0] r IH]; cbn [dict_get In]; [discriminate|].
  destruct (String.eqb_spec k0 k) as [-> | Hne].
  - intros [= ->]. now left.
  - intros H. right. now apply IH.
Qed.

Lemma dict_in_get (d : Dict V) (k : string) (v : V) :
  NoDup (map fst d) -> In (k, v) d -> dict_get d k = Some v.
Proof.
  induction d as [|[k0 v0] r IH]; cbn [dict_get In map fst]; [tauto|].
  intros Hnd [[= -> ->] | Hin].
  - now rewrite String.eqb_refl.
  - inversion Hnd as [|? ? Hk0 Hr]; subst.
    destruct (String.eqb_spec k0 k) as [-> | Hne]; [|now apply IH].
    exfalso. apply Hk0. change k with (fst (k, v)). now apply in_map.
Qed.

Lemma dict_set_nodup (d : Dict V) (k : string) (v : V) :
  NoDup (map fst d) -> NoDup (map fst (dict_set d k v)).
Proof.
  intros Hnd. rewrite dict_keys_set. destruct (dict_get d k) eqn:E; [exact Hnd|].
  apply dict_get_none in E.
  apply (Permutation_NoDup (l := k :: map fst d)).
  - apply Permutation_cons_append.
  - now constructor.
Qed.

Lemma insert_index_perm (n : N) (e : string * V) (l : list (N * (string * V))) :
  Permutation ((n, e) :: l) (insert_index n e l).
Proof.
  induction l as [|[m e'] r IH]; cbn [insert_index]; [reflexivity|].
  destruct (n <? m)%N; [reflexivity|].
  etransitivity; [apply perm_swap|]. now apply perm_skip.
Qed.

Lemma filter_split_perm {A} (p : A -> bool) (l : list A) :
  Permutation (filter p l ++ filter (fun x => negb (p x)) l) l.
Proof.
  induction l as [|x r IH]; [reflexivity|]. cbn [filter].
  destruct (p x); cbn [negb app].
  - now apply perm_skip.
  - etransitivity; [symmetry; apply Permutation_middle|]. now apply perm_skip.
Qed.

Lemma index_entries_perm (d : Dict V) :
  Permutation (map snd (index_entries d))
    (filter (fun e => match array_index (fst e) with Some _ => true | None => false end) d).
Proof.
  induction d as [|[k v] r IH]; [reflexivity|].
  cbn [index_entries filter fst]. destruct (array_index k) as [n|]; [|exact IH].
  etransitivity.
  - apply Permutation_map. symmetry. apply insert_index_perm.
  - cbn [map snd]. apply perm_skip. exact IH.
Qed.

(** [Object.entries] lists every own property once. *)
Lemma Object_entries_perm (d : Dict V) : Permutation (Object_entries d) d.
Proof.
  unfold Object_entries, named_entries.
  etransitivity; [|apply (filter_split_perm
    (fun e => match array_index (fst e) with Some _ => true | None => false end))].
  apply Permutation_app; [apply index_entries_perm|].
  rewrite (filter_ext
             (fun e : string * V => match array_index (fst e) with Some _ => false | None => true end)
             (fun e => negb match array_index (fst e) with Some _ => true | None => false end));
    [reflexivity|].
  intros e. now destruct (array_index (fst e)).
Qed.
End DictFacts.

(** A loop that skips some items is the loop over the others. *)
Lemma forEach_filter {S A} (p : A -> bool) (f : S -> A -> option S) (items : list A) (s : S) :
  forEach (fun s item => if p item then f s item else Some s) items s
  = forEach f (filter p items) s.
Proof.
  revert s. induction items as [|item rest IH]; intros s; [reflexivity|].
  cbn [forEach filter]. destruct (p item); cbn [forEach]; [|apply IH].
  destruct (f s item); [apply IH | reflexivity].
Qed.

Section GroupingFacts.
Context {V A : Type} (key : A -> string) (value : A -> V).

Lemma push_into_get (obj obj' : Dict (list V)) (k : string) (v : V) (k' : string) :
  push_into obj k v = Some obj' ->
  dict_get obj' k'
  = if String.eqb k k'
    then Some (match dict_get obj k with Some vs => vs | None => [] end ++ [v])
    else dict_get obj k'.
Proof.
  unfold push_into. destruct (dict_get obj k) as [vs|] eqn:E.
  - intros [= <-]. apply dict_get_set.
  - destruct (inherited k); [discriminate|]. intros [= <-]. apply dict_get_set.
Qed.

Lemma push_into_nodup (obj obj' : Dict (list V)) (k : string) (v : V) :
  NoDup (map fst obj) -> push_into obj k v = Some obj' -> NoDup (map fst obj').
Proof.
  unfold push_into. intros Hnd. destruct (dict_get obj k) as [vs|].
  - intros [= <-]. now apply dict_set_nodup.
  - destruct (inherited k); [discriminate|]. intros [= <-]. now apply dict_set_nodup.
Qed.

Lemma grouping_nodup (items : list A) (obj obj' : Dict (list V)) :
  NoDup (map fst obj) ->
  forEach (fun o item => push_into o (key item) (value item)) items obj = Some obj' ->
  NoDup (map fst obj').
Proof.
  revert obj. induction items as [|item rest IH]; intros obj Hnd; cbn [forEach].
  - now intros [= <-].
  - destruct (push_into obj (key item) (value item)) as [o|] eqn:E; [|discriminate].
    apply IH. now apply (push_into_nodup obj o _ _ Hnd E).
Qed.

Lemma grouping_get (items : list A) (obj obj' : Dict (list V)) (k : string) :
  forEach (fun o item => push_into o (key item) (value item)) items obj = Some obj' ->
  dict_get obj' k
  = match dict_get obj k, map value (filter (fun item => String.eqb (key item) k) items) with
    | Some vs, g => Some (vs ++ g)
    | None, [] => None
    | None, g => Some g
    end.
Proof.
  revert obj. induction items as [|item rest IH]; intros obj; cbn [forEach].
  - intros [= <-]. cbn. destruct (dict_get obj k); [now rewrite app_nil_r|reflexivity].
  - destruct (push_into obj (key item) (value item)) as [o|] eqn:E; [|discriminate].
    intros H. rewrite (IH o H). rewrite (push_into_get obj o _ _ k E).
    cbn [filter].
    destruct (String.eqb_spec (key item) k) as [Hk | Hk].
    + cbn [map]. rewrite Hk.
      destruct (dict_get obj k) as [vs|]; [now rewrite <- app_assoc | reflexivity].
    + reflexivity.
Qed.

Lemma dict_set_size (d : Dict (list V)) (k : string) (vs : list V) (v : V) :
  dict_get d k = Some vs ->
  list_sum (map (fun e => List.length (snd e)) (dict_set d k (vs ++ [v])))
  = S (list_sum (map (fun e => List.length (snd e)) d)).
Proof.
  unfold list_sum.
  induction d as [|[k0 v0] r IH]; cbn [dict_get dict_set]; [discriminate|].
  destruct (String.eqb k0 k).
  - intros [= ->]. cbn [map fold_right snd]. rewrite length_app. cbn [List.length]. lia.
  - intros H. cbn [map fold_right snd]. rewrite (IH H). lia.
Qed.

Lemma dict_set_new_size (d : Dict (list V)) (k : string) (v : V) :
  dict_get d k = None ->
  list_sum (map (fun e => List.length (snd e)) (dict_set d k [v]))
  = S (list_sum (map (fun e => List.length (snd e)) d)).
Proof.
  unfold list_sum.
  induction d as [|[k0 v0] r IH]; cbn [dict_get dict_set]; [reflexivity|].
  destruct (String.eqb k0 k); [discriminate|].
  intros H. cbn [map fold_right snd]. rewrite (IH H). lia.
Qed.

Lemma grouping_size (items : list A) (obj obj' : Dict (list V)) :
  forEach (fun o item => push_into o (key item) (value item)) items obj = Some obj' ->
  list_sum (map (fun e => List.length (snd e)) obj')
  = (list_sum (map (fun e => List.length (snd e)) obj) + List.length items)%nat.
Proof.
  revert obj. induction items as [|item rest IH]; intros obj; cbn [forEach].
  - intros [= <-]. cbn. lia.
  - destruct (push_into obj (key item) (value item)) as [o|] eqn:E; [|discriminate].
    intros H. rewrite (IH o H). cbn [List.length].
    unfold push_into in E. destruct (dict_get obj (key item)) as [vs|] eqn:G.
    + injection E as <-. rewrite (dict_set_size obj _ vs _ G). lia.
    + destruct (inherited (key item)); [discriminate|]. injection E as <-.
      rewrite (dict_set_new_size obj _ _ G). lia.
Qed.

(** Grouping from the empty object: the entry of [k] holds the values of
    the items with key [k], in order, and there is an entry exactly for the
    keys that occur. *)
Lemma grouping_entries (items : list A) (obj : Dict (list V)) :
  forEach (fun o item => push_into o (key item) (value item)) items [] = Some obj ->
  NoDup (map fst obj)
  /\ (forall k vs, In (k, vs) obj <-> vs = map value (filter (fun item => String.eqb (key item) k) items) /\ vs <> []).
Proof.
  intros H. assert (Hnd : NoDup (map fst obj)) by (apply (grouping_nodup items [] obj); [constructor | exact H]).
  split; [exact Hnd|]. intros k vs.
  pose proof (grouping_get items [] obj k H) as Hg. cbn [dict_get] in Hg.
  split.
  - intros Hin. apply (dict_in_get obj k vs Hnd) in Hin. rewrite Hin in Hg.
    destruct (map value (filter (fun item => String.eqb (key item) k) items)) as [|g gs]; [discriminate|]. injection Hg as ->. split; [reflexivity | discriminate].
  - intros [-> Hne]. apply dict_get_in. rewrite Hg.
    destruct (map value (filter (fun item => String.eqb (key item) k) items)); [contradiction | reflexivity].
Qed.
End GroupingFacts.

(* ================================================================== *)
(** ** The groups of the ranking *)

(** Entries with distinct keys keep distinct keys when some are dropped. *)
Lemma nodup_map_filter {E K} (key : E -> K) (keep : E -> bool) (entries : list E) :
  NoDup (map key entries) -> NoDup (map key (filter keep entries)).
Proof.
  intros Hnd. induction entries as [|entry rest IH]; cbn [map filter]; [constructor|].
  cbn [map] in Hnd. apply NoDup_cons_iff in Hnd as [Hfresh Hrest].
  destruct (keep entry); [|now apply IH]. cbn [map]. constructor; [|now apply IH].
  intros Hin. apply Hfresh. apply in_map_iff in Hin as (other & Hkey & Hin).
  apply in_map_iff. exists other. split; [exact Hkey|]. now apply filter_In in Hin.
Qed.

(** The object that the grouping loop of [identifyBestPerformers] builds:
    one entry per process type that occurs, holding the records of that
    type in the order of the data. *)
Lemma groupByProcessType_entries `{rt : Runtime} (data : list Record)
    (processTypeField : string) (processByType : Dict (list Record)) :
  ProcessAnalytics.groupByProcessType data processTypeField = Some processByType ->
  NoDup (map fst (Object_entries processByType))
  /\ (forall processType items,
        In (processType, items) (Object_entries processByType)
        <-> items = recordsOfType processTypeField processType data /\ items <> []).
Proof.
  intros H.
  destruct (grouping_entries (ProcessAnalytics.processTypeOf processTypeField)
              (fun item => item) data processByType H) as [Hnd Hin].
  split.
  - apply (Permutation_NoDup (l := map fst processByType)); [|exact Hnd].
    apply Permutation_map. symmetry. apply Object_entries_perm.
  - intros processType items. specialize (Hin processType items).
    rewrite map_id in Hin. fold (recordsOfType processTypeField processType data) in Hin.
    rewrite <- Hin. split; apply Permutation_in;
      [apply Object_entries_perm | symmetry; apply Object_entries_perm].
Qed.

Lemma ranked_performances `{rt : Runtime} (this : ProcessAnalytics.t)
    (higherIsBetter : bool) (sorted : list ProcessAnalytics.Performance) :
  map ProcessAnalytics.performance
      (map (fun '(index, process) =>
              ProcessAnalytics.rankPerformer this higherIsBetter sorted index process)
           (combine (seq 0 (List.length sorted)) sorted))
  = sorted.
Proof.
  rewrite map_map. rewrite <- (combine_seq_snd sorted 0) at 3.
  apply map_ext. now intros [i p].
Qed.

(** The ranked groups are a rearrangement of the kept entries of the
    grouping object. *)
Lemma identifyBestPerformers_performances `{rt : Runtime} (this : ProcessAnalytics.t)
    (data : list Record) (processTypeField performanceField : string)
    (higherIsBetter : bool) (result : list ProcessAnalytics.Performer) :
  ProcessAnalytics.identifyBestPerformers this data processTypeField performanceField
    higherIsBetter = Some result ->
  exists processByType,
    ProcessAnalytics.groupByProcessType data processTypeField = Some processByType
    /\ Permutation
         (map (groupStatistics this performanceField)
              (filter (hasEnoughValues performanceField) (Object_entries processByType)))
         (map ProcessAnalytics.performance result).
Proof.
  unfold ProcessAnalytics.identifyBestPerformers.
  destruct (ProcessAnalytics.groupByProcessType data processTypeField) as [processByType|];
    [|discriminate].
  intros [= <-]. exists processByType. split; [reflexivity|].
  rewrite ranked_performances. unfold ProcessAnalytics.processPerformance.
  rewrite flat_map_detected_filter. apply sort_perm.
Qed.

(** Process types ranked by [identifyBestPerformers]: each type with three
    numeric performance values or more occurs once, with the statistics
    of exactly the records of that type. *)
Theorem identifyBestPerformers_groups `{rt : Runtime} (this : ProcessAnalytics.t)
    (data : list Record) (processTypeField performanceField : string)
    (higherIsBetter : bool) (result : list ProcessAnalytics.Performer) :
  ProcessAnalytics.identifyBestPerformers this data processTypeField performanceField
    higherIsBetter = Some result ->
  NoDup (map (fun r => ProcessAnalytics.processType (ProcessAnalytics.performance r)) result)
  /\ (forall r, In r result ->
        let items :=
          recordsOfType processTypeField
            (ProcessAnalytics.processType (ProcessAnalytics.performance r)) data in
        ProcessAnalytics.performance r
        = groupStatistics this performanceField
            (ProcessAnalytics.processType (ProcessAnalytics.performance r), items)
        /\ (3 <= List.length (ProcessAnalytics.numericValues items performanceField))%nat)
  /\ (forall item, In item data ->
        let processType := ProcessAnalytics.processTypeOf processTypeField item in
        (3 <= List.length
                (ProcessAnalytics.numericValues
                   (recordsOfType processTypeField processType data) performanceField))%nat ->
        exists r, In r result
                  /\ ProcessAnalytics.processType (ProcessAnalytics.performance r) = processType).
Proof.
  intros H.
  destruct (identifyBestPerformers_performances this data _ _ _ result H)
    as (processByType & Hg & Hperm).
  destruct (groupByProcessType_entries data processTypeField processByType Hg) as [Hnd Hin].
  set (entries := Object_entries processByType) in *.
  assert (Hkept : forall p,
            In p (map ProcessAnalytics.performance result) <->
            exists e, In e entries /\ hasEnoughValues performanceField e = true
                      /\ p = groupStatistics this performanceField e).
  { intros p. split.
    - intros Hp. apply (Permutation_in _ (Permutation_sym Hperm)) in Hp.
      apply in_map_iff in Hp as (e & <- & He). apply filter_In in He as [He Hk].
      now exists e.
    - intros (e & He & Hk & ->). apply (Permutation_in _ Hperm).
      apply in_map. apply filter_In. now split. }
  split; [|split].
  - rewrite <- (map_map ProcessAnalytics.performance ProcessAnalytics.processType).
    apply (Permutation_NoDup (Permutation_map ProcessAnalytics.processType Hperm)).
    rewrite map_map. cbn [groupStatistics ProcessAnalytics.processType].
    now apply nodup_map_filter.
  - intros r Hr items.
    assert (Hp : In (ProcessAnalytics.performance r) (map ProcessAnalytics.performance result))
      by now apply in_map.
    apply Hkept in Hp as ([name its] & He & Hk & Hp).
    apply Hin in He as [-> Hne].
    unfold items. rewrite Hp. cbn [groupStatistics fst snd ProcessAnalytics.processType].
    split; [reflexivity|].
    unfold hasEnoughValues in Hk. cbn [snd] in Hk. now apply Nat.leb_le in Hk.
  - intros item Hitem processType Hlen.
    assert (He : In (processType, recordsOfType processTypeField processType data) entries).
    { apply Hin. split; [reflexivity|].
      intros Hnil. rewrite Hnil in Hlen. cbn in Hlen. lia. }
    assert (Hp : In (groupStatistics this performanceField
                       (processType, recordsOfType processTypeField processType data))
                    (map ProcessAnalytics.performance result)).
    { apply Hkept. eexists. split; [exact He|]. split; [|reflexivity].
      unfold hasEnoughValues. cbn [snd]. now apply Nat.leb_le. }
    apply in_map_iff in Hp as (r & Hr & Hin'). exists r. split; [exact Hin'|].
    now rewrite Hr.
Qed.

Lemma identifyBestPerformers_groups_witness :
  exists result,
    @ProcessAnalytics.identifyBestPerformers exampleRuntime defaultAnalytics twoThenOne
      "ProcessType" "Success" true = Some result
    /\ NoDup (map (fun r => ProcessAnalytics.processType (ProcessAnalytics.performance r))
                  result).
Proof.
  destruct (@ProcessAnalytics.identifyBestPerformers exampleRuntime defaultAnalytics twoThenOne
              "ProcessType" "Success" true) as [result|] eqn:E;
    [|vm_compute in E; discriminate].
  exists result. split; [reflexivity|].
  exact (proj1 (@identifyBestPerformers_groups exampleRuntime defaultAnalytics twoThenOne
                  "ProcessType" "Success" true result E)).
Defined.

(* ================================================================== *)
(** ** The process entries of the dashboard *)

Lemma in_flat_map_detected {A B} (f : A -> option B) (l : list A) (b : B) :
  In b (flat_map (fun a => ProcessAnalytics.detected (f a)) l)
  <-> exists a, In a l /\ f a = Some b.
Proof.
  rewrite in_flat_map. split.
  - intros (a & Ha & Hb). exists a. split; [exact Ha|].
    destruct (f a) as [b'|]; cbn in Hb; [|contradiction].
    destruct Hb as [-> | []]. reflexivity.
  - intros (a & Ha & Hb). exists a. split; [exact Ha|]. rewrite Hb. now left.
Qed.

Lemma identifyBestPerformers_ranks `{rt : Runtime} (this : ProcessAnalytics.t)
    (data : list Record) (processTypeField performanceField : string)
    (higherIsBetter : bool) (result : list ProcessAnalytics.Performer) :
  ProcessAnalytics.identifyBestPerformers this data processTypeField performanceField
    higherIsBetter = Some result ->
  map ProcessAnalytics.rank result = seq 1 (List.length result).
Proof.
  unfold ProcessAnalytics.identifyBestPerformers.
  destruct (ProcessAnalytics.groupByProcessType data processTypeField) as [processByType|];
    [|discriminate].
  intros [= <-].
  set (sorted := sort _ _).
  rewrite length_map, length_combine, length_seq, Nat.min_id, map_map.
  rewrite <- (map_ext (fun ip => S (fst ip))).
  - rewrite <- (map_map fst S), combine_seq_fst. apply seq_shift.
  - intros [i p]. cbn. lia.
Qed.

Lemma identifyBestPerformers_types `{rt : Runtime} (this : ProcessAnalytics.t)
    (data : list Record) (processTypeField performanceField : string)
    (higherIsBetter : bool) (result : list ProcessAnalytics.Performer) :
  ProcessAnalytics.identifyBestPerformers this data processTypeField performanceField
    higherIsBetter = Some result ->
  NoDup (map (fun r => ProcessAnalytics.processType (ProcessAnalytics.performance r)) result)
  /\ (forall processType,
        (exists r, In r result
                   /\ ProcessAnalytics.processType (ProcessAnalytics.performance r) = processType)
        <-> (3 <= List.length
                    (ProcessAnalytics.numericValues
                       (recordsOfType processTypeField processType data) performanceField))%nat).
Proof.
  intros H.
  destruct (identifyBestPerformers_performances this data _ _ _ result H)
    as (processByType & Hg & Hperm).
  destruct (groupByProcessType_entries data processTypeField processByType Hg) as [Hnd Hin].
  split.
  - rewrite <- (map_map ProcessAnalytics.performance ProcessAnalytics.processType).
    apply (Permutation_NoDup (Permutation_map ProcessAnalytics.processType Hperm)).
    rewrite map_map. cbn [groupStatistics ProcessAnalytics.processType].
    now apply nodup_map_filter.
  - intros processType. split.
    + intros (r & Hr & <-).
      assert (Hp : In (ProcessAnalytics.performance r)
                      (map ProcessAnalytics.performance result)) by now apply in_map.
      apply (Permutation_in _ (Permutation_sym Hperm)) in Hp.
      apply in_map_iff in Hp as ([name its] & <- & He). apply filter_In in He as [He Hk].
      apply Hin in He as [-> _]. cbn [groupStatistics fst ProcessAnalytics.processType].
      unfold hasEnoughValues in Hk. cbn [snd] in Hk. now apply Nat.leb_le in Hk.
    + intros Hlen.
      assert (He : In (processType, recordsOfType processTypeField processType data)
                      (Object_entries processByType)).
      { apply Hin. split; [reflexivity|].
        intros Hnil. rewrite Hnil in Hlen. cbn in Hlen. lia. }
      assert (Hp : In (groupStatistics this performanceField
                         (processType, recordsOfType processTypeField processType data))
                      (map ProcessAnalytics.performance result)).
      { apply (Permutation_in _ Hperm). apply in_map. apply filter_In. split; [exact He|].
        unfold hasEnoughValues. cbn [snd]. now apply Nat.leb_le. }
      apply in_map_iff in Hp as (r & Hr & Hin'). exists r. split; [exact Hin'|].
      now rewrite Hr.
Qed.

Lemma applyRanking_keeps `{rt : Runtime} (bestPerformers : list ProcessAnalytics.Performer)
    (process : AnalyticsService.ProcessPerformanceResult) :
  AnalyticsService.processType (AnalyticsService.applyRanking bestPerformers process)
  = AnalyticsService.processType process
  /\ AnalyticsService.rft (AnalyticsService.applyRanking bestPerformers process)
     = AnalyticsService.rft process
  /\ AnalyticsService.duration (AnalyticsService.applyRanking bestPerformers process)
     = AnalyticsService.duration process.
Proof.
  unfold AnalyticsService.applyRanking. now destruct (find _ bestPerformers).
Qed.

(** The entry that the loop over the groups pushes for a group of three
    rows or more. *)
Lemma groupMetrics_loop `{rt : Runtime} (kpi : KPICalculator.t)
    (config : AnalyticsService.Config) (entries : list (string * list Record))
    (collected processPerformance : list AnalyticsService.ProcessPerformanceResult) :
  forEach (AnalyticsService.groupMetrics kpi config) entries collected
  = Some processPerformance ->
  exists unranked,
    processPerformance = collected ++ unranked
    /\ map AnalyticsService.processType unranked
       = map fst (filter (fun e => (3 <=? List.length (snd e))%nat) entries)
    /\ (forall p, In p unranked <->
          exists e, In e entries /\ (3 <= List.length (snd e))%nat
                    /\ KPICalculator.calculateProcessDuration kpi (snd e)
                         (AnalyticsService.durationField config)
                       = Some (AnalyticsService.duration p)
                    /\ p = {| AnalyticsService.processType := fst e;
                              AnalyticsService.rft :=
                                KPICalculator.calculateRFT kpi (snd e)
                                  (AnalyticsService.successField config)
                                  (AnalyticsService.successValue config);
                              AnalyticsService.duration := AnalyticsService.duration p;
                              AnalyticsService.rank := 0;
                              AnalyticsService.significantlyBetter := false;
                              AnalyticsService.percentileBetter := 0 |}).
Proof.
  revert collected. induction entries as [|[name items] rest IH]; intros collected.
  - cbn [forEach]. intros [= <-]. exists []. rewrite app_nil_r.
    split; [reflexivity|]. split; [reflexivity|].
    intros p. split; [intros [] | intros (e & [] & _)].
  - cbn [forEach]. unfold AnalyticsService.groupMetrics at 1. cbn [filter snd].
    destruct (Nat.ltb_spec (List.length items) 3) as [Hlt | Hge].
    + destruct (Nat.leb_spec 3 (List.length items)); [lia|].
      intros Hf. destruct (IH _ Hf) as (unranked & -> & Ht & Hin).
      exists unranked. split; [reflexivity|]. split; [exact Ht|].
      intros p. rewrite Hin. split.
      * intros (e & He & Hrest). exists e. split; [now right | exact Hrest].
      * intros (e & [<- | He] & Hlen & Hrest); [cbn [snd] in Hlen; lia|].
        exists e. now split.
    + destruct (Nat.leb_spec 3 (List.length items)); [|lia].
      destruct (KPICalculator.calculateProcessDuration kpi items
                  (AnalyticsService.durationField config)) as [duration|] eqn:Hd;
        [|discriminate].
      intros Hf. destruct (IH _ Hf) as (unranked & -> & Ht & Hin).
      eexists (_ :: unranked). rewrite <- app_assoc. split; [reflexivity|].
      split; [cbn [map fst AnalyticsService.processType]; now rewrite Ht|].
      intros p. cbn [In]. rewrite Hin. split.
      * intros [<- | (e & He & Hrest)].
        -- exists (name, items). cbn [fst snd AnalyticsService.duration].
           split; [now left|]. split; [lia|]. split; [exact Hd | reflexivity].
        -- exists e. split; [now right | exact Hrest].
      * intros (e & [<- | He] & Hlen & Hdur & Hp).
        -- left. cbn [fst snd] in *. rewrite Hd in Hdur. injection Hdur as Hdur.
           rewrite Hp. now rewrite <- Hdur.
        -- right. exists e. now split.
Qed.

(** What a returning call of [generateDashboardAnalytics] is made of. *)
Lemma dashboard_parts `{rt : Runtime} (data : list Record) (config : AnalyticsService.Config)
    (this : AnalyticsService.t) (result : AnalyticsService.AnalyticsDashboardData) :
  fst (AnalyticsService.generateDashboardAnalytics data config this) = Some result ->
  exists processByType bestPerformers unranked,
    ProcessAnalytics.groupByProcessType data (AnalyticsService.processTypeField config)
    = Some processByType
    /\ ProcessAnalytics.identifyBestPerformers (AnalyticsService.processAnalytics this) data
         (AnalyticsService.processTypeField config) (AnalyticsService.successField config) true
       = Some bestPerformers
    /\ AnalyticsService.overallRFT result
       = KPICalculator.calculateRFT (AnalyticsService.kpiCalculator this) data
           (AnalyticsService.successField config) (AnalyticsService.successValue config)
    /\ forEach (AnalyticsService.groupMetrics (AnalyticsService.kpiCalculator this) config)
               (Object_entries processByType) []
       = Some unranked
    /\ AnalyticsService.processPerformance result
       = sort (fun a b => num_of_nat (AnalyticsService.rank a)
                          - num_of_nat (AnalyticsService.rank b))
              (map (AnalyticsService.applyRanking bestPerformers) unranked).
Proof.
  unfold AnalyticsService.generateDashboardAnalytics, AnalyticsService.bind,
    AnalyticsService.read, AnalyticsService.lift, AnalyticsService.ret.
  change (AnalyticsService.groupByProcessType data (AnalyticsService.processTypeField config))
    with (ProcessAnalytics.groupByProcessType data (AnalyticsService.processTypeField config)).
  destruct (ProcessAnalytics.groupByProcessType data (AnalyticsService.processTypeField config))
    as [processByType|]; [|discriminate].
  destruct (forEach _ (Object_entries processByType) []) as [unranked|] eqn:Hu;
    [|discriminate].
  destruct (ProcessAnalytics.identifyBestPerformers _ data _ _ true) as [bestPerformers|];
    [|discriminate].
  cbn [fst]. intros [= <-]. exists processByType, bestPerformers, unranked.
  repeat split; first [reflexivity | exact Hu].
Qed.

(** The process entries of the dashboard: one for every process type with
    three records or more, with the RFT and the duration statistics of
    exactly the records of that type. *)
Theorem dashboard_process_entries `{rt : Runtime} (data : list Record)
    (config : AnalyticsService.Config) (this : AnalyticsService.t)
    (result : AnalyticsService.AnalyticsDashboardData) :
  fst (AnalyticsService.generateDashboardAnalytics data config this) = Some result ->
  let kpi := AnalyticsService.kpiCalculator this in
  let processTypeField := AnalyticsService.processTypeField config in
  NoDup (map AnalyticsService.processType (AnalyticsService.processPerformance result))
  /\ (forall p, In p (AnalyticsService.processPerformance result) ->
        let items := recordsOfType processTypeField (AnalyticsService.processType p) data in
        (3 <= List.length items)%nat
        /\ AnalyticsService.rft p
           = KPICalculator.calculateRFT kpi items (AnalyticsService.successField config)
               (AnalyticsService.successValue config)
        /\ Some (AnalyticsService.duration p)
           = KPICalculator.calculateProcessDuration kpi items
               (AnalyticsService.durationField config))
  /\ (forall item, In item data ->
        let processType := ProcessAnalytics.processTypeOf processTypeField item in
        (3 <= List.length (recordsOfType processTypeField processType data))%nat ->
        exists p, In p (AnalyticsService.processPerformance result)
                  /\ AnalyticsService.processType p = processType).
Proof.
  intros H kpi processTypeField.
  destruct (dashboard_parts data config this result H)
    as (processByType & bestPerformers & unranked & Hg & _ & _ & Hloop & Hpp).
  destruct (groupByProcessType_entries data processTypeField processByType Hg) as [Hnd Hin].
  set (entries := Object_entries processByType) in *.
  destruct (groupMetrics_loop kpi config entries [] unranked Hloop)
    as (unranked' & Hsame & Htypes & Hun).
  cbn [app] in Hsame. subst unranked'.
  assert (Hperm : Permutation (map (AnalyticsService.applyRanking bestPerformers) unranked)
                              (AnalyticsService.processPerformance result))
    by (rewrite Hpp; apply sort_perm).
  assert (Hkeep : forall p, In p (AnalyticsService.processPerformance result) ->
            exists q, In q unranked
                      /\ AnalyticsService.processType p = AnalyticsService.processType q
                      /\ AnalyticsService.rft p = AnalyticsService.rft q
                      /\ AnalyticsService.duration p = AnalyticsService.duration q).
  { intros p Hp. apply (Permutation_in _ (Permutation_sym Hperm)) in Hp.
    apply in_map_iff in Hp as (q & <- & Hq). exists q. split; [exact Hq|].
    apply applyRanking_keeps. }
  split; [|split].
  - apply (Permutation_NoDup (Permutation_map AnalyticsService.processType Hperm)).
    rewrite map_map.
    rewrite (map_ext _ AnalyticsService.processType)
      by (intros q; apply applyRanking_keeps).
    rewrite Htypes. now apply nodup_map_filter.
  - intros p Hp items. destruct (Hkeep p Hp) as (q & Hq & Ht & Hr & Hd).
    apply Hun in Hq as ([name its] & He & Hlen & Hdur & Hq).
    cbn [fst snd] in *. apply Hin in He as [Hits _].
    assert (Hname : AnalyticsService.processType q = name) by now rewrite Hq.
    assert (Hrft : AnalyticsService.rft q
                   = KPICalculator.calculateRFT kpi its (AnalyticsService.successField config)
                       (AnalyticsService.successValue config)) by now rewrite Hq.
    unfold items. rewrite Ht, Hname, Hr, Hrft, Hd, <- Hits. now repeat split.
  - intros item Hitem processType Hlen.
    assert (He : In (processType, recordsOfType processTypeField processType data) entries).
    { apply Hin. split; [reflexivity|]. intros Hnil. rewrite Hnil in Hlen. cbn in Hlen. lia. }
    assert (Hsome : exists q, In q unranked /\ AnalyticsService.processType q = processType).
    { assert (Hm : In processType (map AnalyticsService.processType unranked)).
      { rewrite Htypes. apply in_map_iff. eexists. split; [|apply filter_In; split; [exact He|]].
        - reflexivity.
        - cbn [snd]. apply Nat.leb_le. exact Hlen. }
      apply in_map_iff in Hm as (q & Hq & Hin'). now exists q. }
    destruct Hsome as (q & Hq & Hqt).
    exists (AnalyticsService.applyRanking bestPerformers q). split.
    + apply (Permutation_in _ Hperm). now apply in_map.
    + now rewrite (proj1 (applyRanking_keeps _ _)).
Qed.

Lemma dashboard_process_entries_witness :
  exists result,
    fst (@AnalyticsService.generateDashboardAnalytics exampleRuntime twoThenOne exampleConfig
           defaultService) = Some result
    /\ NoDup (map AnalyticsService.processType (AnalyticsService.processPerformance result)).
Proof.
  destruct (fst (@AnalyticsService.generateDashboardAnalytics exampleRuntime twoThenOne
                   exampleConfig defaultService)) as [result|] eqn:E;
    [|vm_compute in E; discriminate].
  exists result. split; [reflexivity|].
  exact (proj1 (@dashboard_process_entries exampleRuntime twoThenOne exampleConfig
                  defaultService result E)).
Defined.

(* ================================================================== *)
(** ** The groups of the variance analysis *)

Lemma filter_map_swap {A B} (f : A -> B) (p : B -> bool) (l : list A) :
  filter p (map f l) = map f (filter (fun x => p (f x)) l).
Proof.
  induction l as [|x r IH]; [reflexivity|]. cbn [map filter].
  destruct (p (f x)); cbn [map]; now rewrite IH.
Qed.

Lemma filter_filter_comm {A} (p q : A -> bool) (l : list A) :
  filter p (filter q l) = filter q (filter p l).
Proof.
  induction l as [|x r IH]; [reflexivity|]. cbn [filter].
  destruct (p x) eqn:Hp, (q x) eqn:Hq; cbn [filter]; rewrite ?Hp, ?Hq, IH; reflexivity.
Qed.

Lemma groupValues_loop `{rt : Runtime} (data : list Record) (groupField valueField : string) :
  KPICalculator.groupValues data groupField valueField
  = forEach (fun o item => push_into o (groupOf groupField item)
                             (ToNumber (get item valueField)))
            (filter (fun item => negb (isNaN (ToNumber (get item valueField)))) data) [].
Proof.
  unfold KPICalculator.groupValues.
  apply (forEach_filter (fun item => negb (isNaN (ToNumber (get item valueField))))
           (fun o item => push_into o (groupOf groupField item) (ToNumber (get item valueField)))).
Qed.

Lemma nodup_map_fst_perm {A B} (l l' : list (A * B)) :
  Permutation l l' -> NoDup (map fst l') -> NoDup (map fst l).
Proof.
  intros Hp. apply Permutation_NoDup. apply Permutation_map. now symmetry.
Qed.

Lemma list_sum_perm (l l' : list nat) : Permutation l l' -> list_sum l = list_sum l'.
Proof.
  unfold list_sum. induction 1; cbn [fold_right]; lia.
Qed.

(** [analyzeVariance]: the groups are the group names that occur among the
    records with a numeric value, each once, with the statistics of the
    numeric values of that group; the sample sizes add up to the number of
    numeric values.  The call throws exactly when such a record has a
    group name that names an inherited property: it returns only when
    none has, and throws only when one has. *)
Theorem analyzeVariance_groups `{rt : Runtime} (data : list Record)
    (groupField valueField : string) :
  match KPICalculator.analyzeVariance data groupField valueField with
  | Some results =>
      NoDup (map KPICalculator.groupName results)
      /\ (forall r, In r results ->
            let values := valuesOfGroup groupField valueField (KPICalculator.groupName r) data in
            values <> []
            /\ KPICalculator.va_sampleSize r = List.length values
            /\ KPICalculator.va_average r = KPICalculator.calculateMean values
            /\ KPICalculator.variance r = KPICalculator.calculateVariance values)
      /\ (forall item, In item data -> isNaN (ToNumber (get item valueField)) = false ->
            In (groupOf groupField item) (map KPICalculator.groupName results))
      /\ list_sum (map KPICalculator.va_sampleSize results)
         = List.length (KPICalculator.numericValues data valueField)
      /\ (forall item, In item data -> isNaN (ToNumber (get item valueField)) = false ->
            inherited (groupOf groupField item) = false)
  | None =>
      exists item, In item data /\ isNaN (ToNumber (get item valueField)) = false
                   /\ inherited (groupOf groupField item) = true
  end.
Proof.
  unfold KPICalculator.analyzeVariance. rewrite groupValues_loop.
  set (numericItems := filter (fun item => negb (isNaN (ToNumber (get item valueField)))) data).
  match goal with
  | |- context [forEach ?f numericItems []] =>
      destruct (forEach f numericItems []) as [groups|] eqn:E
  end.
  - pose proof (grouping_entries (groupOf groupField)
                  (fun item => ToNumber (get item valueField)) numericItems groups E)
      as [Hnd Hin].
    pose proof (grouping_size (groupOf groupField)
                  (fun item => ToNumber (get item valueField)) numericItems [] groups E) as Hsize.
    pose proof (Object_entries_perm groups) as Hperm.
    assert (Hvals : forall k,
              map (fun item => ToNumber (get item valueField))
                  (filter (fun item => String.eqb (groupOf groupField item) k) numericItems)
              = valuesOfGroup groupField valueField k data).
    { intros k. unfold valuesOfGroup, KPICalculator.numericValues, numericItems.
      rewrite (filter_map_swap (fun item => ToNumber (get item valueField))).
      now rewrite filter_filter_comm. }
    set (entries := Object_entries groups) in *.
    set (stats := fun '(groupName, values) => _).
    assert (Hname : forall e, KPICalculator.groupName (stats e) = fst e) by now intros [k vs].
    assert (Hsz : forall e, KPICalculator.va_sampleSize (stats e) = List.length (snd e))
      by now intros [k vs].
    split; [|split; [|split; [|split]]].
    + rewrite map_map. rewrite (map_ext _ fst Hname).
      now apply (nodup_map_fst_perm entries groups).
    + intros r Hr. apply in_map_iff in Hr as ([k vs] & <- & He).
      apply (Permutation_in _ Hperm) in He. apply Hin in He as [Hv Hne].
      rewrite Hvals in Hv. cbn [stats KPICalculator.groupName
        KPICalculator.va_sampleSize KPICalculator.va_average KPICalculator.variance].
      subst vs. now repeat split.
    + intros item Hitem Hnum. rewrite map_map, (map_ext _ fst Hname).
      apply (Permutation_in _ (Permutation_map fst (Permutation_sym Hperm))).
      set (k := groupOf groupField item).
      apply in_map_iff. exists (k, valuesOfGroup groupField valueField k data).
      split; [reflexivity|]. apply Hin. rewrite Hvals. split; [reflexivity|].
      rewrite <- Hvals. intros Hnil. apply map_eq_nil in Hnil.
      assert (Hi : In item (filter (fun i => String.eqb (groupOf groupField i) k) numericItems)).
      { apply filter_In. split.
        - apply filter_In. split; [exact Hitem|]. now rewrite Hnum.
        - apply String.eqb_refl. }
      rewrite Hnil in Hi. exact Hi.
    + rewrite map_map, (map_ext _ _ Hsz).
      rewrite (list_sum_perm _ _ (Permutation_map (fun e => List.length (snd e)) Hperm)).
      rewrite Hsize. cbn [map list_sum]. unfold KPICalculator.numericValues, numericItems.
      rewrite (filter_map_swap (fun item => ToNumber (get item valueField))).
      now rewrite length_map.
    + intros item Hitem Hnum.
      destruct (inherited (groupOf groupField item)) eqn:Hinh; [exfalso | reflexivity].
      assert (Hthrow : forEach (fun o i => push_into o (groupOf groupField i)
                                            (ToNumber (get i valueField)))
                               numericItems [] = None).
      { apply (grouping_throws (groupOf groupField)
                 (fun i => ToNumber (get i valueField))); [constructor|].
        apply Exists_exists. exists item. split; [|exact Hinh].
        apply filter_In. split; [exact Hitem | now rewrite Hnum]. }
      rewrite Hthrow in E. discriminate.
  - destruct (Forall_Exists_dec (fun item => inherited (groupOf groupField item) = false)
                (fun item => Bool.bool_dec _ _) numericItems) as [Hall | Hex].
    + destruct (grouping_returns (groupOf groupField)
                  (fun item => ToNumber (get item valueField)) numericItems [] Hall) as [o Ho].
      rewrite Ho in E. discriminate.
    + apply Exists_exists in Hex as (item & Hin & Hinh).
      apply filter_In in Hin as [Hin Hnum]. exists item. split; [exact Hin|].
      split; [now destruct (isNaN _) | now destruct (inherited _)].
Qed.

(* ================================================================== *)
(** ** The periods of the trend analysis *)

Lemma firstn_plus {A} (n m : nat) (l : list A) :
  firstn (n + m) l = firstn n l ++ firstn m (skipn n l).
Proof.
  revert l. induction n as [|n IH]; intros l; [reflexivity|].
  destruct l as [|x r]; cbn [plus firstn skipn app].
  - now rewrite firstn_nil.
  - now rewrite IH.
Qed.

Lemma slice_chunks {A} (l : list A) (size n : nat) :
  List.concat (map (fun i => slice (i * size) ((i + 1) * size) l) (seq 0 n))
  = firstn (n * size) l.
Proof.
  induction n as [|n IH]; [reflexivity|].
  rewrite seq_S, map_app, concat_app, IH. cbn [map List.concat plus].
  rewrite app_nil_r. unfold slice.
  replace ((n + 1) * size - n * size)%nat with size by lia.
  replace (S n * size)%nat with (n * size + size)%nat by lia.
  now rewrite firstn_plus.
Qed.

Lemma slice_rest {A} (l : list A) (start : nat) :
  slice start (List.length l) l = skipn start l.
Proof.
  unfold slice. apply firstn_all2. rewrite length_skipn. lia.
Qed.

(** The period slices of [identifyTrends] cut the values into consecutive
    pieces. *)
Lemma periodSlices_concat (values : list float) (periods periodSize : nat) :
  (1 <= periods)%nat ->
  List.concat (map (KPICalculator.periodSlice values periods periodSize) (seq 0 periods))
  = values.
Proof.
  intros Hp. replace periods with (S (periods - 1)) at 2 by lia.
  rewrite seq_S, map_app, concat_app. cbn [map List.concat plus]. rewrite app_nil_r.
  rewrite (map_ext_in _ (fun i => slice (i * periodSize) ((i + 1) * periodSize) values)).
  - rewrite slice_chunks. unfold KPICalculator.periodSlice.
    rewrite Nat.eqb_refl, slice_rest. apply firstn_skipn.
  - intros i Hi. apply in_seq in Hi. unfold KPICalculator.periodSlice.
    destruct (Nat.eqb_spec i (periods - 1)); [lia | reflexivity].
Qed.

Lemma periodSlice_length (values : list float) (periods i : nat) :
  (periods <= List.length values)%nat -> (i < periods)%nat ->
  let periodSize := Nat.max 1 (List.length values / periods) in
  List.length (KPICalculator.periodSlice values periods periodSize i)
  = if (i =? periods - 1)%nat
    then (List.length values - (periods - 1) * (List.length values / periods))%nat
    else (List.length values / periods)%nat.
Proof.
  intros Hle Hi periodSize.
  assert (Hq : (1 <= List.length values / periods)%nat)
    by (apply Nat.div_le_lower_bound; lia).
  assert (Hs : periodSize = (List.length values / periods)%nat) by (unfold periodSize; lia).
  assert (Hm : (periods * (List.length values / periods) <= List.length values)%nat)
    by (apply Nat.Div0.mul_div_le; lia).
  unfold KPICalculator.periodSlice, slice. rewrite Hs.
  rewrite length_firstn, length_skipn.
  destruct (Nat.eqb_spec i (periods - 1)) as [-> | Hne]; [lia|].
  assert ((i + 1) * (List.length values / periods)
          <= periods * (List.length values / periods))%nat
    by (apply Nat.mul_le_mono_r; lia).
  nia.
Qed.

(** [identifyTrends] numbers its periods 1, 2, ...; with at least one
    period every numeric value falls into exactly one of them, and when
    there are at least as many values as periods each period but the last
    has [floor(n / periods)] values and the last one takes the rest. *)
Theorem identifyTrends_periods `{rt : Runtime} (data : list Record)
    (timeField valueField : string) (periods : nat) (a : KPICalculator.TrendAnalysis) :
  KPICalculator.identifyTrends data timeField valueField periods = KPICalculator.TrendFound a ->
  let values := KPICalculator.numericValues (KPICalculator.sortByTime data timeField) valueField in
  let n := List.length values in
  map KPICalculator.period (KPICalculator.periods a) = seq 1 periods
  /\ ((1 <= periods)%nat ->
      list_sum (map KPICalculator.ps_sampleSize (KPICalculator.periods a)) = n)
  /\ ((1 <= periods <= n)%nat ->
      map KPICalculator.ps_sampleSize (KPICalculator.periods a)
      = repeat (n / periods)%nat (periods - 1) ++ [(n - (periods - 1) * (n / periods))%nat]).
Proof.
  unfold KPICalculator.identifyTrends.
  set (values := KPICalculator.numericValues (KPICalculator.sortByTime data timeField) valueField).
  destruct (Nat.eqb_spec (List.length values) 0) as [|Hlen]; [discriminate|].
  cbv zeta.
  set (periodSize := Nat.max 1 (List.length values / periods)).
  set (slices := map (KPICalculator.periodSlice values periods periodSize) (seq 0 periods)).
  intros [= <-]. cbn [KPICalculator.periods].
  assert (Hls : List.length slices = periods) by (unfold slices; now rewrite length_map, length_seq).
  assert (Hsizes : map KPICalculator.ps_sampleSize
                     (map (fun '(index, periodData) =>
                             {| KPICalculator.period := index + 1;
                                KPICalculator.ps_average := KPICalculator.calculateMean periodData;
                                KPICalculator.ps_stdDev :=
                                  KPICalculator.calculateStandardDeviation periodData;
                                KPICalculator.ps_sampleSize := List.length periodData |})
                          (combine (seq 0 periods) slices))
                   = map (@List.length float) slices).
  { rewrite map_map. clearbody slices. subst periods.
    transitivity (map (@List.length float)
                      (map snd (combine (seq 0 (List.length slices)) slices)));
      [|now rewrite combine_seq_snd].
    rewrite map_map. apply map_ext. now intros [i s]. }
  split; [|split].
  - rewrite map_map. rewrite <- (map_ext (fun ip => S (fst ip))).
    + rewrite <- (map_map fst S).
      replace (map fst (combine (seq 0 periods) slices)) with (seq 0 periods).
      * apply seq_shift.
      * clearbody slices. subst periods. symmetry. apply combine_seq_fst.
    + intros [i s]. cbn. lia.
  - intros Hp. rewrite Hsizes.
    rewrite <- (periodSlices_concat values periods periodSize Hp) at 1.
    fold slices. clear. induction slices as [|s r IH]; [reflexivity|].
    cbn [map list_sum List.concat]. rewrite length_app.
    unfold list_sum in *. cbn [fold_right]. now rewrite IH.
  - intros [Hp Hle]. rewrite Hsizes. unfold slices. rewrite map_map.
    assert (Hseq : seq 0 periods = seq 0 (periods - 1) ++ [(periods - 1)%nat]).
    { destruct periods as [|k]; [lia|]. rewrite seq_S. now replace (S k - 1)%nat with k by lia. }
    rewrite Hseq, map_app. cbn [map plus]. unfold periodSize. f_equal.
    + rewrite (map_ext_in _ (fun _ => (List.length values / periods)%nat)).
      * clear. generalize (periods - 1)%nat as k. generalize 0%nat as s.
        intros s k. revert s. induction k as [|k IH]; intros s; [reflexivity|].
        cbn [seq map repeat]. now rewrite IH.
      * intros i Hi. apply in_seq in Hi.
        rewrite (periodSlice_length values periods i Hle) by lia.
        destruct (Nat.eqb_spec i (periods - 1)); [lia | reflexivity].
    + rewrite (periodSlice_length values periods (periods - 1) Hle) by lia.
      now rewrite Nat.eqb_refl.
Qed.

Lemma identifyTrends_periods_witness :
  exists a,
    @KPICalculator.identifyTrends exampleRuntime scenarioA "Timestamp" "Success" 2
    = KPICalculator.TrendFound a
    /\ map KPICalculator.period (KPICalculator.periods a) = [1; 2]%nat
    /\ map KPICalculator.ps_sampleSize (KPICalculator.periods a) = [2; 3]%nat.
Proof.
  destruct (@KPICalculator.identifyTrends exampleRuntime scenarioA "Timestamp" "Success" 2)
    as [? ?|a] eqn:E; [vm_compute in E; discriminate|].
  exists a. split; [reflexivity|].
  destruct (@identifyTrends_periods exampleRuntime scenarioA "Timestamp" "Success" 2 a E)
    as (Hnum & _ & Hsizes).
  split; [exact Hnum|].
  refine (eq_trans (Hsizes _) _); [vm_compute; lia | reflexivity].
Defined.

(* ================================================================== *)
(** ** What the detectors need *)

Lemma fold_left_push {A B} (p : A -> bool) (f : A -> B) (l : list A) (init : list B) :
  fold_left (fun acc x => if p x then acc ++ [f x] else acc) l init
  = init ++ map f (filter p l).
Proof.
  revert init. induction l as [|x r IH]; intros init; cbn [fold_left filter].
  - now rewrite app_nil_r.
  - rewrite IH. destruct (p x); [|reflexivity]. cbn [map]. now rewrite <- app_assoc.
Qed.

Lemma numericPairs_filter `{rt : Runtime} (data : list Record) (param1 param2 : string) :
  ProcessAnalytics.numericPairs data param1 param2
  = map (fun item => (ToNumber (get item param1), ToNumber (get item param2)))
        (filter (fun item => negb (isNaN (ToNumber (get item param1)))
                             && negb (isNaN (ToNumber (get item param2)))) data).
Proof.
  unfold ProcessAnalytics.numericPairs.
  apply (fold_left_push
           (fun item => negb (isNaN (ToNumber (get item param1)))
                        && negb (isNaN (ToNumber (get item param2))))
           (fun item => (ToNumber (get item param1), ToNumber (get item param2))) data []).
Qed.

Lemma timeSeries_filter `{rt : Runtime} (sortedData : list Record) (timeField param : string) :
  ProcessAnalytics.timeSeries sortedData timeField param
  = map (fun item => (dateTime (get item timeField), ToNumber (get item param)))
        (filter (fun item => negb (isNaN (ToNumber (get item param)))
                             && negb (isNaN (dateTime (get item timeField)))) sortedData).
Proof.
  unfold ProcessAnalytics.timeSeries.
  apply (fold_left_push
           (fun item => negb (isNaN (ToNumber (get item param)))
                        && negb (isNaN (dateTime (get item timeField))))
           (fun item => (dateTime (get item timeField), ToNumber (get item param)))
           sortedData []).
Qed.

Lemma numericValues_le `{rt : Runtime} (data : list Record) (field : string) :
  (List.length (ProcessAnalytics.numericValues data field) <= List.length data)%nat.
Proof.
  unfold ProcessAnalytics.numericValues.
  etransitivity; [apply filter_length_le|]. now rewrite length_map.
Qed.

Lemma numericPairs_le `{rt : Runtime} (data : list Record) (param1 param2 : string) :
  (List.length (ProcessAnalytics.numericPairs data param1 param2) <= List.length data)%nat.
Proof.
  rewrite numericPairs_filter, length_map. apply filter_length_le.
Qed.

Lemma timeSeries_le `{rt : Runtime} (sortedData : list Record) (timeField param : string) :
  (List.length (ProcessAnalytics.timeSeries sortedData timeField param)
   <= List.length sortedData)%nat.
Proof.
  rewrite timeSeries_filter, length_map. apply filter_length_le.
Qed.

Lemma sortByTime_length `{rt : Runtime} (data : list Record) (timeField : string) :
  List.length (ProcessAnalytics.sortByTime data timeField) = List.length data.
Proof. apply sort_length. Qed.

Lemma flat_map_nil {A B} (f : A -> list B) (l : list A) :
  (forall a, In a l -> f a = []) -> flat_map f l = [].
Proof.
  induction l as [|x r IH]; intros H; [reflexivity|]. cbn [flat_map].
  rewrite (H x) by now left. apply IH. intros a Ha. apply H. now right.
Qed.

(** What each detector reports about. *)
Lemma detectCyclicalPattern_some `{rt : Runtime} (sortedData : list Record) (parameter : string)
    (r : ProcessAnalytics.PatternRecognitionResult) :
  ProcessAnalytics.detectCyclicalPattern sortedData parameter = Some r ->
  (10 <= List.length sortedData)%nat
  /\ ProcessAnalytics.patternType r = "cyclical"%string
  /\ ProcessAnalytics.affectedParameters r = [parameter].
Proof.
  unfold ProcessAnalytics.detectCyclicalPattern.
  pose proof (numericValues_le sortedData parameter) as Hle.
  destruct (Nat.ltb_spec (List.length (ProcessAnalytics.numericValues sortedData parameter)) 10);
    [discriminate|].
  cbv zeta. destruct (flat_map _ _); [discriminate|]. intros [= <-].
  repeat split. lia.
Qed.

Lemma detectTrendPattern_some `{rt : Runtime} (this : ProcessAnalytics.t)
    (sortedData : list Record) (parameter : string)
    (r : ProcessAnalytics.PatternRecognitionResult) :
  ProcessAnalytics.detectTrendPattern this sortedData parameter = Some r ->
  (5 <= List.length sortedData)%nat
  /\ ProcessAnalytics.patternType r = "trend"%string
  /\ ProcessAnalytics.affectedParameters r = [parameter].
Proof.
  unfold ProcessAnalytics.detectTrendPattern.
  pose proof (numericValues_le sortedData parameter) as Hle.
  destruct (Nat.ltb_spec (List.length (ProcessAnalytics.numericValues sortedData parameter)) 5);
    [discriminate|].
  cbv zeta. destruct (_ || _); [discriminate|]. intros [= <-].
  repeat split. lia.
Qed.

Lemma detectStepChangePattern_some `{rt : Runtime} (this : ProcessAnalytics.t)
    (sortedData : list Record) (parameter : string)
    (r : ProcessAnalytics.PatternRecognitionResult) :
  ProcessAnalytics.detectStepChangePattern this sortedData parameter = Some r ->
  (10 <= List.length sortedData)%nat
  /\ ProcessAnalytics.patternType r = "step_change"%string
  /\ ProcessAnalytics.affectedParameters r = [parameter].
Proof.
  unfold ProcessAnalytics.detectStepChangePattern.
  pose proof (numericValues_le sortedData parameter) as Hle.
  destruct (Nat.ltb_spec (List.length (ProcessAnalytics.numericValues sortedData parameter)) 10);
    [discriminate|].
  cbv zeta. destruct (fst _); [|discriminate].
  destruct (_ <=? _); [discriminate|]. intros [= <-].
  repeat split. lia.
Qed.

Lemma correlate_some `{rt : Runtime} (this : ProcessAnalytics.t) (data : list Record)
    (param1 param2 : string) (c : ProcessAnalytics.CorrelationResult) :
  ProcessAnalytics.correlate this data param1 param2 = Some c ->
  ProcessAnalytics.parameter1 c = param1
  /\ ProcessAnalytics.parameter2 c = param2
  /\ ProcessAnalytics.sampleSize c
     = List.length (ProcessAnalytics.numericPairs data param1 param2)
  /\ (3 <= ProcessAnalytics.sampleSize c <= List.length data)%nat.
Proof.
  unfold ProcessAnalytics.correlate.
  pose proof (numericPairs_le data param1 param2) as Hle.
  destruct (Nat.ltb_spec (List.length (ProcessAnalytics.numericPairs data param1 param2)) 3);
    [discriminate|].
  intros [= <-]. cbn. repeat split; lia.
Qed.

Lemma parameterPairs_in (parameters : list string) (param1 param2 : string) :
  In (param1, param2) (ProcessAnalytics.parameterPairs parameters) ->
  precedes param1 param2 parameters.
Proof.
  induction parameters as [|p rest IH]; cbn [ProcessAnalytics.parameterPairs];
    [intros []|].
  intros H. apply in_app_or in H as [H | H].
  - apply in_map_iff in H as (q & [= <- <-] & Hq).
    apply in_split in Hq as (l1 & l2 & ->). now exists [], l1, l2.
  - destruct (IH H) as (l1 & l2 & l3 & ->). now exists (p :: l1), l2, l3.
Qed.

Lemma precedes_in {A} (x y : A) (l : list A) : precedes x y l -> In x l /\ In y l.
Proof.
  intros (l1 & l2 & l3 & ->). split.
  - apply in_or_app. right. now left.
  - apply in_or_app. right. right. apply in_or_app. right. now left.
Qed.

Lemma analyzeCorrelations_in `{rt : Runtime} (this : ProcessAnalytics.t) (data : list Record)
    (parameters : list string) (c : ProcessAnalytics.CorrelationResult) :
  In c (ProcessAnalytics.analyzeCorrelations this data parameters) <->
  exists param1 param2,
    In (param1, param2) (ProcessAnalytics.parameterPairs parameters)
    /\ ProcessAnalytics.correlate this data param1 param2 = Some c.
Proof.
  unfold ProcessAnalytics.analyzeCorrelations.
  set (results := flat_map _ _).
  assert (Hres : In c results <->
            exists param1 param2,
              In (param1, param2) (ProcessAnalytics.parameterPairs parameters)
              /\ ProcessAnalytics.correlate this data param1 param2 = Some c).
  { unfold results. rewrite in_flat_map. split.
    - intros ([p1 p2] & Hp & Hc). exists p1, p2. split; [exact Hp|].
      destruct (ProcessAnalytics.correlate this data p1 p2) as [c'|]; [|contradiction].
      destruct Hc as [-> | []]. reflexivity.
    - intros (p1 & p2 & Hp & Hc). exists (p1, p2). split; [exact Hp|]. rewrite Hc. now left. }
  rewrite <- Hres. split; apply Permutation_in; [symmetry|]; apply sort_perm.
Qed.

(* ================================================================== *)
(** ** Predictions, correlations and patterns *)

Lemma filter_length_perm {A} (p : A -> bool) (l l' : list A) :
  Permutation l l' -> List.length (filter p l) = List.length (filter p l').
Proof.
  induction 1 as [|x l l' _ IH|x y l|l l' l'' _ IH1 _ IH2]; cbn [filter].
  - reflexivity.
  - destruct (p x); cbn [List.length]; now rewrite IH.
  - destruct (p x), (p y); reflexivity.
  - now rewrite IH1.
Qed.

Lemma flat_map_detected_names {A B} (f : A -> option B) (g : B -> A) (l : list A) :
  (forall a b, f a = Some b -> g b = a) ->
  map g (flat_map (fun a => ProcessAnalytics.detected (f a)) l)
  = filter (fun a => match f a with Some _ => true | None => false end) l.
Proof.
  intros Hg. induction l as [|a r IH]; [reflexivity|].
  cbn [flat_map filter]. rewrite map_app, IH.
  destruct (f a) as [b|] eqn:E; [|reflexivity]. cbn. now rewrite (Hg a b E).
Qed.

(** *** The last element of a sorted array *)

Section LatestFacts.
Context {A : Type} (cmp : A -> A -> float) (key : A -> Z).

Lemma orders_by_sub (l l' : list A) :
  (forall x, In x l' -> In x l) -> orders_by cmp key l -> orders_by cmp key l'.
Proof. intros Hsub Ho x y Hx Hy. apply Ho; now apply Hsub. Qed.

Lemma sort_insert_least (x : A) (l : list A) :
  orders_by cmp key (x :: l) ->
  Forall (fun y => (key x <= key y)%Z) l ->
  sort_insert cmp x l = x :: l.
Proof.
  intros Ho Hl. destruct l as [|y r]; [reflexivity|]. cbn [sort_insert].
  rewrite (Ho x y) by (cbn; auto). inversion Hl as [|? ? Hy _]; subst.
  destruct (Z.ltb_spec (key y) (key x)); [lia | reflexivity].
Qed.

Lemma filter_sort_insert (p : A -> bool) (x : A) (l : list A) :
  orders_by cmp key (x :: l) -> StronglySorted (key_le key) l ->
  filter p (sort_insert cmp x l)
  = if p x then sort_insert cmp x (filter p l) else filter p l.
Proof.
  intros Ho Hs. induction Hs as [|y r Hs IH Hy].
  - cbn. now destruct (p x).
  - assert (Ho' : orders_by cmp key (x :: r)).
    { apply (orders_by_sub (x :: y :: r)); [|exact Ho].
      intros z [<- | Hz]; [now left | now right; right]. }
    specialize (IH Ho'). cbn [sort_insert].
    rewrite (Ho x y) by (cbn; auto).
    destruct (Z.ltb_spec (key y) (key x)) as [Hlt | Hge].
    + cbn [filter]. rewrite IH. destruct (p x), (p y); try reflexivity.
      cbn [sort_insert]. rewrite (Ho x y) by (cbn; auto).
      destruct (Z.ltb_spec (key y) (key x)); [reflexivity | lia].
    + cbn [filter]. destruct (p x); [|reflexivity].
      symmetry. apply sort_insert_least.
      * apply (orders_by_sub (x :: y :: r)); [|exact Ho].
        intros z [<- | Hz]; [now left|]. right.
        destruct (p y); [destruct Hz as [<- | Hz]; [now left | right]|right];
          now apply filter_In in Hz.
      * apply Forall_forall. intros z Hz.
        assert (Hz' : In z (y :: r)).
        { destruct (p y); [destruct Hz as [<- | Hz]; [now left | right]|right];
            now apply filter_In in Hz. }
        destruct Hz' as [<- | Hz']; [exact Hge|].
        rewrite Forall_forall in Hy. specialize (Hy z Hz'). unfold key_le in Hy. lia.
Qed.

(** Filtering commutes with a sort whose comparator is consistent. *)
Lemma filter_sort (p : A -> bool) (l : list A) :
  orders_by cmp key l -> filter p (sort cmp l) = sort cmp (filter p l).
Proof.
  induction l as [|x r IH]; intros Ho; [reflexivity|].
  assert (Hr : orders_by cmp key r)
    by (apply (orders_by_sub (x :: r)); [now right | exact Ho]).
  cbn [sort]. rewrite filter_sort_insert.
  - cbn [filter]. rewrite (IH Hr). now destruct (p x).
  - apply (orders_by_sub (x :: r)); [|exact Ho].
    intros z [<- | Hz]; [now left | right].
    apply (Permutation_in _ (Permutation_sym (sort_perm cmp r))), Hz.
  - now apply sort_sorted.
Qed.

Lemma last_sort_insert (x d : A) (l : list A) :
  l <> [] -> orders_by cmp key (x :: l) -> StronglySorted (key_le key) l ->
  last (sort_insert cmp x l) d = if (key (last l d) <? key x)%Z then x else last l d.
Proof.
  intros Hne Ho Hs. induction Hs as [|y r Hs IH Hy]; [congruence|].
  cbn [sort_insert]. rewrite (Ho x y) by (cbn; auto).
  destruct r as [|z r'].
  - cbn [last]. destruct (Z.ltb_spec (key y) (key x)); reflexivity.
  - assert (Ho' : orders_by cmp key (x :: z :: r')).
    { apply (orders_by_sub (x :: y :: z :: r')); [|exact Ho].
      intros w [<- | Hw]; [now left | now right; right]. }
    specialize (IH ltac:(discriminate) Ho').
    change (last (y :: z :: r') d) with (last (z :: r') d).
    destruct (Z.ltb_spec (key y) (key x)) as [Hlt | Hge].
    + change (last (y :: sort_insert cmp x (z :: r')) d)
        with (match sort_insert cmp x (z :: r') with
              | [] => y | _ => last (sort_insert cmp x (z :: r')) d end).
      destruct (sort_insert cmp x (z :: r')) eqn:E; [|exact IH].
      cbn [sort_insert] in E. destruct (0 <? cmp x z); discriminate.
    + change (last (x :: y :: z :: r') d) with (last (z :: r') d).
      assert (Hin : In (last (z :: r') d) (z :: r')).
      { destruct (exists_last (l := z :: r') ltac:(discriminate)) as (l0 & a & E).
        rewrite E, last_last. apply in_or_app. right. now left. }
      rewrite Forall_forall in Hy. specialize (Hy _ Hin). unfold key_le in Hy.
      destruct (Z.ltb_spec (key (last (z :: r') d)) (key x)); [lia | reflexivity].
Qed.

(** The last element of the sorted array is the element with the largest
    key, the last such element of the array when there are several. *)
Lemma last_sort (d : A) (l : list A) :
  l <> [] -> orders_by cmp key l ->
  exists before latest after,
    l = before ++ latest :: after
    /\ last (sort cmp l) d = latest
    /\ Forall (fun x => (key x <= key latest)%Z) before
    /\ Forall (fun x => (key x < key latest)%Z) after.
Proof.
  induction l as [|x r IH]; intros Hne Ho; [congruence|].
  destruct r as [|y r'].
  - exists [], x, []. repeat split; constructor.
  - assert (Hr : orders_by cmp key (y :: r'))
      by (apply (orders_by_sub (x :: y :: r')); [now right | exact Ho]).
    destruct (IH ltac:(discriminate) Hr) as (b & m & a & E & Hlast & Hb & Ha).
    set (r := y :: r') in *.
    assert (Hsne : sort cmp r <> []).
    { intros Hnil. pose proof (sort_length cmp r) as Hl. rewrite Hnil in Hl. discriminate. }
    change (sort cmp (x :: r)) with (sort_insert cmp x (sort cmp r)).
    rewrite last_sort_insert; [|exact Hsne| |now apply sort_sorted].
    2:{ apply (orders_by_sub (x :: r)); [|exact Ho].
        intros z [<- | Hz]; [now left | right].
        apply (Permutation_in _ (Permutation_sym (sort_perm cmp r))), Hz. }
    rewrite Hlast. destruct (Z.ltb_spec (key m) (key x)) as [Hlt | Hge].
    + exists [], x, r. split; [reflexivity|]. split; [reflexivity|].
      split; [constructor|]. rewrite E. apply Forall_app. split.
      * eapply Forall_impl; [|exact Hb]. cbn. intros; lia.
      * constructor; [exact Hlt|]. eapply Forall_impl; [|exact Ha]. cbn. intros; lia.
    + exists (x :: b), m, a. split; [now rewrite E|]. split; [reflexivity|].
      split; [now constructor | exact Ha].
Qed.
End LatestFacts.

(** [generatePredictions] predicts exactly the parameters that have five
    or more records with a numeric value and a valid time, in the order of
    the parameter list, and the change is measured from the current
    value.  When every record has a valid time, the current value is the
    value of the latest of these records, the last one in the data among
    several of the latest time. *)
Theorem generatePredictions_parameters `{rt : Runtime} (this : ProcessAnalytics.t)
    (data : list Record) (timeField : string) (parameters : list string) :
  let results := ProcessAnalytics.generatePredictions this data timeField parameters in
  map ProcessAnalytics.parameter results
  = filter (fun param =>
              (5 <=? List.length (usableForPrediction timeField param data))%nat)
           parameters
  /\ Forall (fun r =>
               ProcessAnalytics.predictedChange r
               = ProcessAnalytics.predictedValue r - ProcessAnalytics.currentValue r
               /\ ProcessAnalytics.predictedChangePercent r
                  = ProcessAnalytics.predictedChange r / ProcessAnalytics.currentValue r * 100)
            results
  /\ (validTimes timeField data ->
      Forall (fun r =>
                exists before latest after,
                  usableForPrediction timeField (ProcessAnalytics.parameter r) data
                  = before ++ latest :: after
                  /\ ProcessAnalytics.currentValue r
                     = ToNumber (get latest (ProcessAnalytics.parameter r))
                  /\ Forall (fun item =>
                               (dateTime (get item timeField)
                                <=? dateTime (get latest timeField)) = true) before
                  /\ Forall (fun item =>
                               (dateTime (get item timeField)
                                <? dateTime (get latest timeField)) = true) after)
             results).
Proof.
  intros results. unfold results, ProcessAnalytics.generatePredictions.
  set (sortedData := ProcessAnalytics.sortByTime data timeField).
  assert (Hsome : forall param r,
            ProcessAnalytics.predict this sortedData timeField param = Some r ->
            ProcessAnalytics.parameter r = param
            /\ ProcessAnalytics.currentValue r
               = snd (last (ProcessAnalytics.timeSeries sortedData timeField param) (nan, nan))
            /\ ProcessAnalytics.predictedChange r
               = ProcessAnalytics.predictedValue r - ProcessAnalytics.currentValue r
            /\ ProcessAnalytics.predictedChangePercent r
               = ProcessAnalytics.predictedChange r / ProcessAnalytics.currentValue r * 100
            /\ (5 <= List.length (ProcessAnalytics.timeSeries sortedData timeField param))%nat).
  { intros param r. unfold ProcessAnalytics.predict.
    destruct (Nat.ltb_spec
                (List.length (ProcessAnalytics.timeSeries sortedData timeField param)) 5);
      [discriminate|].
    intros [= <-]. cbn. repeat split. lia. }
  split; [|split].
  - rewrite (flat_map_detected_names _ ProcessAnalytics.parameter)
      by (intros param r Hr; apply (Hsome param r Hr)).
    apply filter_ext. intros param. unfold ProcessAnalytics.predict.
    rewrite timeSeries_filter, length_map.
    rewrite (filter_length_perm _ sortedData data)
      by (symmetry; apply sort_perm).
    fold (usableForPrediction timeField param data).
    destruct (Nat.ltb_spec (List.length (usableForPrediction timeField param data)) 5),
             (Nat.leb_spec 5 (List.length (usableForPrediction timeField param data)));
      try lia; reflexivity.
  - apply Forall_forall. intros r Hr. apply in_flat_map in Hr as (param & _ & Hr).
    destruct (ProcessAnalytics.predict this sortedData timeField param) as [r'|] eqn:E;
      [|contradiction].
    destruct Hr as [<- | []]. destruct (Hsome param r' E) as (_ & _ & Hd & Hpc & _).
    now split.
  - intros Hv. pose proof (byTime_orders timeField data Hv) as Ho.
    unfold validTimes in Hv. rewrite Forall_forall in Hv.
    apply Forall_forall. intros r Hr. apply in_flat_map in Hr as (param & _ & Hr).
    destruct (ProcessAnalytics.predict this sortedData timeField param) as [r'|] eqn:E;
      [|contradiction].
    destruct Hr as [<- | []]. destruct (Hsome param r' E) as (Hp & Hc & _ & _ & Hlen).
    rewrite Hp, Hc. rewrite timeSeries_filter in Hlen |- *. rewrite length_map in Hlen.
    unfold sortedData, ProcessAnalytics.sortByTime in Hlen |- *.
    set (cmp := fun a b : Record => dateTime (get a timeField) - dateTime (get b timeField))
      in *.
    set (key := fun item : Record => fplace (dateTime (get item timeField))) in *.
    rewrite (filter_sort cmp key _ data Ho) in Hlen |- *.
    fold (usableForPrediction timeField param data) in Hlen |- *.
    set (usable := usableForPrediction timeField param data) in *.
    assert (Hsub : forall x, In x usable -> In x data)
      by (intros x Hx; now apply filter_In in Hx).
    assert (Hne : usable <> []).
    { intros Hnil. rewrite Hnil in Hlen. cbn in Hlen. lia. }
    destruct (last_sort cmp key [] usable Hne (orders_by_sub cmp key data usable Hsub Ho))
      as (before & latest & after & Hsplit & Hlast & Hb & Ha).
    exists before, latest, after. split; [exact Hsplit|].
    assert (Hin : forall x, In x before \/ x = latest \/ In x after -> In x data).
    { intros x Hx. apply Hsub. rewrite Hsplit. apply in_or_app.
      destruct Hx as [Hx | [-> | Hx]]; [now left | right; now left | right; now right]. }
    split.
    + assert (Hs : sort cmp usable <> []).
      { intros Hnil. pose proof (sort_length cmp usable) as Hl. rewrite Hnil in Hl.
        destruct usable; [congruence | discriminate]. }
      destruct (exists_last Hs) as (l0 & m & Em). rewrite Em in Hlast |- *.
      rewrite map_app. cbn [map]. rewrite last_last in Hlast |- *. now rewrite Hlast.
    + split.
      * apply Forall_forall. intros x Hx. rewrite Forall_forall in Hb.
        rewrite leb_place by (apply Hv, Hin; auto). apply Z.leb_le. now apply Hb.
      * apply Forall_forall. intros x Hx. rewrite Forall_forall in Ha.
        rewrite ltb_place by (apply Hv, Hin; auto). apply Z.ltb_lt. now apply Ha.
Qed.

Lemma generatePredictions_parameters_witness :
  let data :=
    map (fun '(t, v) => [("Time"%string, Number t); ("Yield"%string, Number v)])
        [(3, 30); (1, 10); (2, 20); (5, 50); (4, 40); (6, 60)] in
  let results :=
    @ProcessAnalytics.generatePredictions epochRuntime defaultAnalytics data "Time"
      ["Yield"]%string in
  @validTimes epochRuntime "Time" data
  /\ map ProcessAnalytics.currentValue results = [60]
  /\ Forall (fun r =>
               exists before latest after,
                 @usableForPrediction epochRuntime "Time" (ProcessAnalytics.parameter r) data
                 = before ++ latest :: after
                 /\ ProcessAnalytics.currentValue r
                    = @ToNumber epochRuntime (get latest (ProcessAnalytics.parameter r)))
            results.
Proof.
  intros data results.
  assert (Hv : @validTimes epochRuntime "Time" data) by (repeat constructor).
  split; [exact Hv|]. split; [vm_compute; reflexivity|].
  eapply Forall_impl;
    [|exact (proj2 (proj2 (@generatePredictions_parameters epochRuntime defaultAnalytics
                             data "Time" ["Yield"]%string)) Hv)].
  intros r (before & latest & after & H1 & H2 & _). now exists before, latest, after.
Defined.

(** The pairs of [analyzeCorrelations]: each result relates a parameter to
    one further down the list, rests on the records where both are
    numeric, at least three of them, and is flagged significant only
    below the p-value threshold and at or above the minimum strength. *)
Theorem analyzeCorrelations_results `{rt : Runtime} (this : ProcessAnalytics.t)
    (data : list Record) (parameters : list string) :
  let results := ProcessAnalytics.analyzeCorrelations this data parameters in
  Forall (fun c =>
            precedes (ProcessAnalytics.parameter1 c) (ProcessAnalytics.parameter2 c) parameters
            /\ ProcessAnalytics.sampleSize c
               = List.length
                   (filter (fun item =>
                              negb (isNaN (ToNumber (get item (ProcessAnalytics.parameter1 c))))
                              && negb (isNaN (ToNumber (get item (ProcessAnalytics.parameter2 c)))))
                           data)
            /\ (3 <= ProcessAnalytics.sampleSize c)%nat
            /\ (ProcessAnalytics.significant c = true ->
                (ProcessAnalytics.pValue c
                 <? num_or (ProcessAnalytics.significanceThreshold this) 0.05) = true
                /\ (num_or (ProcessAnalytics.minCorrelationStrength this) 0.3
                    <=? Math_abs (ProcessAnalytics.correlationCoefficient c)) = true))
         results
  /\ (2 * List.length results
      <= List.length parameters * (List.length parameters - 1))%nat.
Proof.
  intros results. split.
  - apply Forall_forall. intros c Hc. apply analyzeCorrelations_in in Hc as (p1 & p2 & Hp & Hc).
    pose proof (correlate_some this data p1 p2 c Hc) as (H1 & H2 & Hs & Hlen & _).
    rewrite H1, H2. split; [now apply parameterPairs_in|].
    split; [now rewrite Hs, numericPairs_filter, length_map|].
    split; [exact Hlen|].
    unfold ProcessAnalytics.correlate in Hc.
    destruct (List.length (ProcessAnalytics.numericPairs data p1 p2) <? 3)%nat; [discriminate|].
    injection Hc as <-. cbn [ProcessAnalytics.significant ProcessAnalytics.pValue
      ProcessAnalytics.correlationCoefficient]. intros Hsig. now apply andb_prop in Hsig.
  - unfold results, ProcessAnalytics.analyzeCorrelations. rewrite sort_length.
    assert (Hpairs : (2 * List.length (ProcessAnalytics.parameterPairs parameters)
                      = List.length parameters * (List.length parameters - 1))%nat).
    { clear results. induction parameters as [|p rest IH]; [reflexivity|].
      cbn [ProcessAnalytics.parameterPairs List.length].
      rewrite length_app, length_map.
      replace (S (List.length rest) - 1)%nat with (List.length rest) by lia.
      destruct (List.length rest) as [|m]; [lia|].
      replace (S m - 1)%nat with m in IH by lia. nia. }
    rewrite <- Hpairs. apply Nat.mul_le_mono_l.
    generalize (ProcessAnalytics.parameterPairs parameters) as pairs.
    induction pairs as [|[p1 p2] r IH]; [reflexivity|].
    cbn [flat_map]. rewrite length_app. cbn [List.length].
    destruct (ProcessAnalytics.correlate this data p1 p2); cbn [List.length]; lia.
Qed.

(** [recognizePatterns] lists the cyclical patterns, then the trends, then
    the step changes, then one correlation pattern per significant
    correlation; the first three kinds concern one of the given
    parameters each, a correlation two of them. *)
Theorem recognizePatterns_results `{rt : Runtime} (this : ProcessAnalytics.t)
    (data : list Record) (timeField : string) (parameters : list string) :
  exists cyclical trends steps correlations,
    ProcessAnalytics.recognizePatterns this data timeField parameters
    = cyclical ++ trends ++ steps ++ correlations
    /\ Forall (fun r => ProcessAnalytics.patternType r = "cyclical"%string
                        /\ (10 <= List.length data)%nat
                        /\ exists p, In p parameters
                                     /\ ProcessAnalytics.affectedParameters r = [p]) cyclical
    /\ Forall (fun r => ProcessAnalytics.patternType r = "trend"%string
                        /\ (5 <= List.length data)%nat
                        /\ exists p, In p parameters
                                     /\ ProcessAnalytics.affectedParameters r = [p]) trends
    /\ Forall (fun r => ProcessAnalytics.patternType r = "step_change"%string
                        /\ (10 <= List.length data)%nat
                        /\ exists p, In p parameters
                                     /\ ProcessAnalytics.affectedParameters r = [p]) steps
    /\ Forall (fun r => ProcessAnalytics.patternType r = "correlation"%string
                        /\ (3 <= List.length data)%nat
                        /\ ProcessAnalytics.supportingData r = []
                        /\ exists p1 p2, precedes p1 p2 parameters
                                         /\ ProcessAnalytics.affectedParameters r = [p1; p2])
              correlations
    /\ List.length correlations
       = List.length (filter ProcessAnalytics.significant
                        (ProcessAnalytics.analyzeCorrelations this data parameters)).
Proof.
  unfold ProcessAnalytics.recognizePatterns.
  set (sortedData := ProcessAnalytics.sortByTime data timeField).
  assert (Hlen : List.length sortedData = List.length data) by apply sortByTime_length.
  eexists. eexists. eexists. eexists. split; [reflexivity|].
  split; [|split; [|split; [|split]]].
  - apply Forall_forall. intros r Hr. apply in_flat_map in Hr as (p & Hp & Hr).
    destruct (ProcessAnalytics.detectCyclicalPattern sortedData p) as [r'|] eqn:E;
      [|contradiction].
    destruct Hr as [<- | []].
    destruct (detectCyclicalPattern_some sortedData p r' E) as (H1 & H2 & H3).
    split; [exact H2|]. split; [lia|]. now exists p.
  - apply Forall_forall. intros r Hr. apply in_flat_map in Hr as (p & Hp & Hr).
    destruct (ProcessAnalytics.detectTrendPattern this sortedData p) as [r'|] eqn:E;
      [|contradiction].
    destruct Hr as [<- | []].
    destruct (detectTrendPattern_some this sortedData p r' E) as (H1 & H2 & H3).
    split; [exact H2|]. split; [lia|]. now exists p.
  - apply Forall_forall. intros r Hr. apply in_flat_map in Hr as (p & Hp & Hr).
    destruct (ProcessAnalytics.detectStepChangePattern this sortedData p) as [r'|] eqn:E;
      [|contradiction].
    destruct Hr as [<- | []].
    destruct (detectStepChangePattern_some this sortedData p r' E) as (H1 & H2 & H3).
    split; [exact H2|]. split; [lia|]. now exists p.
  - apply Forall_forall. intros r Hr. apply in_map_iff in Hr as (c & <- & Hc).
    apply filter_In in Hc as [Hc _].
    apply analyzeCorrelations_in in Hc as (p1 & p2 & Hp & Hc).
    pose proof (correlate_some this data p1 p2 c Hc) as (H1 & H2 & _ & Hge & Hle).
    cbn. split; [reflexivity|]. split; [lia|]. split; [reflexivity|].
    exists p1, p2. rewrite H1, H2. split; [now apply parameterPairs_in | reflexivity].
  - now rewrite length_map.
Qed.

(** With fewer than three records nothing is reported; with fewer than
    five there is no prediction and no trend pattern; with fewer than ten
    no cyclical pattern and no step change. *)
Theorem analytics_need_enough_records `{rt : Runtime} (this : ProcessAnalytics.t)
    (data : list Record) (timeField : string) (parameters : list string) :
  ((List.length data < 3)%nat ->
   ProcessAnalytics.analyzeCorrelations this data parameters = []
   /\ ProcessAnalytics.recognizePatterns this data timeField parameters = [])
  /\ ((List.length data < 5)%nat ->
      ProcessAnalytics.generatePredictions this data timeField parameters = []
      /\ Forall (fun r => ProcessAnalytics.patternType r = "correlation"%string)
                (ProcessAnalytics.recognizePatterns this data timeField parameters))
  /\ ((List.length data < 10)%nat ->
      Forall (fun r => ProcessAnalytics.patternType r = "trend"%string
                       \/ ProcessAnalytics.patternType r = "correlation"%string)
             (ProcessAnalytics.recognizePatterns this data timeField parameters)).
Proof.
  assert (Hcorr : (List.length data < 3)%nat ->
                  ProcessAnalytics.analyzeCorrelations this data parameters = []).
  { intros Hlt.
    destruct (ProcessAnalytics.analyzeCorrelations this data parameters) as [|c r] eqn:E;
      [reflexivity|].
    assert (Hc : In c (ProcessAnalytics.analyzeCorrelations this data parameters))
      by (rewrite E; now left).
    apply analyzeCorrelations_in in Hc as (p1 & p2 & _ & Hc).
    pose proof (correlate_some this data p1 p2 c Hc) as (_ & _ & _ & ? & ?). lia. }
  set (sortedData := ProcessAnalytics.sortByTime data timeField).
  assert (Hlen : List.length sortedData = List.length data) by apply sortByTime_length.
  assert (Hcyc : (List.length data < 10)%nat ->
                 flat_map (fun param => ProcessAnalytics.detected
                             (ProcessAnalytics.detectCyclicalPattern sortedData param))
                          parameters = []).
  { intros Hlt. apply flat_map_nil. intros p _.
    destruct (ProcessAnalytics.detectCyclicalPattern sortedData p) as [r|] eqn:E;
      [|reflexivity].
    apply detectCyclicalPattern_some in E as (? & _). lia. }
  assert (Hstep : (List.length data < 10)%nat ->
                  flat_map (fun param => ProcessAnalytics.detected
                              (ProcessAnalytics.detectStepChangePattern this sortedData param))
                           parameters = []).
  { intros Hlt. apply flat_map_nil. intros p _.
    destruct (ProcessAnalytics.detectStepChangePattern this sortedData p) as [r|] eqn:E;
      [|reflexivity].
    apply detectStepChangePattern_some in E as (? & _). lia. }
  assert (Htrend : (List.length data < 5)%nat ->
                   flat_map (fun param => ProcessAnalytics.detected
                               (ProcessAnalytics.detectTrendPattern this sortedData param))
                            parameters = []).
  { intros Hlt. apply flat_map_nil. intros p _.
    destruct (ProcessAnalytics.detectTrendPattern this sortedData p) as [r|] eqn:E;
      [|reflexivity].
    apply detectTrendPattern_some in E as (? & _). lia. }
  split; [|split].
  - intros Hlt. split; [now apply Hcorr|].
    unfold ProcessAnalytics.recognizePatterns. fold sortedData.
    rewrite Hcyc, Hstep, Htrend, (Hcorr Hlt) by lia. reflexivity.
  - intros Hlt. split.
    + unfold ProcessAnalytics.generatePredictions. fold sortedData.
      apply flat_map_nil. intros p _. unfold ProcessAnalytics.predict.
      pose proof (timeSeries_le sortedData timeField p).
      destruct (Nat.ltb_spec (List.length (ProcessAnalytics.timeSeries sortedData timeField p)) 5);
        [reflexivity | lia].
    + unfold ProcessAnalytics.recognizePatterns. fold sortedData.
      rewrite Hcyc, Hstep, Htrend by lia. cbn [app].
      apply Forall_forall. intros r Hr. apply in_map_iff in Hr as (c & <- & _). reflexivity.
  - intros Hlt. unfold ProcessAnalytics.recognizePatterns. fold sortedData.
    rewrite Hcyc, Hstep by lia. cbn [app]. apply Forall_app. split.
    + apply Forall_forall. intros r Hr. apply in_flat_map in Hr as (p & _ & Hr).
      destruct (ProcessAnalytics.detectTrendPattern this sortedData p) as [r'|] eqn:E;
        [|contradiction].
      destruct Hr as [<- | []]. left. now apply detectTrendPattern_some in E.
    + apply Forall_forall. intros r Hr. apply in_map_iff in Hr as (c & <- & _). now right.
Qed.

Lemma analytics_need_enough_records_witness :
  (List.length [batch "1"; batch "2"] < 3)%nat
  /\ @ProcessAnalytics.analyzeCorrelations exampleRuntime defaultAnalytics
       [batch "1"; batch "2"] ["Success"; "ProcessType"]%string = []
  /\ @ProcessAnalytics.generatePredictions exampleRuntime defaultAnalytics
       [batch "1"; batch "2"] "Timestamp" ["Success"; "ProcessType"]%string = [].
Proof.
  destruct (@analytics_need_enough_records exampleRuntime defaultAnalytics
              [batch "1"; batch "2"] "Timestamp" ["Success"; "ProcessType"]%string)
    as (H3 & H5 & _).
  split; [cbn; lia|].
  split; [apply H3; cbn; lia | apply H5; cbn; lia].
Defined.

(* ================================================================== *)
(** ** The clamping of the Wilson interval *)

(** *** [Math.max] and [Math.min] *)

Lemma ltb_false_of_le (x y : float) :
  isNaN x = false -> isNaN y = false -> (y <? x) = false -> (x <=? y) = true.
Proof.
  intros Hx Hy. rewrite ltb_place, leb_place by assumption.
  intros H. apply Z.ltb_ge in H. now apply Z.leb_le.
Qed.

Lemma Math_max_cases (a b : float) :
  (isNaN (Math_max a b) = true /\ (isNaN a = true \/ isNaN b = true))
  \/ (isNaN a = false /\ isNaN b = false
      /\ (Math_max a b = a \/ Math_max a b = b)
      /\ fplace (Math_max a b) = Z.max (fplace a) (fplace b)).
Proof.
  unfold Math_max. destruct (isNaN a) eqn:Ha; [left; split; [reflexivity | now left]|].
  destruct (isNaN b) eqn:Hb; [left; split; [reflexivity | now right]|].
  right. cbn [orb]. split; [reflexivity|]. split; [reflexivity|].
  rewrite !ltb_place by assumption.
  destruct (Z.ltb_spec (fplace a) (fplace b)); [split; [now right | lia]|].
  destruct (Z.ltb_spec (fplace b) (fplace a)); [split; [now left | lia]|].
  destruct (is_neg_zero a); split; auto; lia.
Qed.

Lemma Math_min_cases (a b : float) :
  (isNaN (Math_min a b) = true /\ (isNaN a = true \/ isNaN b = true))
  \/ (isNaN a = false /\ isNaN b = false
      /\ (Math_min a b = a \/ Math_min a b = b)
      /\ fplace (Math_min a b) = Z.min (fplace a) (fplace b)).
Proof.
  unfold Math_min. destruct (isNaN a) eqn:Ha; [left; split; [reflexivity | now left]|].
  destruct (isNaN b) eqn:Hb; [left; split; [reflexivity | now right]|].
  right. cbn [orb]. split; [reflexivity|]. split; [reflexivity|].
  rewrite !ltb_place by assumption.
  destruct (Z.ltb_spec (fplace a) (fplace b)); [split; [now left | lia]|].
  destruct (Z.ltb_spec (fplace b) (fplace a)); [split; [now right | lia]|].
  destruct (is_neg_zero a); split; auto; lia.
Qed.

Lemma fplace_one : fplace 1 = (2 ^ 1074)%Z.
Proof. reflexivity. Qed.

(** [Math.max(0, x)] is never below 0, [Math.min(1, x)] never above 1. *)
Lemma Math_max_zero (x : float) : (Math_max 0 x <? 0) = false.
Proof.
  destruct (Math_max_cases 0 x) as [[Hn _] | (H0 & Hx & _ & Hp)].
  - apply ltb_nan. now left.
  - assert (Hm : isNaN (Math_max 0 x) = false).
    { unfold Math_max. rewrite H0, Hx. cbn [orb].
      destruct (0 <? x); [exact Hx|]. destruct (x <? 0); [exact H0|].
      now destruct (is_neg_zero 0). }
    rewrite ltb_place by assumption. rewrite Hp, fplace_zero. apply Z.ltb_ge. lia.
Qed.

Lemma Math_min_one (x : float) : (1 <? Math_min 1 x) = false.
Proof.
  destruct (Math_min_cases 1 x) as [[Hn _] | (H1 & Hx & _ & Hp)].
  - apply ltb_nan. now right.
  - assert (Hm : isNaN (Math_min 1 x) = false).
    { unfold Math_min. rewrite H1, Hx. cbn [orb].
      destruct (1 <? x); [exact H1|]. destruct (x <? 1); [exact Hx|].
      now destruct (is_neg_zero 1). }
    rewrite ltb_place by assumption. rewrite Hp. apply Z.ltb_ge. lia.
Qed.

(** The Wilson interval never leaves [0, 1]: its lower end is not below 0
    and its upper end not above 1, whatever the counts and the level. *)
Theorem calculateWilsonInterval_clamped `{rt : Runtime} (successes total : nat)
    (confidenceLevel : float) :
  let '(lower, upper) :=
    KPICalculator.calculateWilsonInterval successes total confidenceLevel in
  (lower <? 0) = false /\ (1 <? upper) = false
  /\ (total = 0%nat -> lower = 0 /\ upper = 0).
Proof.
  unfold KPICalculator.calculateWilsonInterval.
  destruct (Nat.eqb_spec total 0) as [-> | Hne].
  - repeat split; reflexivity.
  - cbv zeta. split; [apply Math_max_zero|]. split; [apply Math_min_one|]. contradiction.
Qed.

(* ================================================================== *)
(** ** Outliers, minimum and maximum of the durations *)

Lemma in_window {A} (l : list A) (start count : nat) (d x : A) :
  In x (firstn count (skipn start l)) ->
  exists j, (start <= j < start + count)%nat /\ (j < List.length l)%nat /\ x = nth j l d.
Proof.
  intros Hin. apply (In_nth _ _ d) in Hin as (i & Hi & Hx).
  rewrite length_firstn, length_skipn in Hi.
  exists (start + i)%nat. split; [lia|]. split; [lia|].
  rewrite <- Hx, nth_firstn.
  destruct (Nat.ltb_spec i count); [|lia]. now rewrite nth_skipn.
Qed.

Lemma filter_window_length {A} (p : A -> bool) (l : list A) (start count : nat) :
  (start + count <= List.length l)%nat ->
  (forall x, In x (firstn count (skipn start l)) -> p x = true) ->
  (count <= List.length (filter p l))%nat.
Proof.
  intros Hlen Hall.
  rewrite <- (firstn_skipn start l) at 1.
  rewrite <- (firstn_skipn count (skipn start l)) at 1.
  rewrite !filter_app, !length_app.
  assert (E : filter p (firstn count (skipn start l)) = firstn count (skipn start l)).
  { apply forallb_filter_id. apply forallb_forall. exact Hall. }
  rewrite E, length_firstn, length_skipn. lia.
Qed.

(** The values between the quartiles are never outliers. *)
Lemma between_quartiles_kept (k q1 q3 v : float) :
  (0 <=? k) = true -> isNaN q1 = false -> isNaN q3 = false -> isNaN v = false ->
  (fplace q1 <= fplace v <= fplace q3)%Z ->
  (v <? q1 - k * (q3 - q1)) || (q3 + k * (q3 - q1) <? v) = false.
Proof.
  intros Hk N1 N3 Nv [H1 H3].
  assert (H13 : (fplace q1 <= fplace q3)%Z) by lia.
  pose proof (spread_nonneg k q1 q3 Hk N1 N3 H13) as He. cbv zeta in He.
  set (e := k * (q3 - q1)) in *.
  apply orb_false_iff. split.
  - destruct He as [Ne | [Ne He]].
    + apply ltb_nan. right. apply nan_sub. now right.
    + destruct (sub_cases q1 e N1 Ne) as [[Hn _] | (Hn & _ & Hle & _)].
      * apply ltb_nan. now right.
      * rewrite ltb_place by assumption. apply Z.ltb_ge. specialize (Hle He). lia.
  - destruct He as [Ne | [Ne He]].
    + apply ltb_nan. left. apply nan_add. now right.
    + destruct (add_cases q3 e N3 Ne) as [Hn | (Hn & Hge & _)].
      * apply ltb_nan. now left.
      * rewrite ltb_place by assumption. apply Z.ltb_ge. specialize (Hge He). lia.
Qed.

(** With a threshold [k >= 0], [detectOutliers] keeps every value that
    lies between the two quartile values, and so more than half of the
    values. *)
Lemma detectOutliers_majority (values : list float) (k : float) :
  values <> [] -> numeric values -> (0 <=? k) = true ->
  let sortedValues := sort (fun a b => a - b) values in
  let q1 := nth (List.length sortedValues / 4) sortedValues nan in
  let q3 := nth (List.length sortedValues * 3 / 4) sortedValues nan in
  (forall v, In v values -> (q1 <=? v) = true -> (v <=? q3) = true ->
             In v (fst (KPICalculator.detectOutliers values k)))
  /\ (List.length values < 2 * List.length (fst (KPICalculator.detectOutliers values k)))%nat.
Proof.
  intros Hne Hnum Hk sortedValues q1 q3.
  pose proof (sort_perm (fun a b => a - b) values) as Hperm. fold sortedValues in Hperm.
  pose proof (sort_sorted _ _ values (numeric_orders values Hnum)) as Hsorted.
  fold sortedValues in Hsorted.
  set (n := List.length sortedValues).
  assert (Hn : n = List.length values) by (symmetry; apply Permutation_length, Hperm).
  assert (Hlen : (0 < n)%nat) by (rewrite Hn; destruct values; [congruence | cbn; lia]).
  pose proof (Nat.div_mod_eq n 4) as D1.
  pose proof (Nat.mod_upper_bound n 4 ltac:(lia)) as M1.
  pose proof (Nat.div_mod_eq (n * 3) 4) as D3.
  pose proof (Nat.mod_upper_bound (n * 3) 4 ltac:(lia)) as M3.
  assert (Hi3 : (n * 3 / 4 < n)%nat) by lia.
  assert (Hi13 : (n / 4 <= n * 3 / 4)%nat) by lia.
  unfold numeric in Hnum. rewrite Forall_forall in Hnum.
  assert (Hnums : forall j, (j < n)%nat -> isNaN (nth j sortedValues nan) = false).
  { intros j Hj. apply Hnum. apply (Permutation_in _ (Permutation_sym Hperm)).
    now apply nth_In. }
  pose proof (Hnums (n / 4)%nat ltac:(lia)) as N1. fold q1 in N1.
  pose proof (Hnums (n * 3 / 4)%nat Hi3) as N3. fold q3 in N3.
  assert (Hclean : fst (KPICalculator.detectOutliers values k)
                   = filter (fun value => negb ((value <? q1 - k * (q3 - q1))
                                                || (q3 + k * (q3 - q1) <? value))) values).
  { unfold KPICalculator.detectOutliers. destruct values as [|v vs]; [congruence|]. reflexivity. }
  rewrite Hclean.
  set (keep := fun value => negb ((value <? q1 - k * (q3 - q1))
                                  || (q3 + k * (q3 - q1) <? value))).
  split.
  - intros v Hv H1 H3. apply filter_In. split; [exact Hv|].
    pose proof (Hnum v Hv) as Nv.
    rewrite leb_place in H1, H3 by assumption. apply Z.leb_le in H1, H3.
    unfold keep. now rewrite between_quartiles_kept.
  - rewrite (filter_length_perm _ values sortedValues Hperm). rewrite <- Hn.
    assert (Hw : (n * 3 / 4 - n / 4 + 1 <= List.length (filter keep sortedValues))%nat).
    { apply (filter_window_length _ sortedValues (n / 4)); [fold n; lia|].
      intros x Hx. apply (in_window _ _ _ nan) in Hx as (j & Hj & Hjn & ->). fold n in Hjn.
      pose proof (sorted_nth fplace sortedValues nan Hsorted (n / 4)%nat j ltac:(lia) Hjn) as L1.
      pose proof (sorted_nth fplace sortedValues nan Hsorted j (n * 3 / 4)%nat ltac:(lia) Hi3) as L3.
      fold q1 in L1. fold q3 in L3. unfold key_le in L1, L3.
      unfold keep. rewrite between_quartiles_kept; auto. }
    lia.
Qed.

Lemma fplace_le_infinity (x : float) : (fplace x <= fplace infinity)%Z.
Proof.
  unfold fplace. pose proof (place_bounds (Prim2SF x) (FloatAxioms.Prim2SF_valid x)) as H.
  change (place (Prim2SF infinity)) with (2 ^ 2100)%Z. lia.
Qed.

Lemma fplace_ge_neg_infinity (x : float) : (fplace neg_infinity <= fplace x)%Z.
Proof.
  unfold fplace. pose proof (place_bounds (Prim2SF x) (FloatAxioms.Prim2SF_valid x)) as H.
  change (place (Prim2SF neg_infinity)) with (- 2 ^ 2100)%Z. lia.
Qed.

Lemma infinite_place (x : float) :
  isNaN x = false ->
  ((fplace infinity <= fplace x)%Z -> x = infinity)
  /\ ((fplace x <= fplace neg_infinity)%Z -> x = neg_infinity).
Proof.
  intros Hx. rewrite isNaN_spec in Hx. unfold fplace.
  pose proof (FloatAxioms.Prim2SF_valid x) as Hv.
  change (place (Prim2SF infinity)) with (2 ^ 2100)%Z.
  change (place (Prim2SF neg_infinity)) with (- 2 ^ 2100)%Z.
  assert (P0 : (0 < 2 ^ 2098)%Z) by (apply Z.pow_pos_nonneg; lia).
  assert (P1 : (2 ^ 2098 < 2 ^ 2100)%Z) by (apply Z.pow_lt_mono_r; lia).
  destruct (Prim2SF x) as [s | s | | s m e] eqn:E.
  - cbn. split; lia.
  - destruct s; cbn; (split; [intros H | intros H]); try lia.
    + apply FloatAxioms.Prim2SF_inj. now rewrite E.
    + apply FloatAxioms.Prim2SF_inj. now rewrite E.
  - discriminate.
  - cbn [valid_binary] in Hv. destruct (finite_place s m e Hv) as (C & _ & HC & ->).
    destruct s; cbn [cond_Zopp]; split; lia.
Qed.

Lemma Math_min_infinity (x : float) : isNaN x = false -> Math_min infinity x = x.
Proof.
  intros Hx. unfold Math_min. rewrite Hx. cbn [isNaN orb].
  change (isNaN infinity) with false. cbn [orb].
  rewrite !ltb_place by (auto; reflexivity).
  pose proof (fplace_le_infinity x).
  destruct (Z.ltb_spec (fplace infinity) (fplace x)); [lia|].
  destruct (Z.ltb_spec (fplace x) (fplace infinity)); reflexivity.
Qed.

Lemma Math_max_neg_infinity (x : float) : isNaN x = false -> Math_max neg_infinity x = x.
Proof.
  intros Hx. unfold Math_max. rewrite Hx.
  change (isNaN neg_infinity) with false. cbn [orb].
  rewrite !ltb_place by (auto; reflexivity).
  pose proof (fplace_ge_neg_infinity x).
  destruct (Z.ltb_spec (fplace neg_infinity) (fplace x)); [reflexivity|].
  destruct (Z.ltb_spec (fplace x) (fplace neg_infinity)); [lia|].
  change (is_neg_zero neg_infinity) with false. cbv iota.
  symmetry. now apply infinite_place.
Qed.

Lemma fold_Math_min (xs : list float) (acc : float) :
  isNaN acc = false -> numeric xs ->
  let r := fold_left Math_min xs acc in
  isNaN r = false /\ (r = acc \/ In r xs)
  /\ (fplace r <= fplace acc)%Z /\ Forall (fun v => (fplace r <= fplace v)%Z) xs.
Proof.
  revert acc. induction xs as [|x rest IH]; intros acc Ha Hn; cbn [fold_left].
  - repeat split; auto. lia.
  - inversion Hn as [|? ? Hx Hrest]; subst.
    destruct (Math_min_cases acc x) as [[_ [H | H]] | (_ & _ & Hor & Hp)]; try congruence.
    assert (Hm : isNaN (Math_min acc x) = false) by (destruct Hor as [-> | ->]; assumption).
    destruct (IH (Math_min acc x) Hm Hrest) as (Hr & Hin & Hle & Hall).
    split; [exact Hr|]. split; [|split].
    + destruct Hin as [-> | Hin]; [|right; now right].
      destruct Hor as [-> | ->]; [now left | right; now left].
    + lia.
    + constructor; [lia | exact Hall].
Qed.

Lemma fold_Math_max (xs : list float) (acc : float) :
  isNaN acc = false -> numeric xs ->
  let r := fold_left Math_max xs acc in
  isNaN r = false /\ (r = acc \/ In r xs)
  /\ (fplace acc <= fplace r)%Z /\ Forall (fun v => (fplace v <= fplace r)%Z) xs.
Proof.
  revert acc. induction xs as [|x rest IH]; intros acc Ha Hn; cbn [fold_left].
  - repeat split; auto. lia.
  - inversion Hn as [|? ? Hx Hrest]; subst.
    destruct (Math_max_cases acc x) as [[_ [H | H]] | (_ & _ & Hor & Hp)]; try congruence.
    assert (Hm : isNaN (Math_max acc x) = false) by (destruct Hor as [-> | ->]; assumption).
    destruct (IH (Math_max acc x) Hm Hrest) as (Hr & Hin & Hle & Hall).
    split; [exact Hr|]. split; [|split].
    + destruct Hin as [-> | Hin]; [|right; now right].
      destruct Hor as [-> | ->]; [now left | right; now left].
    + lia.
    + constructor; [lia | exact Hall].
Qed.

(** [Math.min(...xs)] and [Math.max(...xs)] of numbers: a value of the
    list that none is below, respectively above. *)
Lemma Math_min_list_spec (xs : list float) :
  xs <> [] -> numeric xs ->
  isNaN (Math_min_list xs) = false /\ In (Math_min_list xs) xs
  /\ Forall (fun v => (Math_min_list xs <=? v) = true) xs.
Proof.
  intros Hne Hn. destruct xs as [|x rest]; [congruence|].
  inversion Hn as [|? ? Hx Hrest]; subst.
  unfold Math_min_list. cbn [fold_left]. rewrite (Math_min_infinity x Hx).
  destruct (fold_Math_min rest x Hx Hrest) as (Hr & Hin & Hle & Hall).
  split; [exact Hr|]. split; [destruct Hin as [-> | Hin]; [now left | now right]|].
  constructor.
  - rewrite leb_place by assumption. now apply Z.leb_le.
  - rewrite Forall_forall in *. intros v Hv. unfold numeric in Hrest.
    rewrite leb_place by (auto; now apply Hrest). apply Z.leb_le. now apply Hall.
Qed.

Lemma Math_max_list_spec (xs : list float) :
  xs <> [] -> numeric xs ->
  isNaN (Math_max_list xs) = false /\ In (Math_max_list xs) xs
  /\ Forall (fun v => (v <=? Math_max_list xs) = true) xs.
Proof.
  intros Hne Hn. destruct xs as [|x rest]; [congruence|].
  inversion Hn as [|? ? Hx Hrest]; subst.
  unfold Math_max_list. cbn [fold_left]. rewrite (Math_max_neg_infinity x Hx).
  destruct (fold_Math_max rest x Hx Hrest) as (Hr & Hin & Hle & Hall).
  split; [exact Hr|]. split; [destruct Hin as [-> | Hin]; [now left | now right]|].
  constructor.
  - rewrite leb_place by assumption. now apply Z.leb_le.
  - rewrite Forall_forall in *. intros v Hv. unfold numeric in Hrest.
    rewrite leb_place by (auto; now apply Hrest). apply Z.leb_le. now apply Hall.
Qed.

Lemma detectOutliers_complete (values : list float) (k v : float) :
  In v values -> ~ In v (snd (KPICalculator.detectOutliers values k)) ->
  In v (fst (KPICalculator.detectOutliers values k)).
Proof.
  unfold KPICalculator.detectOutliers. destruct values as [|d ds]; [intros []|].
  cbv zeta. cbn [fst snd]. intros Hv Hno. apply filter_In. split; [exact Hv|].
  match goal with
  | |- negb ?b = true => destruct b eqn:Hb; [|reflexivity]
  end.
  exfalso. apply Hno. apply filter_In. now split.
Qed.

(** What [calculateProcessDuration] takes its statistics from. *)
Lemma cleanDurations_spec `{rt : Runtime} (this : KPICalculator.t) (durations : list float) :
  durations <> [] -> numeric durations ->
  (0 <=? num_or (KPICalculator.outlierThreshold this) 1.5) = true ->
  let cleaned := fst (KPICalculator.cleanDurations this durations) in
  let outliers := snd (KPICalculator.cleanDurations this durations) in
  cleaned <> [] /\ numeric cleaned
  /\ (forall v, In v cleaned <-> In v durations /\ ~ In v outliers)
  /\ (forall v, In v outliers -> In v durations)
  /\ (List.length cleaned + List.length outliers = List.length durations)%nat
  /\ (List.length durations < 2 * List.length cleaned)%nat.
Proof.
  intros Hne Hnum Hk. unfold KPICalculator.cleanDurations.
  destruct (truthy_bool (KPICalculator.outlierDetection this)).
  - destruct (detectOutliers_majority durations _ Hne Hnum Hk) as [_ Hmaj].
    pose proof (detectOutliers_partition durations (num_or (KPICalculator.outlierThreshold this) 1.5))
      as Hpart.
    pose proof (detectOutliers_complete durations
                  (num_or (KPICalculator.outlierThreshold this) 1.5)) as Hin.
    destruct (KPICalculator.detectOutliers durations
                (num_or (KPICalculator.outlierThreshold this) 1.5)) as [cleanData outliers].
    cbn [fst snd] in *. destruct Hpart as (Hlen & Hclean & Hout).
    split; [intros ->; cbn in Hmaj; lia|].
    split.
    { unfold numeric in *. rewrite Forall_forall in *. intros v Hv. apply Hnum.
      now apply Hclean. }
    split; [intros v; split; [apply Hclean | intros [? ?]; now apply Hin]|].
    split; [exact Hout|]. split; [exact Hlen | exact Hmaj].
  - cbn [fst snd]. split; [exact Hne|]. split; [exact Hnum|].
    split; [intros v; cbn; tauto|]. split; [intros v []|].
    cbn [List.length]. split; [lia|]. destruct durations; [congruence | cbn; lia].
Qed.

(** Outlier removal with a threshold [k >= 0] drops fewer than half of
    the numeric durations, in every result that the call returns. *)
Theorem calculateProcessDuration_outliers_minority `{rt : Runtime} (this : KPICalculator.t)
    (data : list Record) (durationField : string)
    (result : KPICalculator.ProcessDurationResult) :
  KPICalculator.calculateProcessDuration this data durationField = Some result ->
  (0 <=? num_or (KPICalculator.outlierThreshold this) 1.5) = true ->
  (forall v, In v (KPICalculator.outliers result) ->
             In v (KPICalculator.numericValues data durationField))
  /\ ((KPICalculator.sampleSize result = 0%nat /\ KPICalculator.outliers result = [])
      \/ (2 * List.length (KPICalculator.outliers result)
          < KPICalculator.sampleSize result)%nat).
Proof.
  unfold KPICalculator.calculateProcessDuration.
  set (durations := KPICalculator.numericValues data durationField).
  destruct (Nat.eqb_spec (List.length durations) 0) as [Hz | Hnz].
  - intros [= <-] Hk. cbn. split; [intros v []|]. now left.
  - intros Hres Hk.
    assert (Hne : durations <> []) by (intros E; rewrite E in Hnz; now apply Hnz).
    destruct (cleanDurations_spec this durations Hne (numericValues_numeric data durationField) Hk)
      as (_ & _ & _ & Hout & Hlen & Hmaj).
    destruct (KPICalculator.cleanDurations this durations) as [cleaned outliers].
    destruct (Math_min_spread cleaned); [|discriminate].
    destruct (Math_max_spread cleaned); [|discriminate].
    injection Hres as <-.
    cbn [fst snd KPICalculator.outliers KPICalculator.sampleSize] in *.
    split; [exact Hout|]. right. lia.
Qed.

Lemma calculateProcessDuration_outliers_minority_witness :
  exists result,
    @KPICalculator.calculateProcessDuration exampleRuntime defaultCalculator
      timedBatches "Duration" = Some result
    /\ (0 <=? num_or (KPICalculator.outlierThreshold defaultCalculator) 1.5) = true
    /\ forall v,
         In v (KPICalculator.outliers result) ->
         In v (@KPICalculator.numericValues exampleRuntime timedBatches "Duration").
Proof.
  destruct (@KPICalculator.calculateProcessDuration exampleRuntime defaultCalculator
              timedBatches "Duration") as [result|] eqn:E;
    [|vm_compute in E; discriminate].
  exists result. split; [reflexivity|]. split; [reflexivity|].
  exact (proj1 (@calculateProcessDuration_outliers_minority exampleRuntime defaultCalculator
                  timedBatches "Duration" result E eq_refl)).
Defined.

(** The reported minimum and maximum are durations that were kept, and
    every kept duration lies between them, in every result that the call
    returns. *)
Theorem calculateProcessDuration_min_max `{rt : Runtime} (this : KPICalculator.t)
    (data : list Record) (durationField : string)
    (result : KPICalculator.ProcessDurationResult) :
  KPICalculator.calculateProcessDuration this data durationField = Some result ->
  (0 <=? num_or (KPICalculator.outlierThreshold this) 1.5) = true ->
  KPICalculator.numericValues data durationField <> [] ->
  let durations := KPICalculator.numericValues data durationField in
  In (KPICalculator.min result) durations
  /\ In (KPICalculator.max result) durations
  /\ ~ In (KPICalculator.min result) (KPICalculator.outliers result)
  /\ ~ In (KPICalculator.max result) (KPICalculator.outliers result)
  /\ (KPICalculator.min result <=? KPICalculator.max result) = true
  /\ (forall v, In v durations -> ~ In v (KPICalculator.outliers result) ->
        (KPICalculator.min result <=? v) = true /\ (v <=? KPICalculator.max result) = true).
Proof.
  intros Hres Hk Hne durations. revert Hres.
  unfold KPICalculator.calculateProcessDuration. fold durations.
  destruct (Nat.eqb_spec (List.length durations) 0) as [Hz | Hnz].
  - exfalso. apply Hne. fold durations. now apply length_zero_iff_nil.
  - destruct (cleanDurations_spec this durations Hne (numericValues_numeric data durationField) Hk)
      as (Hcne & Hcnum & Hin & _).
    destruct (KPICalculator.cleanDurations this durations) as [cleaned outliers].
    unfold Math_min_spread, Math_max_spread.
    destruct (spread_arguments cleaned) as [arguments|] eqn:Hspread; [|discriminate].
    assert (arguments = cleaned) as ->.
    { unfold spread_arguments in Hspread.
      destruct (N.of_nat (List.length cleaned) <=? argumentLimit)%N; congruence. }
    cbn [option_map]. intros [= <-].
    cbn [fst snd KPICalculator.outliers KPICalculator.min KPICalculator.max] in *.
    destruct (Math_min_list_spec cleaned Hcne Hcnum) as (_ & Hmin & Hlow).
    destruct (Math_max_list_spec cleaned Hcne Hcnum) as (_ & Hmax & Hhigh).
    rewrite Forall_forall in Hlow, Hhigh.
    split; [now apply Hin|]. split; [now apply Hin|].
    split; [now apply Hin|]. split; [now apply Hin|].
    split; [now apply Hhigh|].
    intros v Hv Hno. assert (In v cleaned) by now apply Hin. split; auto.
Qed.

Lemma calculateProcessDuration_min_max_witness :
  exists result,
    @KPICalculator.calculateProcessDuration exampleRuntime defaultCalculator
      timedBatches "Duration" = Some result
    /\ (0 <=? num_or (KPICalculator.outlierThreshold defaultCalculator) 1.5) = true
    /\ @KPICalculator.numericValues exampleRuntime timedBatches "Duration" <> []
    /\ (KPICalculator.min result <=? KPICalculator.max result) = true.
Proof.
  destruct (@KPICalculator.calculateProcessDuration exampleRuntime defaultCalculator
              timedBatches "Duration") as [result|] eqn:E;
    [|vm_compute in E; discriminate].
  exists result. split; [reflexivity|]. split; [reflexivity|].
  assert (H : @KPICalculator.numericValues exampleRuntime timedBatches "Duration" <> [])
    by (vm_compute; discriminate).
  split; [exact H|].
  exact (proj1 (proj2 (proj2 (proj2 (proj2
    (@calculateProcessDuration_min_max exampleRuntime defaultCalculator
       timedBatches "Duration" result E eq_refl H)))))).
Defined.

(* ================================================================== *)
(** ** The order of the correlations *)

(** *** Absolute value and negation *)

Lemma abs_place (x : float) :
  isNaN (abs x) = isNaN x /\ fplace (abs x) = Z.abs (fplace x).
Proof.
  rewrite !isNaN_spec. unfold fplace. rewrite FloatAxioms.abs_spec.
  assert (P : (0 < 2 ^ 2100)%Z) by (apply Z.pow_pos_nonneg; lia).
  destruct (Prim2SF x) as [s | s | | s m e]; cbn [SFabs is_nan place scaled cond_Zopp].
  - split; reflexivity.
  - split; [reflexivity|]. destruct s; cbn [cond_Zopp]; lia.
  - split; reflexivity.
  - split; [reflexivity|].
    assert (0 < Zpos m * 2 ^ (e + 1074) \/ Zpos m * 2 ^ (e + 1074) = 0)%Z as Hm.
    { destruct (Z.le_gt_cases 0 (e + 1074)) as [He | He].
      - left. apply Z.mul_pos_pos; [lia | apply Z.pow_pos_nonneg; lia].
      - right. rewrite Z.pow_neg_r by lia. lia. }
    destruct s; cbn [cond_Zopp]; lia.
Qed.

(** The comparator of [analyzeCorrelations] orders by decreasing absolute
    value of the coefficient. *)
Lemma byStrength_orders `{rt : Runtime} (l : list ProcessAnalytics.CorrelationResult) :
  Forall (fun c => isNaN (ProcessAnalytics.correlationCoefficient c) = false) l ->
  orders_by (fun a b => Math_abs (ProcessAnalytics.correlationCoefficient b)
                        - Math_abs (ProcessAnalytics.correlationCoefficient a))
            (fun c => (- Z.abs (fplace (ProcessAnalytics.correlationCoefficient c)))%Z) l.
Proof.
  intros Hn x y Hx Hy. rewrite Forall_forall in Hn. unfold Math_abs.
  destruct (abs_place (ProcessAnalytics.correlationCoefficient x)) as [Nx Px].
  destruct (abs_place (ProcessAnalytics.correlationCoefficient y)) as [Ny Py].
  rewrite sub_positive by (rewrite ?Nx, ?Ny; auto).
  rewrite Px, Py.
  destruct (Z.ltb_spec (Z.abs (fplace (ProcessAnalytics.correlationCoefficient x)))
                       (Z.abs (fplace (ProcessAnalytics.correlationCoefficient y))));
    symmetry; [apply Z.ltb_lt | apply Z.ltb_ge]; lia.
Qed.

(** [analyzeCorrelations] returns the strongest correlation first: when
    no coefficient is NaN, no result has a smaller absolute coefficient
    than a later one. *)
Theorem analyzeCorrelations_strongest_first `{rt : Runtime} (this : ProcessAnalytics.t)
    (data : list Record) (parameters : list string) :
  let results := ProcessAnalytics.analyzeCorrelations this data parameters in
  Forall (fun c => isNaN (ProcessAnalytics.correlationCoefficient c) = false) results ->
  StronglySorted
    (fun a b => (Math_abs (ProcessAnalytics.correlationCoefficient a)
                 <? Math_abs (ProcessAnalytics.correlationCoefficient b)) = false)
    results.
Proof.
  intros results Hn. unfold results, ProcessAnalytics.analyzeCorrelations in *.
  set (unsorted := flat_map _ _) in *.
  set (cmp := fun a b => Math_abs (ProcessAnalytics.correlationCoefficient b)
                         - Math_abs (ProcessAnalytics.correlationCoefficient a)) in *.
  assert (Hu : Forall (fun c => isNaN (ProcessAnalytics.correlationCoefficient c) = false)
                      unsorted).
  { rewrite Forall_forall in *. intros c Hc. apply Hn.
    apply (Permutation_in _ (sort_perm cmp unsorted)), Hc. }
  apply (StronglySorted_weaken
           (key_le (fun c => (- Z.abs (fplace (ProcessAnalytics.correlationCoefficient c)))%Z))).
  - intros a b Ha Hb Hab. rewrite Forall_forall in Hn.
    destruct (abs_place (ProcessAnalytics.correlationCoefficient a)) as [Na Pa].
    destruct (abs_place (ProcessAnalytics.correlationCoefficient b)) as [Nb Pb].
    unfold Math_abs. rewrite ltb_place by (rewrite ?Na, ?Nb; auto).
    rewrite Pa, Pb. unfold key_le in Hab. apply Z.ltb_ge. lia.
  - apply sort_sorted. now apply byStrength_orders.
Qed.

Lemma analyzeCorrelations_strongest_first_witness :
  let results :=
    @ProcessAnalytics.analyzeCorrelations exampleRuntime defaultAnalytics measurements
      ["x"; "y"; "z"]%string in
  List.length results = 3%nat
  /\ Forall (fun c => isNaN (ProcessAnalytics.correlationCoefficient c) = false) results
  /\ StronglySorted
       (fun a b => (Math_abs (ProcessAnalytics.correlationCoefficient a)
                    <? Math_abs (ProcessAnalytics.correlationCoefficient b)) = false)
       results.
Proof.
  intros results.
  assert (H : Forall (fun c => isNaN (ProcessAnalytics.correlationCoefficient c) = false)
                     results) by (vm_compute; repeat constructor).
  split; [vm_compute; reflexivity|]. split; [exact H|].
  exact (@analyzeCorrelations_strongest_first exampleRuntime defaultAnalytics measurements
           ["x"; "y"; "z"]%string H).
Defined.

(* ================================================================== *)
(** ** Groups that are significantly better *)

(** A group is significantly better only than a group whose mean is
    strictly worse. *)
Lemma significantlyBetterThan_strict `{rt : Runtime} (this : ProcessAnalytics.t)
    (higherIsBetter : bool) (p q : ProcessAnalytics.Performance) :
  ProcessAnalytics.significantlyBetterThan this higherIsBetter p q = true ->
  isNaN (ProcessAnalytics.average p) = false
  /\ isNaN (ProcessAnalytics.average q) = false
  /\ (rankingKey higherIsBetter p < rankingKey higherIsBetter q)%Z.
Proof.
  unfold ProcessAnalytics.significantlyBetterThan, rankingKey.
  set (diff := ProcessAnalytics.average p - ProcessAnalytics.average q).
  intros H.
  assert (Hdir : (if higherIsBetter then 0 <? diff else diff <? 0) = true).
  { destruct (if higherIsBetter then 0 <? diff else diff <? 0); [reflexivity | discriminate]. }
  clear H.
  assert (Nd : isNaN diff = false).
  { destruct (isNaN diff) eqn:E; [|reflexivity].
    destruct higherIsBetter; rewrite ltb_nan in Hdir by auto; discriminate. }
  assert (Np : isNaN (ProcessAnalytics.average p) = false).
  { destruct (isNaN (ProcessAnalytics.average p)) eqn:E; [|reflexivity].
    unfold diff in Nd. rewrite nan_sub in Nd by auto. discriminate. }
  assert (Nq : isNaN (ProcessAnalytics.average q) = false).
  { destruct (isNaN (ProcessAnalytics.average q)) eqn:E; [|reflexivity].
    unfold diff in Nd. rewrite nan_sub in Nd by auto. discriminate. }
  split; [exact Np|]. split; [exact Nq|].
  destruct (sub_cases _ _ Np Nq) as [[Hn _] | (_ & Hc & _)]; [fold diff in Hn; congruence|].
  fold diff in Hc.
  destruct higherIsBetter.
  - rewrite ltb_place in Hdir by (auto; reflexivity). rewrite fplace_zero in Hdir.
    apply Z.ltb_lt in Hdir.
    destruct (Z.compare_spec (fplace diff) 0); try lia.
    destruct (Z.compare_spec (fplace (ProcessAnalytics.average p))
                             (fplace (ProcessAnalytics.average q))); try discriminate. lia.
  - rewrite ltb_place in Hdir by (auto; reflexivity). rewrite fplace_zero in Hdir.
    apply Z.ltb_lt in Hdir.
    destruct (Z.compare_spec (fplace diff) 0); try lia.
    destruct (Z.compare_spec (fplace (ProcessAnalytics.average p))
                             (fplace (ProcessAnalytics.average q))); try discriminate. lia.
Qed.

Lemma filter_all_false {A} (f : A -> bool) (l : list A) :
  (forall x, In x l -> f x = false) -> filter f l = [].
Proof.
  induction l as [|x r IH]; intros H; [reflexivity|]. cbn [filter].
  rewrite (H x) by now left. apply IH. intros y Hy. apply H. now right.
Qed.

Lemma others_split {A} (l : list A) (index : nat) :
  map snd (filter (fun '(i, _) => negb (i =? index)%nat)
                  (combine (seq 0 (List.length l)) l))
  = firstn index l ++ skipn (S index) l.
Proof.
  assert (G : forall start (l : list A),
            map snd (filter (fun '(i, _) => negb (i =? start + index)%nat)
                            (combine (seq start (List.length l)) l))
            = firstn index l ++ skipn (S index) l).
  { clear. induction index as [|index IH]; intros start l.
    - destruct l as [|x r]; [reflexivity|]. cbn [List.length seq combine filter].
      rewrite Nat.add_0_r, Nat.eqb_refl. cbn [negb firstn skipn app].
      rewrite (filter_ext_in _ (fun _ => true)).
      + rewrite forallb_filter_id by now apply forallb_forall.
        apply combine_seq_snd.
      + intros [i y] Hi. apply in_combine_l in Hi. apply in_seq in Hi.
        destruct (Nat.eqb_spec i start); [lia | reflexivity].
    - destruct l as [|x r]; [reflexivity|]. cbn [List.length seq combine filter].
      destruct (Nat.eqb_spec start (start + S index)); [lia|].
      cbn [negb map snd firstn skipn app]. f_equal.
      replace (start + S index)%nat with (S start + index)%nat by lia. apply IH. }
  exact (G 0%nat l).
Qed.

(** In the ranking, a group is significantly better only than groups
    ranked below it: its count is at most the number of those, and the
    group ranked last has count 0. *)
Theorem identifyBestPerformers_counts `{rt : Runtime} (this : ProcessAnalytics.t)
    (data : list Record) (processTypeField performanceField : string)
    (higherIsBetter : bool) (result : list ProcessAnalytics.Performer) :
  ProcessAnalytics.identifyBestPerformers this data processTypeField performanceField
    higherIsBetter = Some result ->
  Forall (fun r => isNaN (ProcessAnalytics.average (ProcessAnalytics.performance r)) = false)
         result ->
  Forall (fun r =>
            (ProcessAnalytics.rank r + ProcessAnalytics.significantlyBetterCount r
             <= List.length result)%nat)
         result.
Proof.
  unfold ProcessAnalytics.identifyBestPerformers.
  destruct (ProcessAnalytics.groupByProcessType data processTypeField) as [processByType|];
    [|discriminate].
  set (groups := ProcessAnalytics.processPerformance this performanceField processByType).
  set (sorted := sort (ProcessAnalytics.comparePerformance higherIsBetter) groups).
  intros [= <-] Hn.
  assert (Hnum : Forall (fun p => isNaN (ProcessAnalytics.average p) = false) sorted).
  { rewrite Forall_forall in *. intros p Hp.
    rewrite <- (ranked_performances this higherIsBetter sorted) in Hp.
    apply in_map_iff in Hp as (r & <- & Hr). now apply Hn. }
  assert (Hg : Forall (fun p => isNaN (ProcessAnalytics.average p) = false) groups).
  { rewrite Forall_forall in *. intros p Hp. apply Hnum.
    apply (Permutation_in _ (sort_perm _ groups)), Hp. }
  pose proof (sort_sorted _ _ groups (comparePerformance_orders higherIsBetter groups Hg))
    as Hsorted. fold sorted in Hsorted.
  rewrite length_map, length_combine, length_seq, Nat.min_id.
  apply Forall_forall. intros r Hr. apply in_map_iff in Hr as ([index p] & <- & Hip).
  assert (Hidx : (index < List.length sorted)%nat /\ p = nth index sorted p).
  { apply (In_nth _ _ (index, p)) in Hip as (j & Hj & Hjp).
    rewrite length_combine, length_seq, Nat.min_id in Hj.
    rewrite combine_nth in Hjp by now rewrite length_seq.
    rewrite seq_nth in Hjp by exact Hj. injection Hjp as <- Hp. split; [exact Hj|].
    cbn [plus]. now rewrite Hp at 1. }
  destruct Hidx as [Hlt Hp].
  cbn [ProcessAnalytics.rankPerformer ProcessAnalytics.rank
       ProcessAnalytics.significantlyBetterCount].
  rewrite others_split, filter_app, length_app.
  assert (Hbefore : filter (ProcessAnalytics.significantlyBetterThan this higherIsBetter p)
                           (firstn index sorted) = []).
  { apply filter_all_false. intros q Hq.
    apply (in_window sorted 0 index p) in Hq as (j & Hj & Hjn & ->).
    pose proof (sorted_nth (rankingKey higherIsBetter) sorted p Hsorted j index
                  ltac:(lia) Hlt) as Hle.
    rewrite <- Hp in Hle. unfold key_le in Hle.
    destruct (ProcessAnalytics.significantlyBetterThan this higherIsBetter p (nth j sorted p))
      eqn:E; [|reflexivity].
    apply significantlyBetterThan_strict in E as (_ & _ & E). lia. }
  rewrite Hbefore. cbn [List.length].
  pose proof (filter_length_le (ProcessAnalytics.significantlyBetterThan this higherIsBetter p)
                (skipn (S index) sorted)) as Hafter.
  rewrite length_skipn in Hafter. lia.
Qed.

Lemma identifyBestPerformers_counts_witness :
  exists result,
    @ProcessAnalytics.identifyBestPerformers exampleRuntime defaultAnalytics twoThenOne
      "ProcessType" "Success" true = Some result
    /\ Forall (fun r => isNaN (ProcessAnalytics.average (ProcessAnalytics.performance r))
                        = false) result
    /\ Forall (fun r => (ProcessAnalytics.rank r + ProcessAnalytics.significantlyBetterCount r
                         <= List.length result)%nat) result.
Proof.
  destruct (@ProcessAnalytics.identifyBestPerformers exampleRuntime defaultAnalytics twoThenOne
              "ProcessType" "Success" true) as [result|] eqn:E;
    [|vm_compute in E; discriminate].
  exists result. split; [reflexivity|].
  assert (H : Forall (fun r => isNaN (ProcessAnalytics.average (ProcessAnalytics.performance r))
                               = false) result).
  { pose proof E as E'. vm_compute in E'. injection E' as <-. repeat constructor. }
  split; [exact H|].
  exact (@identifyBestPerformers_counts exampleRuntime defaultAnalytics twoThenOne
           "ProcessType" "Success" true result E H).
Defined.

(* ================================================================== *)
(** ** The correlation does not depend on the order of its parameters *)

(** *** Multiplication is commutative *)

Lemma SFmul_comm (x y : spec_float) : SF64mul x y = SF64mul y x.
Proof.
  unfold SF64mul, SFmul.
  destruct x as [sx | sx | | sx mx ex], y as [sy | sy | | sy my ey];
    try reflexivity; try (now rewrite xorb_comm).
  now rewrite xorb_comm, Pos.mul_comm, Z.add_comm.
Qed.

Lemma mul_comm (x y : float) : x * y = y * x.
Proof.
  apply FloatAxioms.Prim2SF_inj. rewrite !FloatAxioms.mul_spec. apply SFmul_comm.
Qed.

Lemma sums_swap (pairs : list (float * float)) (a b : float) :
  fold_left (fun '(sumX, sumY) '(x, y) => (sumX + x, sumY + y))
            (map (fun '(x, y) => (y, x)) pairs) (b, a)
  = (let '(sumX, sumY) :=
       fold_left (fun '(sumX, sumY) '(x, y) => (sumX + x, sumY + y)) pairs (a, b) in
     (sumY, sumX)).
Proof.
  revert a b. induction pairs as [|[x y] r IH]; intros a b; [reflexivity|].
  cbn [map fold_left]. apply IH.
Qed.

Lemma products_swap (pairs : list (float * float)) (meanX meanY n dx dy : float) :
  fold_left
    (fun '(numerator, denominatorX, denominatorY) '(x, y) =>
       (numerator + (x - meanY) * (y - meanX),
        denominatorX + (x - meanY) * (x - meanY),
        denominatorY + (y - meanX) * (y - meanX)))
    (map (fun '(x, y) => (y, x)) pairs) (n, dy, dx)
  = (let '(numerator, denominatorX, denominatorY) :=
       fold_left
         (fun '(numerator, denominatorX, denominatorY) '(x, y) =>
            (numerator + (x - meanX) * (y - meanY),
             denominatorX + (x - meanX) * (x - meanX),
             denominatorY + (y - meanY) * (y - meanY)))
         pairs (n, dx, dy) in
     (numerator, denominatorY, denominatorX)).
Proof.
  revert n dx dy. induction pairs as [|[x y] r IH]; intros n dx dy; [reflexivity|].
  cbn [map fold_left]. rewrite (mul_comm (y - meanY) (x - meanX)). apply IH.
Qed.

(** The correlation of y with x is that of x with y, bit for bit. *)
Lemma calculatePearsonCorrelation_swap `{rt : Runtime} (pairs : list (float * float)) :
  ProcessAnalytics.calculatePearsonCorrelation (map (fun '(x, y) => (y, x)) pairs)
  = ProcessAnalytics.calculatePearsonCorrelation pairs.
Proof.
  unfold ProcessAnalytics.calculatePearsonCorrelation. rewrite length_map.
  destruct (List.length pairs <? 2)%nat; [reflexivity|]. cbv zeta.
  rewrite (sums_swap pairs 0 0).
  destruct (fold_left _ pairs (0, 0)) as [sumX sumY]. cbv beta iota.
  rewrite (products_swap pairs (sumX / num_of_nat (List.length pairs))
             (sumY / num_of_nat (List.length pairs)) 0 0 0).
  destruct (fold_left _ pairs (0, 0, 0)) as [[numerator denominatorX] denominatorY].
  cbv beta iota. now rewrite (mul_comm denominatorY denominatorX).
Qed.

Lemma numericPairs_swap `{rt : Runtime} (data : list Record) (param1 param2 : string) :
  ProcessAnalytics.numericPairs data param2 param1
  = map (fun '(x, y) => (y, x)) (ProcessAnalytics.numericPairs data param1 param2).
Proof.
  rewrite !numericPairs_filter, map_map.
  erewrite filter_ext; [reflexivity|]. intros item. apply andb_comm.
Qed.

(** The correlation found for a pair of parameters does not depend on
    which of the two is listed first: coefficient, p-value, significance
    and sample size are the same. *)
Theorem analyzeCorrelations_symmetric `{rt : Runtime} (this : ProcessAnalytics.t)
    (data : list Record) (param1 param2 : string) :
  map (fun c => (ProcessAnalytics.correlationCoefficient c, ProcessAnalytics.pValue c,
                 ProcessAnalytics.significant c, ProcessAnalytics.sampleSize c,
                 ProcessAnalytics.parameter1 c, ProcessAnalytics.parameter2 c))
      (ProcessAnalytics.analyzeCorrelations this data [param2; param1])
  = map (fun c => (ProcessAnalytics.correlationCoefficient c, ProcessAnalytics.pValue c,
                   ProcessAnalytics.significant c, ProcessAnalytics.sampleSize c,
                   ProcessAnalytics.parameter2 c, ProcessAnalytics.parameter1 c))
        (ProcessAnalytics.analyzeCorrelations this data [param1; param2]).
Proof.
  unfold ProcessAnalytics.analyzeCorrelations.
  cbn [ProcessAnalytics.parameterPairs map app flat_map].
  unfold ProcessAnalytics.correlate.
  rewrite (numericPairs_swap data param1 param2), length_map,
    calculatePearsonCorrelation_swap.
  destruct (List.length (ProcessAnalytics.numericPairs data param1 param2) <? 3)%nat;
    reflexivity.
Qed.

(* ================================================================== *)
(** ** The ranking in the dashboard *)

(** *** Integers as floats *)

Lemma representable_int (z : Z) : (0 < z < 2 ^ 53)%Z -> representable (z * 2 ^ 1074).
Proof.
  intros [Hz0 Hz1].
  set (d := (Z.log2 z + 1)%Z).
  assert (Hd : (1 <= d <= 53)%Z).
  { unfold d. pose proof (Z.log2_nonneg z).
    assert (Z.log2 z < 53)%Z by (apply Z.log2_lt_pow2; lia). lia. }
  assert (Hp : (0 < 2 ^ (53 - d))%Z) by (apply Z.pow_pos_nonneg; lia).
  assert (Hm : (0 < z * 2 ^ (53 - d))%Z) by (apply Z.mul_pos_pos; lia).
  exists (Z.to_pos (z * 2 ^ (53 - d))), (d - 53)%Z. split.
  - unfold bounded, canonical_mantissa. rewrite fexp_eq, digits2_pos_log2.
    rewrite Z2Pos.id by exact Hm.
    rewrite Z.log2_mul_pow2 by lia. change (emax - prec)%Z with 971%Z.
    apply andb_true_iff. split; [apply Z.eqb_eq | apply Z.leb_le]; unfold d; lia.
  - rewrite Z2Pos.id by exact Hm. rewrite <- Z.mul_assoc, <- Z.pow_add_r by lia.
    f_equal. f_equal. lia.
Qed.

(** A natural number below 2^53 is converted exactly. *)
Lemma num_of_nat_exact (n : nat) :
  (Z.of_nat n < 2 ^ 53)%Z ->
  isNaN (num_of_nat n) = false /\ fplace (num_of_nat n) = (Z.of_nat n * 2 ^ 1074)%Z.
Proof.
  intros Hn. unfold num_of_nat, num_of_Z, fplace. rewrite isNaN_spec.
  rewrite FloatAxioms.of_uint63_spec.
  assert (Hz : Uint63Axioms.to_Z (Uint63.of_Z (Z.of_nat n)) = Z.of_nat n).
  { rewrite Uint63.of_Z_spec. apply Z.mod_small. split; [lia|].
    apply Z.lt_trans with (2 ^ 53)%Z; [exact Hn | reflexivity]. }
  rewrite Hz.
  pose proof (binary_normalize_spec (Z.of_nat n) 0 ltac:(lia)) as Hr.
  change (0 + 1074)%Z with 1074%Z in Hr.
  destruct (rounded_place _ _ Hr) as (Hnan & Hsign & Hlo & Hhi & _).
  split; [exact Hnan|].
  destruct (Z.eq_dec (Z.of_nat n) 0) as [E | E].
  - rewrite E in *. cbn [Z.mul] in *. destruct (Z.compare_spec (place
      (binary_normalize prec emax 0 0 false)) 0); try discriminate. assumption.
  - assert (Hrep : representable (Z.of_nat n * 2 ^ 1074)) by (apply representable_int; lia).
    specialize (Hlo _ Hrep ltac:(lia)). specialize (Hhi _ Hrep ltac:(lia)). lia.
Qed.

Lemma nonempty_groups_count {V} (obj : Dict (list V)) :
  (forall k vs, In (k, vs) obj -> vs <> []) ->
  (List.length obj <= list_sum (map (fun e => List.length (snd e)) obj))%nat.
Proof.
  unfold list_sum. induction obj as [|[k vs] r IH]; intros H; [reflexivity|].
  cbn [List.length map fold_right snd].
  assert (vs <> []) by (apply (H k); now left).
  assert (List.length r <= fold_right Init.Nat.add 0 (map (fun e => List.length (snd e)) r))%nat
    by (apply IH; intros k' vs' Hin; apply (H k'); now right).
  destruct vs; [congruence | cbn [List.length]; lia].
Qed.

(** There are at most as many ranked groups as records. *)
Lemma identifyBestPerformers_length `{rt : Runtime} (this : ProcessAnalytics.t)
    (data : list Record) (processTypeField performanceField : string)
    (higherIsBetter : bool) (result : list ProcessAnalytics.Performer) :
  ProcessAnalytics.identifyBestPerformers this data processTypeField performanceField
    higherIsBetter = Some result ->
  (List.length result <= List.length data)%nat.
Proof.
  intros H.
  destruct (identifyBestPerformers_performances this data _ _ _ result H)
    as (processByType & Hg & Hperm).
  apply Permutation_length in Hperm. rewrite !length_map in Hperm. rewrite <- Hperm.
  etransitivity; [apply filter_length_le|].
  rewrite (Permutation_length (Object_entries_perm processByType)).
  pose proof (grouping_size (ProcessAnalytics.processTypeOf processTypeField)
                (fun item => item) data [] processByType Hg) as Hsize.
  change (list_sum (map (fun e : string * list Record => List.length (snd e)) []))
    with 0%nat in Hsize.
  cbn [plus] in Hsize. rewrite <- Hsize.
  apply nonempty_groups_count. intros k vs Hin.
  destruct (grouping_entries (ProcessAnalytics.processTypeOf processTypeField)
              (fun item => item) data processByType Hg) as [_ Hent].
  now apply Hent in Hin.
Qed.

Lemma find_type `{rt : Runtime} (bestPerformers : list ProcessAnalytics.Performer)
    (processType : string) :
  match find (fun bp => String.eqb (ProcessAnalytics.processType
                                      (ProcessAnalytics.performance bp)) processType)
             bestPerformers with
  | Some bp => In bp bestPerformers
               /\ ProcessAnalytics.processType (ProcessAnalytics.performance bp) = processType
  | None => forall bp, In bp bestPerformers ->
                       ProcessAnalytics.processType (ProcessAnalytics.performance bp)
                       <> processType
  end.
Proof.
  destruct (find _ bestPerformers) as [bp|] eqn:E.
  - apply find_some in E as [Hin Heq]. split; [exact Hin|]. now apply String.eqb_eq.
  - intros bp Hin Heq. apply (find_none _ _ E) in Hin. apply String.eqb_neq in Hin. contradiction.
Qed.

(** The process entries of the dashboard come in the order of their rank;
    a process type with fewer than three numeric values of the success
    field is not ranked and keeps rank 0, so it comes first; the others
    carry the rank, between 1 and the number of ranked types, that
    [identifyBestPerformers] gives them. *)
Theorem dashboard_ranking `{rt : Runtime} (data : list Record)
    (config : AnalyticsService.Config) (this : AnalyticsService.t)
    (result : AnalyticsService.AnalyticsDashboardData) :
  fst (AnalyticsService.generateDashboardAnalytics data config this) = Some result ->
  (Z.of_nat (List.length data) < 2 ^ 53)%Z ->
  StronglySorted (fun a b => (AnalyticsService.rank a <= AnalyticsService.rank b)%nat)
                 (AnalyticsService.processPerformance result)
  /\ exists bestPerformers,
       ProcessAnalytics.identifyBestPerformers (AnalyticsService.processAnalytics this) data
         (AnalyticsService.processTypeField config) (AnalyticsService.successField config) true
       = Some bestPerformers
       /\ Forall
            (fun p =>
               let numericCount :=
                 List.length
                   (ProcessAnalytics.numericValues
                      (recordsOfType (AnalyticsService.processTypeField config)
                         (AnalyticsService.processType p) data)
                      (AnalyticsService.successField config)) in
               ((numericCount < 3)%nat ->
                AnalyticsService.rank p = 0%nat
                /\ AnalyticsService.significantlyBetter p = false
                /\ AnalyticsService.percentileBetter p = 0)
               /\ ((3 <= numericCount)%nat ->
                   exists bp, In bp bestPerformers
                     /\ ProcessAnalytics.processType (ProcessAnalytics.performance bp)
                        = AnalyticsService.processType p
                     /\ AnalyticsService.rank p = ProcessAnalytics.rank bp
                     /\ (1 <= AnalyticsService.rank p <= List.length bestPerformers)%nat
                     /\ AnalyticsService.significantlyBetter p
                        = (0 <? ProcessAnalytics.significantlyBetterCount bp)%nat
                     /\ AnalyticsService.percentileBetter p
                        = ProcessAnalytics.percentileBetter bp))
            (AnalyticsService.processPerformance result).
Proof.
  intros H Hsize.
  destruct (dashboard_parts data config this result H)
    as (processByType & bestPerformers & unranked & Hg & Hbest & _ & Hloop & Hpp).
  destruct (groupMetrics_loop _ _ _ _ _ Hloop) as (unranked' & Hsame & _ & Hun).
  cbn [app] in Hsame. subst unranked'.
  set (ranked := map (AnalyticsService.applyRanking bestPerformers) unranked) in Hpp.
  pose proof (identifyBestPerformers_ranks _ _ _ _ _ _ Hbest) as Hranks.
  pose proof (identifyBestPerformers_length _ _ _ _ _ _ Hbest) as Hlen.
  destruct (identifyBestPerformers_types _ _ _ _ _ _ Hbest) as [Hnd Htypes].
  assert (Hrank : forall bp, In bp bestPerformers ->
            (1 <= ProcessAnalytics.rank bp <= List.length bestPerformers)%nat).
  { intros bp Hin. apply (in_map ProcessAnalytics.rank) in Hin. rewrite Hranks in Hin.
    apply in_seq in Hin. lia. }
  assert (Hunranked : forall q, In q unranked ->
            AnalyticsService.rank q = 0%nat
            /\ AnalyticsService.significantlyBetter q = false
            /\ AnalyticsService.percentileBetter q = 0).
  { intros q Hq. apply Hun in Hq as (e & _ & _ & _ & ->). repeat split. }
  assert (Hcases : forall p, In p ranked ->
            (AnalyticsService.rank p = 0%nat
             /\ AnalyticsService.significantlyBetter p = false
             /\ AnalyticsService.percentileBetter p = 0
             /\ forall bp, In bp bestPerformers ->
                  ProcessAnalytics.processType (ProcessAnalytics.performance bp)
                  <> AnalyticsService.processType p)
            \/ exists bp, In bp bestPerformers
                 /\ ProcessAnalytics.processType (ProcessAnalytics.performance bp)
                    = AnalyticsService.processType p
                 /\ AnalyticsService.rank p = ProcessAnalytics.rank bp
                 /\ AnalyticsService.significantlyBetter p
                    = (0 <? ProcessAnalytics.significantlyBetterCount bp)%nat
                 /\ AnalyticsService.percentileBetter p = ProcessAnalytics.percentileBetter bp).
  { intros p Hp. unfold ranked in Hp. apply in_map_iff in Hp as (q & <- & Hq).
    unfold AnalyticsService.applyRanking.
    pose proof (find_type bestPerformers (AnalyticsService.processType q)) as Hfind.
    destruct (find _ bestPerformers) as [bp|].
    - right. exists bp. destruct Hfind as [Hin Ht]. now repeat split.
    - left. destruct (Hunranked q Hq) as (H1 & H2 & H3). now repeat split. }
  assert (Hbound : forall p, In p ranked ->
            (Z.of_nat (AnalyticsService.rank p) < 2 ^ 53)%Z).
  { intros p Hp. destruct (Hcases p Hp) as [(-> & _) | (bp & Hin & _ & -> & _)].
    - reflexivity.
    - specialize (Hrank bp Hin). lia. }
  assert (Hperm : Permutation ranked (AnalyticsService.processPerformance result))
    by (rewrite Hpp; apply sort_perm).
  split.
  - rewrite Hpp.
    apply (StronglySorted_weaken
             (key_le (fun p => fplace (num_of_nat (AnalyticsService.rank p))))).
    + intros a b Ha Hb Hab.
      apply (Permutation_in _ (Permutation_sym (sort_perm _ ranked))) in Ha, Hb.
      destruct (num_of_nat_exact _ (Hbound a Ha)) as [_ Ea].
      destruct (num_of_nat_exact _ (Hbound b Hb)) as [_ Eb].
      unfold key_le in Hab. rewrite Ea, Eb in Hab.
      assert (0 < 2 ^ 1074)%Z by (apply Z.pow_pos_nonneg; lia). nia.
    + apply sort_sorted. intros x y Hx Hy.
      destruct (num_of_nat_exact _ (Hbound x Hx)) as [Nx _].
      destruct (num_of_nat_exact _ (Hbound y Hy)) as [Ny _].
      now apply sub_positive.
  - exists bestPerformers. split; [exact Hbest|].
    apply Forall_forall. intros p Hp.
    apply (Permutation_in _ (Permutation_sym Hperm)) in Hp.
    specialize (Htypes (AnalyticsService.processType p)). cbv zeta.
    destruct (Hcases p Hp) as [(H1 & H2 & H3 & Hno) | (bp & Hin & Ht & H1 & H2 & H3)].
    + split; [now intros _|]. intros Hge. apply Htypes in Hge as (bp & Hin & Ht).
      now apply Hno in Hin.
    + split.
      * intros Hlt. assert (Hge : (3 <= List.length
                 (ProcessAnalytics.numericValues
                    (recordsOfType (AnalyticsService.processTypeField config)
                       (AnalyticsService.processType p) data)
                    (AnalyticsService.successField config)))%nat)
          by (apply Htypes; now exists bp). lia.
      * intros _. exists bp. specialize (Hrank bp Hin). rewrite H1. now repeat split.
Qed.

Lemma dashboard_ranking_witness :
  exists result,
    fst (@AnalyticsService.generateDashboardAnalytics exampleRuntime twoThenOne exampleConfig
           defaultService) = Some result
    /\ (Z.of_nat (List.length twoThenOne) < 2 ^ 53)%Z
    /\ StronglySorted (fun a b => (AnalyticsService.rank a <= AnalyticsService.rank b)%nat)
                      (AnalyticsService.processPerformance result).
Proof.
  destruct (fst (@AnalyticsService.generateDashboardAnalytics exampleRuntime twoThenOne
                   exampleConfig defaultService)) as [result|] eqn:E;
    [|vm_compute in E; discriminate].
  exists result. split; [reflexivity|].
  assert (H : (Z.of_nat (List.length twoThenOne) < 2 ^ 53)%Z) by reflexivity.
  split; [exact H|].
  exact (proj1 (@dashboard_ranking exampleRuntime twoThenOne exampleConfig defaultService
                  result E H)).
Defined.

(* ================================================================== *)
(** ** Trends over fewer than two periods *)

(** *** NaN through division, square root and absolute value *)

Lemma nan_div (x y : float) :
  isNaN x = true \/ isNaN y = true -> isNaN (x / y) = true.
Proof.
  rewrite !isNaN_spec, FloatAxioms.div_spec. unfold SF64div, SFdiv.
  intros [H | H].
  - destruct (Prim2SF x); try discriminate. reflexivity.
  - destruct (Prim2SF y); try discriminate. now destruct (Prim2SF x).
Qed.

Lemma nan_sqrt (x : float) : isNaN x = true -> isNaN (Math_sqrt x) = true.
Proof.
  unfold Math_sqrt. rewrite !isNaN_spec, FloatAxioms.sqrt_spec. unfold SF64sqrt, SFsqrt.
  destruct (Prim2SF x); try discriminate. reflexivity.
Qed.

Lemma nan_abs (x : float) : isNaN x = true -> isNaN (Math_abs x) = true.
Proof.
  unfold Math_abs. rewrite !isNaN_spec, FloatAxioms.abs_spec.
  destruct (Prim2SF x); try discriminate. reflexivity.
Qed.

Lemma zero_over_zero (y : float) : isNaN ((0 + 0 * y) / 0) = true.
Proof.
  rewrite isNaN_spec, FloatAxioms.div_spec, FloatAxioms.add_spec, FloatAxioms.mul_spec.
  change (Prim2SF 0) with (S754_zero false).
  destruct (Prim2SF y) as [s | s | | s m e]; try destruct s; reflexivity.
Qed.

(** [tDistPValue] of a NaN statistic is NaN for 30 degrees of freedom or
    fewer. *)
Lemma tDistPValue_nan `{rt : Runtime} (t df : float) :
  isNaN t = true -> (30 <? df) = false -> isNaN (KPICalculator.tDistPValue t df) = true.
Proof.
  intros Ht Hdf. unfold KPICalculator.tDistPValue. rewrite Hdf.
  apply nan_mul. right. apply nan_mul. left. apply nan_mul. left.
  apply nan_sqrt. apply nan_sub. right. apply nan_div. right. apply nan_add. right.
  apply nan_mul. now left.
Qed.

(** With no period or a single one [identifyTrends] cannot find a trend:
    the result is 'stable' and not significant; with a single period the
    slope is NaN. *)
Theorem identifyTrends_few_periods `{rt : Runtime} (data : list Record)
    (timeField valueField : string) (periods : nat) (a : KPICalculator.TrendAnalysis) :
  KPICalculator.identifyTrends data timeField valueField periods = KPICalculator.TrendFound a ->
  (periods <= 1)%nat ->
  KPICalculator.trend a = KPICalculator.stable
  /\ KPICalculator.significant a = false
  /\ List.length (KPICalculator.periods a) = periods
  /\ (periods = 0%nat -> KPICalculator.slope a = 0)
  /\ (periods = 1%nat -> isNaN (KPICalculator.slope a) = true).
Proof.
  unfold KPICalculator.identifyTrends.
  set (values := KPICalculator.numericValues (KPICalculator.sortByTime data timeField) valueField).
  destruct (List.length values =? 0)%nat; [discriminate|].
  intros [= <-] Hp. destruct periods as [|[|p]]; [| |lia].
  - cbn [seq map combine List.length]. repeat split; try reflexivity. intros [=].
  - cbn [seq map combine List.length plus KPICalculator.ps_average
         KPICalculator.trend KPICalculator.significant KPICalculator.periods
         KPICalculator.slope KPICalculator.pValue].
    set (periodData := KPICalculator.periodSlice values 1 _ 0).
    set (m := KPICalculator.calculateMean periodData).
    assert (Hslope : isNaN (KPICalculator.reg_slope
                              (KPICalculator.calculateLinearRegression [num_of_nat 1] [m]))
                     = true).
    { exact (zero_over_zero (m - KPICalculator.calculateMean [m])). }
    set (regression := KPICalculator.calculateLinearRegression [num_of_nat 1] [m]) in *.
    split; [|split; [|split; [reflexivity|split; [intros [=]|intros _; exact Hslope]]]].
    + rewrite !ltb_nan by auto. reflexivity.
    + apply ltb_nan. left. apply tDistPValue_nan; [|reflexivity].
      apply nan_abs. apply nan_div. now left.
Qed.

Lemma identifyTrends_few_periods_witness :
  exists a,
    @KPICalculator.identifyTrends exampleRuntime scenarioA "Timestamp" "Success" 1
    = KPICalculator.TrendFound a
    /\ KPICalculator.trend a = KPICalculator.stable
    /\ isNaN (KPICalculator.slope a) = true.
Proof.
  destruct (@KPICalculator.identifyTrends exampleRuntime scenarioA "Timestamp" "Success" 1)
    as [? ?|a] eqn:E; [vm_compute in E; discriminate|].
  exists a. split; [reflexivity|].
  destruct (@identifyTrends_few_periods exampleRuntime scenarioA "Timestamp" "Success" 1 a E
              (le_n 1)) as (Ht & _ & _ & _ & Hs).
  split; [exact Ht | exact (Hs eq_refl)].
Defined.

(* ================================================================== *)
(** ** Division and multiplication of binary64 numbers *)

Local Open Scope Z_scope.

(** *** Division: the rounding of an inexact quotient

    A quotient comes with the location of its remainder; it is rounded
    exactly as the integer with two more bits that spell that location. *)

Lemma record_of_location (m : Z) (l : location) :
  0 <= m ->
  shr_record_of_loc m l
  = shr_1 (shr_1 (Build_shr_record (4 * m + location_bits l) false false)).
Proof.
  intros Hm.
  assert (Hc : 0 <= location_bits l < 4) by (destruct l as [|[]]; cbn; lia).
  rewrite (shr_1_spec (4 * m + location_bits l)) by lia.
  assert (Hh : 0 <= (4 * m + location_bits l) / 2) by (apply Z.div_pos; lia).
  rewrite shr_1_spec by exact Hh.
  assert (Hq : (4 * m + location_bits l) / 2 / 2 = m).
  { rewrite Z.div_div by lia. change (2 * 2) with 4.
    symmetry. apply (Z.div_unique _ 4 m (location_bits l)); [|lia].
    left. lia. }
  rewrite Hq.
  assert (Hhalf : (4 * m + location_bits l) / 2 = 2 * m + location_bits l / 2).
  { replace (4 * m + location_bits l) with (location_bits l + (2 * m) * 2) by lia.
    rewrite Z.div_add by lia. lia. }
  rewrite Hhalf.
  replace (4 * m + location_bits l) with (location_bits l + 2 * (2 * m)) by lia.
  rewrite Z.odd_add_mul_2.
  replace (2 * m + location_bits l / 2) with (location_bits l / 2 + 2 * m) by lia.
  rewrite Z.odd_add_mul_2.
  destruct l as [|[]]; reflexivity.
Qed.

Lemma iter_pos_nat {A} (f : A -> A) (p : positive) (x : A) :
  SpecFloat.iter_pos f p x = Nat.iter (Pos.to_nat p) f x.
Proof.
  revert x. induction p as [p IH | p IH |]; intros x; cbn [SpecFloat.iter_pos].
  - rewrite !IH, Pos2Nat.inj_xI.
    change (f x) with (Nat.iter 1 f x). rewrite <- !Nat.iter_add.
    f_equal. lia.
  - rewrite !IH, Pos2Nat.inj_xO. rewrite <- Nat.iter_add. f_equal. lia.
  - reflexivity.
Qed.

Lemma shr_two_more (mrs : shr_record) (e n : Z) :
  0 <= n -> shr mrs (e - 2) (n + 2) = shr (shr_1 (shr_1 mrs)) e n.
Proof.
  intros Hn. unfold shr.
  destruct (n + 2) as [|p|p] eqn:Ep; try lia.
  rewrite iter_pos_nat.
  destruct n as [|k|k]; try lia.
  - replace p with 2%positive by lia. cbn. f_equal. lia.
  - rewrite iter_pos_nat. replace (Pos.to_nat p) with (Pos.to_nat k + 2)%nat by lia.
    rewrite Nat.iter_add. f_equal. lia.
Qed.

Lemma digits_two_more (m c : Z) :
  0 < m -> 0 <= c < 4 -> Zdigits2 (4 * m + c) = Zdigits2 m + 2.
Proof.
  intros Hm Hc.
  assert (H1 : Zdigits2 m = Z.log2 m + 1).
  { destruct m as [|p|p]; try lia. cbn [Zdigits2]. apply digits2_pos_log2. }
  assert (H2 : Zdigits2 (4 * m + c) = Z.log2 (4 * m + c) + 1).
  { destruct (4 * m + c) as [|p|p] eqn:E; try lia. cbn [Zdigits2]. apply digits2_pos_log2. }
  rewrite H1, H2.
  pose proof (log2_bounds m Hm) as [Hlo Hhi].
  assert (Z.log2 (4 * m + c) = Z.log2 m + 2); [|lia].
  apply Z.log2_unique; [pose proof (Z.log2_nonneg m); lia|].
  replace (Z.succ (Z.log2 m + 2)) with (Z.log2 m + 1 + 2) by lia.
  pose proof (Z.log2_nonneg m).
  rewrite (Z.pow_add_r 2 (Z.log2 m) 2), (Z.pow_add_r 2 (Z.log2 m + 1) 2) by lia.
  change (2 ^ 2) with 4. lia.
Qed.

(** Rounding a quotient with a location is rounding the exact integer that
    carries the location in its two lowest bits. *)
Lemma binary_round_aux_location (s : bool) (m e : Z) (l : location) :
  0 < m -> e <= fexp prec emax (Zdigits2 m + e) ->
  binary_round_aux prec emax s m e l
  = binary_round_aux prec emax s (4 * m + location_bits l) (e - 2) loc_Exact.
Proof.
  intros Hm He. unfold binary_round_aux.
  assert (Hc : 0 <= location_bits l < 4) by (destruct l as [|[]]; cbn; lia).
  assert (Hsh : shr_fexp prec emax m e l
                = shr_fexp prec emax (4 * m + location_bits l) (e - 2) loc_Exact).
  { unfold shr_fexp. rewrite (digits_two_more m _ Hm Hc).
    replace (Zdigits2 m + 2 + (e - 2)) with (Zdigits2 m + e) by lia.
    replace (fexp prec emax (Zdigits2 m + e) - (e - 2))
      with (fexp prec emax (Zdigits2 m + e) - e + 2) by lia.
    rewrite shr_two_more by lia. cbn [shr_record_of_loc].
    now rewrite record_of_location by lia. }
  now rewrite Hsh.
Qed.

Lemma digits_53 (m : positive) :
  2 ^ 52 <= Zpos m < 2 ^ 53 -> Zdigits2 (Zpos m) = 53.
Proof.
  intros H. cbn [Zdigits2]. rewrite digits2_pos_log2.
  assert (Z.log2 (Zpos m) = 52); [|lia].
  apply Z.log2_unique; [lia|]. exact H.
Qed.

Lemma normal_bounds (m : positive) (e : Z) :
  normal m e -> 2 ^ 52 <= Zpos m < 2 ^ 53 /\ -1074 <= e <= 971.
Proof.
  intros [Hb Hm]. apply bounded_canonical in Hb as (He & Hd & _).
  split; [|exact He]. split; [exact Hm|].
  pose proof (log2_bounds (Zpos m) eq_refl) as [_ Hhi].
  eapply Z.lt_le_trans; [exact Hhi|]. apply Z.pow_le_mono_r; lia.
Qed.

Lemma SFdiv_core_normal (mx my : positive) (ex ey : Z) :
  2 ^ 52 <= Zpos mx < 2 ^ 53 -> 2 ^ 52 <= Zpos my < 2 ^ 53 -> -1021 <= ex - ey ->
  SFdiv_core_binary prec emax (Zpos mx) ex (Zpos my) ey
  = ((Zpos mx * 2 ^ 53) / Zpos my, ex - ey - 53,
     new_location (Zpos my) ((Zpos mx * 2 ^ 53) mod Zpos my)).
Proof.
  intros Hx Hy He. unfold SFdiv_core_binary.
  rewrite (digits_53 mx Hx), (digits_53 my Hy). rewrite fexp_eq.
  replace (Z.min (Z.max (53 + ex - (53 + ey) - 53) (-1074)) (ex - ey)) with (ex - ey - 53)
    by lia.
  replace (ex - ey - (ex - ey - 53)) with 53 by lia.
  cbv zeta. cbv iota.
  change (Z.shiftl (Zpos mx) 53) with (Z.shiftl (Zpos mx) 53).
  rewrite Z.shiftl_mul_pow2 by lia.
  unfold Z.div, Z.modulo.
  destruct (Z.div_eucl (Zpos mx * 2 ^ 53) (Zpos my)) as [q r]. reflexivity.
Qed.

Lemma location_bits_exact (d r : Z) :
  0 < d -> 0 <= r < d ->
  0 <= location_bits (new_location d r) < 4
  /\ (location_bits (new_location d r) = 0 <-> r = 0).
Proof.
  intros Hd Hr. unfold new_location, new_location_even, new_location_odd.
  destruct (Z.even d); destruct (Z.eqb_spec r 0) as [-> | Hne]; cbn [location_bits].
  - split; [lia | tauto].
  - destruct (2 * r ?= d); cbn [location_bits]; split; try lia; split; intros; lia.
  - split; [lia | tauto].
  - destruct (2 * r + 1 ?= d); cbn [location_bits]; split; try lia; split; intros; lia.
Qed.

(** The quotient of two normal floats, rounded: no float lies strictly
    between the exact quotient and the result. *)
(** *** The arithmetic of a quotient and its remainder *)

Lemma quotient_bracket (q bits g : Z) :
  0 < g -> 0 <= bits < 4 ->
  q * (4 * g) <= (4 * q + bits) * g < (q + 1) * (4 * g).
Proof. intros Hg Hb. nia. Qed.

Lemma coarse_grid (q G m u K : Z) :
  0 < u -> u * 2 <= G -> 0 < K -> K <= q -> m < K * 2 -> q * G <= m * u -> False.
Proof.
  intros Hu HG HK Hq Hm Hle.
  assert (H1 : K * (u * 2) <= q * G) by (apply Z.mul_le_mono_nonneg; lia).
  assert (H2 : m * u < K * 2 * u) by (apply Z.mul_lt_mono_pos_r; lia).
  lia.
Qed.

Lemma quotient_below (c q T d rem G : Z) :
  0 < G -> 0 < d -> T = d * q + rem -> 0 <= rem < d ->
  c * G * d <= T * G -> c <= q.
Proof.
  intros HG Hd HT Hrem Hle.
  assert (H1 : c * d <= T).
  { apply (Z.mul_le_mono_pos_r _ _ G HG). lia. }
  assert (H2 : c * d < (q + 1) * d) by lia.
  apply Z.mul_lt_mono_pos_r in H2; lia.
Qed.

Lemma quotient_above (c q T d rem G : Z) :
  0 < G -> 0 < d -> T = d * q + rem -> 0 <= rem < d ->
  T * G <= c * G * d -> q <= c /\ (rem <> 0 -> q + 1 <= c).
Proof.
  intros HG Hd HT Hrem Hle.
  assert (H1 : T <= c * d).
  { apply (Z.mul_le_mono_pos_r _ _ G HG). lia. }
  split.
  - assert (H2 : q * d <= c * d) by lia.
    apply Z.mul_le_mono_pos_r in H2; lia.
  - intros Hnz. assert (H2 : q * d < c * d) by lia.
    apply Z.mul_lt_mono_pos_r in H2; lia.
Qed.

Lemma leading_part (C q T d rem G : Z) :
  0 < G -> 0 < d -> T = d * q + rem -> 0 <= rem ->
  T * G <= C * d -> q * G <= C.
Proof.
  intros HG Hd HT Hrem Hle.
  apply (Z.mul_le_mono_pos_r _ _ d Hd).
  apply Z.le_trans with (T * G); [|exact Hle].
  replace (q * G * d) with (d * q * G) by ring.
  apply Z.mul_le_mono_nonneg_r; lia.
Qed.

Lemma SFdiv_normal (sx sy : bool) (mx my : positive) (ex ey : Z) :
  normal mx ex -> normal my ey -> -1019 <= ex - ey ->
  let r := SF64div (S754_finite sx mx ex) (S754_finite sy my ey) in
  let Px := Zpos mx * 2 ^ (ex + 1074) in
  let Py := Zpos my * 2 ^ (ey + 1074) in
  exists W, 0 < W /\ is_nan r = false /\ place r = cond_Zopp (xorb sx sy) W
    /\ (forall C, representable C -> C * Py <= Px * 2 ^ 1074 -> C <= W)
    /\ (forall C, representable C -> Px * 2 ^ 1074 <= C * Py -> W <= C).
Proof.
  intros Nx Ny He r Px Py.
  destruct (normal_bounds mx ex Nx) as [Hx Hex].
  destruct (normal_bounds my ey Ny) as [Hy Hey].
  unfold r, SF64div, SFdiv. rewrite SFdiv_core_normal by (auto; lia).
  set (T := Zpos mx * 2 ^ 53).
  set (q := T / Zpos my). set (rem := T mod Zpos my).
  set (e' := ex - ey - 53).
  pose proof (Z.div_mod T (Zpos my) ltac:(lia)) as Hdm. fold q rem in Hdm.
  pose proof (Z.mod_pos_bound T (Zpos my) ltac:(lia)) as Hrem. fold rem in Hrem.
  assert (HT : 2 ^ 52 * 2 ^ 53 <= T < 2 ^ 53 * 2 ^ 53) by (unfold T; lia).
  assert (Hq : 2 ^ 52 <= q < 2 ^ 54).
  { split.
    - unfold q. apply Z.div_le_lower_bound; [lia|]. nia.
    - unfold q. apply Z.div_lt_upper_bound; [lia|].
      change (2 ^ 54) with (2 * 2 ^ 53). nia. }
  destruct (location_bits_exact (Zpos my) rem ltac:(lia) Hrem) as [Hbits Hexact].
  set (bits := location_bits (new_location (Zpos my) rem)) in *.
  assert (Hdq : 53 <= Zdigits2 q).
  { destruct q as [|p|p] eqn:Eq; try lia. cbn [Zdigits2]. rewrite digits2_pos_log2.
    assert (52 <= Z.log2 (Zpos p)); [|lia]. apply Z.log2_le_pow2; lia. }
  rewrite binary_round_aux_location by (rewrite ?fexp_eq; lia).
  fold bits.
  set (M := 4 * q + bits).
  assert (HM : 0 < M) by (unfold M; lia).
  assert (HdM : Zdigits2 M = Zdigits2 q + 2) by (apply digits_two_more; lia).
  pose proof (binary_round_aux_spec (xorb sx sy) (Z.to_pos M) (e' - 2)) as Hspec.
  rewrite Z2Pos.id in Hspec by exact HM.
  assert (Hdig : Zpos (digits2_pos (Z.to_pos M)) = Zdigits2 M).
  { destruct M as [|p|p]; try lia. reflexivity. }
  rewrite Hdig, HdM, fexp_eq in Hspec.
  specialize (Hspec ltac:(unfold e'; lia) ltac:(lia)). cbv zeta in Hspec.
  set (g := 2 ^ (e' - 2 + 1074)) in *.
  set (G := 2 ^ (e' + 1074)).
  assert (Hg : 0 < g) by (apply Z.pow_pos_nonneg; unfold e'; lia).
  assert (HG : G = 4 * g).
  { unfold G, g. replace (e' + 1074) with (2 + (e' - 2 + 1074)) by lia.
    rewrite Z.pow_add_r by (unfold e'; lia). reflexivity. }
  set (V' := M * g) in *.
  assert (HV' : q * G <= V' < (q + 1) * G).
  { unfold V', M. rewrite HG. apply quotient_bracket; [exact Hg | exact Hbits]. }
  assert (HG0 : 0 < G) by lia.
  assert (HV'0 : 0 < V').
  { apply Z.lt_le_trans with (q * G); [apply Z.mul_pos_pos; lia | apply HV']. }
  (* the hypothesis on the exact quotient, in terms of the division *)
  set (k := 2 ^ (ey + 1074)).
  assert (Hk : 0 < k) by (apply Z.pow_pos_nonneg; lia).
  assert (HPy : Py = Zpos my * k) by reflexivity.
  assert (HPx : Px * 2 ^ 1074 = T * G * k).
  { unfold Px, T, G, k. rewrite <- !Z.mul_assoc. f_equal.
    rewrite <- !Z.pow_add_r by (unfold e'; lia). f_equal. unfold e'. lia. }
  (* floats at or above the quotient's leading part are on its grid *)
  assert (Hgrid : forall C, representable C -> q * G <= C -> exists c, C = c * G).
  { intros C (mc & ec & Hb & ->) Hge.
    apply bounded_canonical in Hb as (Hec & Hdc & _).
    pose proof (log2_bounds (Zpos mc) eq_refl) as [_ Hmc].
    assert (Hmc' : Zpos mc < 2 ^ 53).
    { eapply Z.lt_le_trans; [exact Hmc|]. apply Z.pow_le_mono_r; lia. }
    destruct (Z_le_gt_dec e' ec) as [Hle | Hgt].
    - exists (Zpos mc * 2 ^ (ec - e')). unfold G.
      rewrite <- Z.mul_assoc, <- Z.pow_add_r by (unfold e' in *; lia).
      do 2 f_equal. lia.
    - exfalso.
      assert (2 ^ (ec + 1074) * 2 <= G).
      { unfold G. replace (e' + 1074) with (ec + 1074 + (e' - ec)) by lia.
        rewrite (Z.pow_add_r 2 (ec + 1074) (e' - ec)) by lia.
        assert (Hpow : 2 ^ 1 <= 2 ^ (e' - ec)) by (apply Z.pow_le_mono_r; lia).
        assert (0 < 2 ^ (ec + 1074)) by (apply Z.pow_pos_nonneg; lia).
        change (2 ^ 1) with 2 in Hpow. apply Z.mul_le_mono_nonneg_l; lia. }
      assert (0 < 2 ^ (ec + 1074)) by (apply Z.pow_pos_nonneg; lia).
      apply (coarse_grid q G (Zpos mc) (2 ^ (ec + 1074)) (2 ^ 52));
        [assumption | assumption | reflexivity | apply Hq | exact Hmc' | exact Hge]. }
  assert (Hlow : forall C, representable C -> C * Py <= Px * 2 ^ 1074 -> C <= V').
  { intros C HC Hle. rewrite HPx, HPy in Hle.
    assert (Hle' : C * Zpos my <= T * G).
    { apply (Z.mul_le_mono_pos_r _ _ k Hk). rewrite <- (Z.mul_assoc C). exact Hle. }
    destruct (Z_lt_le_dec C (q * G)) as [|Hge]; [lia|].
    destruct (Hgrid C HC Hge) as [c ->].
    assert (Hc : c <= q)
      by (apply (quotient_below c q T (Zpos my) rem G HG0 ltac:(lia) Hdm Hrem Hle')).
    apply Z.le_trans with (q * G); [|apply HV'].
    apply Z.mul_le_mono_nonneg_r; lia. }
  assert (Hhigh : forall C, representable C -> Px * 2 ^ 1074 <= C * Py -> V' <= C).
  { intros C HC Hle. rewrite HPx, HPy in Hle.
    assert (Hle' : T * G <= C * Zpos my).
    { apply (Z.mul_le_mono_pos_r _ _ k Hk). rewrite <- (Z.mul_assoc C). exact Hle. }
    assert (Hge : q * G <= C)
      by (apply (leading_part C q T (Zpos my) rem G HG0 ltac:(lia) Hdm ltac:(lia) Hle')).
    destruct (Hgrid C HC Hge) as [c ->].
    destruct (quotient_above c q T (Zpos my) rem G HG0 ltac:(lia) Hdm Hrem Hle')
      as [Hqc Hnext].
    destruct (Z.eq_dec rem 0) as [Hz | Hnz].
    - assert (Hb0 : bits = 0) by now apply Hexact.
      unfold V', M. rewrite Hb0, HG, Z.add_0_r.
      replace (4 * q * g) with (q * (4 * g)) by ring.
      apply Z.mul_le_mono_nonneg_r; lia.
    - apply Z.lt_le_incl, Z.lt_le_trans with ((q + 1) * G); [apply HV'|].
      apply Z.mul_le_mono_nonneg_r; [lia | now apply Hnext]. }
  destruct (binary_round_aux prec emax (xorb sx sy) M (e' - 2) loc_Exact)
    as [s' | s' | | s' m' e''] eqn:Er; try contradiction.
  - destruct Hspec as (-> & W & HW & Hbig).
    assert (P98 : 2 ^ 2098 < 2 ^ 2100) by (apply Z.pow_lt_mono_r; lia).
    exists (2 ^ 2100). split; [lia|]. split; [reflexivity|]. split; [reflexivity|].
    split.
    + intros C HC _. apply representable_grid in HC as (_ & _ & HC). lia.
    + intros C HC Hle. exfalso.
      pose proof (rounds_to_below V' W C HV'0 HW HC (Hhigh C HC Hle)).
      apply representable_grid in HC as (_ & _ & HC). lia.
  - destruct Hspec as (-> & HW).
    exists (Zpos m' * 2 ^ (e'' + 1074)).
    split; [exact (rounds_to_pos _ _ HV'0 HW)|].
    split; [reflexivity|]. split; [reflexivity|].
    split.
    + intros C HC Hle. apply (rounds_to_above V' _ C HV'0 HW HC). now apply Hlow.
    + intros C HC Hle. apply (rounds_to_below V' _ C HV'0 HW HC). now apply Hhigh.
Qed.

Local Close Scope Z_scope.

Lemma positive_normal (x : float) :
  isNaN x = false -> (2 ^ 52 <= fplace x < 2 ^ 2100)%Z ->
  exists m e, Prim2SF x = S754_finite false m e /\ normal m e
              /\ fplace x = (Zpos m * 2 ^ (e + 1074))%Z.
Proof.
  intros Hn [Hlo Hhi]. rewrite isNaN_spec in Hn. unfold fplace in *.
  pose proof (FloatAxioms.Prim2SF_valid x) as Hv.
  destruct (Prim2SF x) as [s | s | | s m e]; try discriminate.
  - cbn in Hlo. lia.
  - destruct s; cbn in Hlo, Hhi; lia.
  - cbn [valid_binary] in Hv. cbn [place scaled] in Hlo, Hhi.
    pose proof (bounded_canonical m e Hv) as (He & Hd & Hc).
    assert (Hp : (0 < 2 ^ (e + 1074))%Z) by (apply Z.pow_pos_nonneg; lia).
    destruct s; cbn [cond_Zopp] in Hlo; [lia|].
    exists m, e. split; [reflexivity|]. split; [|reflexivity].
    split; [exact Hv|].
    destruct Hc as [Hc | ->].
    + pose proof (log2_bounds (Zpos m) eq_refl) as [Hl _].
      replace (Z.log2 (Zpos m)) with 52%Z in Hl by lia. exact Hl.
    + change (-1074 + 1074)%Z with 0%Z in Hlo. cbn in Hlo. lia.
Qed.

(** Division of positive normal numbers whose magnitudes are not too far
    apart: the quotient is a number, and no float lies strictly between it
    and the exact quotient. *)
Lemma div_bracket (x y : float) :
  isNaN x = false -> isNaN y = false ->
  (2 ^ 52 <= fplace x < 2 ^ 2100)%Z -> (2 ^ 52 <= fplace y < 2 ^ 2100)%Z ->
  (fplace y <= fplace x * 2 ^ 1000)%Z ->
  isNaN (x / y) = false /\ (0 < fplace (x / y))%Z
  /\ (forall C, representable C -> (C * fplace y <= fplace x * 2 ^ 1074)%Z ->
        (C <= fplace (x / y))%Z)
  /\ (forall C, representable C -> (fplace x * 2 ^ 1074 <= C * fplace y)%Z ->
        (fplace (x / y) <= C)%Z).
Proof.
  intros Nx Ny Hx Hy Hxy.
  destruct (positive_normal x Nx Hx) as (mx & ex & Ex & Hnx & Px).
  destruct (positive_normal y Ny Hy) as (my & ey & Ey & Hny & Py).
  destruct (normal_bounds mx ex Hnx) as [Bx Bex].
  destruct (normal_bounds my ey Hny) as [By Bey].
  assert (He : (-1019 <= ex - ey)%Z).
  { rewrite Px, Py in Hxy.
    assert (H1 : (2 ^ (52 + (ey + 1074)) <= Zpos my * 2 ^ (ey + 1074))%Z).
    { rewrite (Z.pow_add_r 2 52 (ey + 1074)) by lia.
      assert (0 < 2 ^ (ey + 1074))%Z by (apply Z.pow_pos_nonneg; lia). nia. }
    assert (H2 : (Zpos mx * 2 ^ (ex + 1074) * 2 ^ 1000 < 2 ^ (53 + (ex + 1074) + 1000))%Z).
    { rewrite (Z.pow_add_r 2 (53 + (ex + 1074)) 1000), (Z.pow_add_r 2 53 (ex + 1074)) by lia.
      assert (0 < 2 ^ (ex + 1074))%Z by (apply Z.pow_pos_nonneg; lia).
      assert (0 < 2 ^ 1000)%Z by (apply Z.pow_pos_nonneg; lia). nia. }
    assert (H3 : (2 ^ (52 + (ey + 1074)) < 2 ^ (53 + (ex + 1074) + 1000))%Z) by lia.
    destruct (Z_lt_le_dec (ex - ey) (-1019)) as [Hlt | Hge]; [exfalso | exact Hge].
    assert (2 ^ (53 + (ex + 1074) + 1000) <= 2 ^ (52 + (ey + 1074)))%Z
      by (apply Z.pow_le_mono_r; lia).
    lia. }
  pose proof (SFdiv_normal false false mx my ex ey Hnx Hny He) as H.
  cbv zeta in H. destruct H as (W & HW & Hnan & Hplace & Hlow & Hhigh).
  assert (Hq : Prim2SF (x / y) = SF64div (S754_finite false mx ex) (S754_finite false my ey))
    by (now rewrite FloatAxioms.div_spec, Ex, Ey).
  cbn [xorb cond_Zopp] in Hplace.
  assert (Hfq : fplace (x / y) = W) by (unfold fplace; now rewrite Hq).
  rewrite Hfq, isNaN_spec, Hq, Px, Py. now repeat split.
Qed.

Lemma representable_pow2 (k : Z) : (0 <= k <= 2097)%Z -> representable (2 ^ k).
Proof.
  intros Hk. destruct (Z_le_gt_dec 52 k) as [Hbig | Hsmall].
  - exists (Z.to_pos (2 ^ 52)), (k - 52 - 1074)%Z. split.
    + unfold bounded, canonical_mantissa. rewrite fexp_eq, digits2_pos_log2.
      change (Z.log2 (Zpos (Z.to_pos (2 ^ 52)))) with 52%Z. change (emax - prec)%Z with 971%Z.
      apply andb_true_iff. split; [apply Z.eqb_eq | apply Z.leb_le]; lia.
    + change (Zpos (Z.to_pos (2 ^ 52))) with (2 ^ 52)%Z.
      rewrite <- Z.pow_add_r by lia. f_equal. lia.
  - exists (Z.to_pos (2 ^ k)), (-1074)%Z.
    assert (Hp : (0 < 2 ^ k)%Z) by (apply Z.pow_pos_nonneg; lia).
    split.
    + unfold bounded, canonical_mantissa. rewrite fexp_eq, digits2_pos_log2.
      rewrite Z2Pos.id by exact Hp. rewrite Z.log2_pow2 by lia.
      change (emax - prec)%Z with 971%Z.
      apply andb_true_iff. split; [apply Z.eqb_eq | apply Z.leb_le]; lia.
    + rewrite Z2Pos.id by exact Hp. change (-1074 + 1074)%Z with 0%Z. cbn. lia.
Qed.

Lemma integer_place_bounds (x : float) (n : nat) :
  fplace x = (Z.of_nat n * 2 ^ 1074)%Z -> (0 < n)%nat -> (Z.of_nat n < 2 ^ 53)%Z ->
  (2 ^ 52 <= fplace x < 2 ^ 2100)%Z.
Proof.
  intros -> Hn Hb. split.
  - change (2 ^ 1074)%Z with (2 ^ 52 * 2 ^ 1022)%Z.
    assert (0 < 2 ^ 1022)%Z by (apply Z.pow_pos_nonneg; lia). nia.
  - change (2 ^ 2100)%Z with (2 ^ 53 * 2 ^ 1074 * 2 ^ 973)%Z.
    assert (0 < 2 ^ 973)%Z by (apply Z.pow_pos_nonneg; lia).
    assert (0 < 2 ^ 1074)%Z by (apply Z.pow_pos_nonneg; lia). nia.
Qed.

Lemma zero_place (x : float) :
  isNaN x = false -> fplace x = 0%Z -> exists s, Prim2SF x = S754_zero s.
Proof.
  rewrite isNaN_spec. unfold fplace. intros Hn Hp.
  pose proof (FloatAxioms.Prim2SF_valid x) as Hv.
  destruct (Prim2SF x) as [s | s | | s m e]; try discriminate.
  - now exists s.
  - exfalso. assert (0 < 2 ^ 2100)%Z by (apply Z.pow_pos_nonneg; lia).
    destruct s; cbn in Hp; lia.
  - exfalso. cbn [valid_binary] in Hv. destruct (finite_place s m e Hv) as (C & _ & HC & E).
    rewrite E in Hp. destruct s; cbn in Hp; lia.
Qed.

(** The quotient of two whole numbers, the first not above the second: a
    number between 0 and 1, 0 only for the numerator 0 and 1 only for
    equal numbers. *)
Lemma integer_ratio (x y : float) (successes total : nat) :
  isNaN x = false -> isNaN y = false ->
  fplace x = (Z.of_nat successes * 2 ^ 1074)%Z ->
  fplace y = (Z.of_nat total * 2 ^ 1074)%Z ->
  (successes <= total)%nat -> (0 < total)%nat -> (Z.of_nat total < 2 ^ 53)%Z ->
  isNaN (x / y) = false
  /\ (0 <= fplace (x / y) <= 2 ^ 1074)%Z
  /\ (fplace (x / y) = 0%Z <-> successes = 0%nat)
  /\ (fplace (x / y) = (2 ^ 1074)%Z <-> successes = total)
  /\ ((0 < successes)%nat -> (2 ^ 1021 <= fplace (x / y))%Z).
Proof.
  intros Ns Nt Ps Pt Hle Hpos Hbig.
  assert (P1074 : (0 < 2 ^ 1074)%Z) by (apply Z.pow_pos_nonneg; lia).
  assert (P1021 : (0 < 2 ^ 1021)%Z) by (apply Z.pow_pos_nonneg; lia).
  pose proof (integer_place_bounds y total Pt Hpos Hbig) as Hy.
  destruct successes as [|k].
  - destruct (positive_normal _ Nt Hy) as (m & e & E & _).
    destruct (zero_place x Ns Ps) as [s Ex].
    assert (Hr : Prim2SF (x / y) = S754_zero (xorb s false)).
    { rewrite FloatAxioms.div_spec, E, Ex. reflexivity. }
    rewrite isNaN_spec. unfold fplace. rewrite Hr. cbn [is_nan place scaled].
    split; [reflexivity|]. split; [lia|]. split; [tauto|].
    split; [split; [lia | intros <-; lia] | lia].
  - set (s := S k) in *.
    pose proof (integer_place_bounds x s Ps ltac:(lia) ltac:(lia)) as Hx.
    assert (Hxy : (fplace y <= fplace x * 2 ^ 1000)%Z).
    { rewrite Ps, Pt. change (2 ^ 1000)%Z with (2 ^ 53 * 2 ^ 947)%Z.
      assert (0 < 2 ^ 947)%Z by (apply Z.pow_pos_nonneg; lia). nia. }
    destruct (div_bracket _ _ Ns Nt Hx Hy Hxy) as (Hn & Hp & Hlow & Hhigh).
    rewrite Ps, Pt in Hlow, Hhigh.
    assert (Hone : (fplace (x / y) <= 2 ^ 1074)%Z).
    { apply Hhigh; [apply representable_pow2; lia | nia]. }
    assert (Htiny : (2 ^ 1021 <= fplace (x / y))%Z).
    { apply Hlow; [apply representable_pow2; lia|].
      change (2 ^ 1074)%Z with (2 ^ 53 * 2 ^ 1021)%Z. nia. }
    split; [exact Hn|]. split; [lia|]. split; [split; [lia | unfold s; lia]|].
    split; [|intros _; exact Htiny].
    split.
    + intros Heq. destruct (Nat.eq_dec s total) as [|Hne]; [assumption | exfalso].
      assert (Hpred : (fplace (x / y) <= 2 ^ 1074 - 2 ^ 1021)%Z).
      { apply Hhigh.
        - exists (Z.to_pos (2 ^ 53 - 1)), (-53)%Z. split; [reflexivity|].
          change (-53 + 1074)%Z with 1021%Z. rewrite Z2Pos.id by reflexivity.
          change (2 ^ 1074)%Z with (2 ^ 53 * 2 ^ 1021)%Z. lia.
        - change (2 ^ 1074)%Z with (2 ^ 53 * 2 ^ 1021)%Z. nia. }
      lia.
    + intros <-. apply Z.le_antisymm; [exact Hone|].
      apply Hlow; [apply representable_pow2; lia | lia].
Qed.

(** The RFT rate is a number between 0 and 1; it is 0 only when no record
    counts as a success and 1 only when every record does. *)
Theorem calculateRFT_rate_range `{rt : Runtime} (this : KPICalculator.t) (data : list Record)
    (successField : string) (successValue : Value) :
  (Z.of_nat (List.length data) < 2 ^ 53)%Z ->
  let result := KPICalculator.calculateRFT this data successField successValue in
  let successes :=
    List.length (filter (KPICalculator.isSuccess successField successValue) data) in
  isNaN (KPICalculator.rate result) = false
  /\ (0 <=? KPICalculator.rate result) = true
  /\ (KPICalculator.rate result <=? 1) = true
  /\ ((KPICalculator.rate result =? 0) = true <-> successes = 0%nat)
  /\ ((KPICalculator.rate result =? 1) = true <-> successes = List.length data /\ data <> []).
Proof.
  intros Hbig result successes. unfold result, KPICalculator.calculateRFT.
  cbn [KPICalculator.rate]. fold successes.
  assert (Hle : (successes <= List.length data)%nat) by apply filter_length_le.
  destruct (Nat.ltb_spec 0 (List.length data)) as [Hpos | Hzero].
  - destruct (num_of_nat_exact (List.length data) Hbig) as [Nt Pt].
    destruct (num_of_nat_exact successes ltac:(lia)) as [Ns Ps].
    destruct (integer_ratio _ _ successes (List.length data) Ns Nt Ps Pt Hle Hpos Hbig)
      as (Hn & Hrange & Hzero & Hone & _).
    split; [exact Hn|].
    rewrite !leb_place, !eqb_place by (auto; reflexivity).
    rewrite fplace_zero, fplace_one.
    split; [apply Z.leb_le; lia|]. split; [apply Z.leb_le; lia|].
    split; [rewrite Z.eqb_eq; exact Hzero|].
    rewrite Z.eqb_eq, Hone. split; [|tauto].
    intros E. split; [exact E|]. destruct data; [cbn in Hpos; lia | discriminate].
  - assert (Hd : data = []) by (destruct data; [reflexivity | cbn in Hzero; lia]).
    subst data. cbn in successes. subst successes.
    repeat split; try reflexivity; try discriminate; intros [_ H]; congruence.
Qed.

Lemma calculateRFT_rate_range_witness :
  (Z.of_nat (List.length scenarioA) < 2 ^ 53)%Z
  /\ (KPICalculator.rate (@KPICalculator.calculateRFT exampleRuntime defaultCalculator
                            scenarioA "Success" (Boolean true)) <=? 1) = true.
Proof.
  assert (H : (Z.of_nat (List.length scenarioA) < 2 ^ 53)%Z) by reflexivity.
  split; [exact H|].
  exact (proj1 (proj2 (proj2
    (@calculateRFT_rate_range exampleRuntime defaultCalculator scenarioA "Success"
       (Boolean true) H)))).
Defined.

Local Open Scope Z_scope.

(** Multiplication of normal numbers whose product is not subnormal: the
    result is the rounding of the exact product. *)
Lemma SFmul_normal (sx sy : bool) (mx my : positive) (ex ey : Z) :
  normal mx ex -> normal my ey -> -1074 <= ex + ey ->
  let r := SF64mul (S754_finite sx mx ex) (S754_finite sy my ey) in
  let Px := Zpos mx * 2 ^ (ex + 1074) in
  let Py := Zpos my * 2 ^ (ey + 1074) in
  exists W, 0 < W /\ is_nan r = false /\ place r = cond_Zopp (xorb sx sy) W
    /\ (forall C, representable C -> C * 2 ^ 1074 <= Px * Py -> C <= W)
    /\ (forall C, representable C -> Px * Py <= C * 2 ^ 1074 -> W <= C).
Proof.
  intros Nx Ny He r Px Py.
  destruct (normal_bounds mx ex Nx) as [Hx Hex].
  destruct (normal_bounds my ey Ny) as [Hy Hey].
  unfold r, SF64mul, SFmul.
  pose proof (binary_round_aux_spec (xorb sx sy) (mx * my) (ex + ey) He) as Hspec.
  rewrite digits2_pos_log2, fexp_eq in Hspec.
  assert (Hlog : 104 <= Z.log2 (Zpos (mx * my))).
  { apply Z.log2_le_pow2; [lia|]. rewrite Pos2Z.inj_mul.
    change (2 ^ 104) with (2 ^ 52 * 2 ^ 52). nia. }
  specialize (Hspec ltac:(lia)). cbv zeta in Hspec.
  set (V := Zpos (mx * my) * 2 ^ (ex + ey + 1074)) in *.
  assert (P1074 : 0 < 2 ^ 1074) by (apply Z.pow_pos_nonneg; lia).
  assert (HV : Px * Py = V * 2 ^ 1074).
  { unfold Px, Py, V. rewrite Pos2Z.inj_mul.
    replace (Zpos mx * 2 ^ (ex + 1074) * (Zpos my * 2 ^ (ey + 1074)))
      with (Zpos mx * Zpos my * (2 ^ (ex + 1074) * 2 ^ (ey + 1074))) by ring.
    rewrite <- (Z.pow_add_r 2 (ex + 1074) (ey + 1074)) by lia.
    rewrite <- !Z.mul_assoc, <- (Z.pow_add_r 2 (ex + ey + 1074) 1074) by lia.
    do 3 f_equal. lia. }
  assert (HV0 : 0 < V).
  { unfold V. assert (0 < 2 ^ (ex + ey + 1074)) by (apply Z.pow_pos_nonneg; lia). nia. }
  destruct (binary_round_aux prec emax (xorb sx sy) (Zpos (mx * my)) (ex + ey) loc_Exact)
    as [s | s | | s m e]; try contradiction.
  - destruct Hspec as (-> & W & HW & Hbig).
    exists (2 ^ 2100). split; [apply Z.pow_pos_nonneg; lia|].
    split; [reflexivity|]. split; [reflexivity|]. split.
    + intros C HC _. apply representable_grid in HC as (_ & _ & HC).
      apply Z.lt_le_incl, Z.lt_trans with (2 ^ 2098); [exact HC | reflexivity].
    + intros C HC Hle. exfalso. rewrite HV in Hle.
      assert (HVC : V <= C) by nia.
      pose proof (rounds_to_below V W C HV0 HW HC HVC).
      apply representable_grid in HC as (_ & _ & HC). lia.
  - destruct Hspec as (-> & HW).
    exists (Zpos m * 2 ^ (e + 1074)). split; [now apply (rounds_to_pos V)|].
    split; [reflexivity|]. split; [reflexivity|]. split.
    + intros C HC Hle. rewrite HV in Hle. apply (rounds_to_above V); auto. nia.
    + intros C HC Hle. rewrite HV in Hle. apply (rounds_to_below V); auto. nia.
Qed.

Local Close Scope Z_scope.

Lemma mul_bracket (x y : float) :
  isNaN x = false -> isNaN y = false ->
  (2 ^ 52 <= fplace x < 2 ^ 2100)%Z -> (2 ^ 52 <= fplace y < 2 ^ 2100)%Z ->
  (2 ^ 1180 <= fplace x * fplace y)%Z ->
  isNaN (x * y) = false /\ (0 < fplace (x * y))%Z
  /\ (forall C, representable C -> (C * 2 ^ 1074 <= fplace x * fplace y)%Z ->
        (C <= fplace (x * y))%Z)
  /\ (forall C, representable C -> (fplace x * fplace y <= C * 2 ^ 1074)%Z ->
        (fplace (x * y) <= C)%Z).
Proof.
  intros Nx Ny Hx Hy Hxy.
  destruct (positive_normal x Nx Hx) as (mx & ex & Ex & Hnx & Px).
  destruct (positive_normal y Ny Hy) as (my & ey & Ey & Hny & Py).
  destruct (normal_bounds mx ex Hnx) as [Bx Bex].
  destruct (normal_bounds my ey Hny) as [By Bey].
  assert (He : (-1074 <= ex + ey)%Z).
  { rewrite Px, Py in Hxy.
    destruct (Z_lt_le_dec (ex + ey) (-1074)) as [Hlt | Hge]; [exfalso | exact Hge].
    assert (H1 : (Zpos mx * 2 ^ (ex + 1074) * (Zpos my * 2 ^ (ey + 1074))
                  = Zpos mx * Zpos my * 2 ^ (ex + ey + 2148))%Z).
    { replace (ex + ey + 2148)%Z with ((ex + 1074) + (ey + 1074))%Z by lia.
      rewrite (Z.pow_add_r 2 (ex + 1074) (ey + 1074)) by lia. ring. }
    rewrite H1 in Hxy.
    assert (H2 : (2 ^ (ex + ey + 2148) <= 2 ^ 1073)%Z) by (apply Z.pow_le_mono_r; lia).
    assert (H3 : (0 < 2 ^ (ex + ey + 2148))%Z) by (apply Z.pow_pos_nonneg; lia).
    assert (H4 : (Zpos mx * Zpos my < 2 ^ 53 * 2 ^ 53)%Z)
      by (apply Z.mul_lt_mono_nonneg; lia).
    assert (H5 : (Zpos mx * Zpos my * 2 ^ (ex + ey + 2148) < 2 ^ 53 * 2 ^ 53 * 2 ^ 1073)%Z).
    { apply Z.lt_le_trans with (2 ^ 53 * 2 ^ 53 * 2 ^ (ex + ey + 2148))%Z.
      - apply Z.mul_lt_mono_pos_r; assumption.
      - apply Z.mul_le_mono_nonneg_l; [apply Z.lt_le_incl; reflexivity | exact H2]. }
    change (2 ^ 53 * 2 ^ 53 * 2 ^ 1073)%Z with (2 ^ 1179)%Z in H5.
    assert (2 ^ 1179 < 2 ^ 1180)%Z by reflexivity. lia. }
  pose proof (SFmul_normal false false mx my ex ey Hnx Hny He) as H.
  cbv zeta in H. destruct H as (W & HW & Hnan & Hplace & Hlow & Hhigh).
  assert (Hq : Prim2SF (x * y) = SF64mul (S754_finite false mx ex) (S754_finite false my ey))
    by (now rewrite FloatAxioms.mul_spec, Ex, Ey).
  cbn [xorb cond_Zopp] in Hplace.
  assert (Hfq : fplace (x * y) = W) by (unfold fplace; now rewrite Hq).
  rewrite Hfq, isNaN_spec, Hq, Px, Py. now repeat split.
Qed.

(** Subtracting 1 from a whole number of at least 1 is exact. *)
Lemma minus_one_exact (x : float) (n : nat) :
  isNaN x = false -> fplace x = (Z.of_nat n * 2 ^ 1074)%Z ->
  (0 < n)%nat -> (Z.of_nat n < 2 ^ 53)%Z ->
  isNaN (x - 1) = false /\ fplace (x - 1) = ((Z.of_nat n - 1) * 2 ^ 1074)%Z.
Proof.
  intros Nx Px Hn Hbig.
  pose proof (integer_place_bounds x n Px Hn Hbig) as Hx.
  destruct (positive_normal x Nx Hx) as (m & e & Ex & [Hb _] & Pm).
  assert (E1 : Prim2SF 1 = S754_finite false 4503599627370496 (-52)) by reflexivity.
  pose proof (SFsub_finite false false m 4503599627370496 e (-52) Hb eq_refl) as Hr.
  assert (Hs : Prim2SF (x - 1) = SF64sub (S754_finite false m e)
                                   (S754_finite false 4503599627370496 (-52)))
    by (now rewrite FloatAxioms.sub_spec, Ex, E1).
  rewrite <- Hs in Hr.
  assert (HV : (scaled (S754_finite false m e)
                - scaled (S754_finite false 4503599627370496 (-52))
                = (Z.of_nat n - 1) * 2 ^ 1074)%Z).
  { cbn [scaled cond_Zopp]. rewrite <- Pm, Px.
    change (4503599627370496 * 2 ^ (-52 + 1074))%Z with (2 ^ 1074)%Z. ring. }
  rewrite HV in Hr.
  destruct (rounded_place _ _ Hr) as (Hnan & Hsign & Hlo & Hhi & _).
  rewrite isNaN_spec. split; [exact Hnan|]. unfold fplace.
  destruct (Z.eq_dec (Z.of_nat n) 1) as [E | E].
  - rewrite E in *. cbn [Z.sub Z.mul Z.pos_sub Z.add Z.opp] in *.
    destruct (Z.compare_spec (place (Prim2SF (x - 1))) 0); try discriminate. assumption.
  - assert (Hrep : representable ((Z.of_nat n - 1) * 2 ^ 1074))
      by (apply representable_int; lia).
    specialize (Hlo _ Hrep ltac:(lia)). specialize (Hhi _ Hrep ltac:(lia)). lia.
Qed.

(* ================================================================== *)
(** ** The percentile of the ranking *)

(** [count / Math.max(1, groups - 1) * 100] for a count of at most
    [groups - 1]: a number between 0 and 100, 0 only for the count 0. *)
Lemma percentage_range (count groups : nat) :
  (0 < groups)%nat -> (count <= groups - 1)%nat -> (Z.of_nat groups < 2 ^ 53)%Z ->
  let percentage :=
    num_of_nat count / Math_max 1 (num_of_nat groups - 1) * 100 in
  isNaN percentage = false
  /\ (0 <= fplace percentage <= 100 * 2 ^ 1074)%Z
  /\ (fplace percentage = 0%Z <-> count = 0%nat).
Proof.
  intros Hg Hc Hbig.
  assert (P1074 : (0 < 2 ^ 1074)%Z) by (apply Z.pow_pos_nonneg; lia).
  destruct (num_of_nat_exact groups Hbig) as [Ng Pg].
  destruct (minus_one_exact _ groups Ng Pg Hg Hbig) as [Nd Pd].
  set (d := num_of_nat groups - 1) in *.
  assert (Hmax : isNaN (Math_max 1 d) = false
                 /\ fplace (Math_max 1 d) = (Z.of_nat (Nat.max 1 (groups - 1)) * 2 ^ 1074)%Z).
  { destruct (Math_max_cases 1 d) as [[_ [H | H]] | (_ & _ & Hsel & Hp)].
    - discriminate.
    - congruence.
    - split; [destruct Hsel as [-> | ->]; [reflexivity | exact Nd]|].
      rewrite Hp, Pd, fplace_one.
      destruct (Nat.max_spec 1 (groups - 1)) as [[Hlt ->] | [Hle ->]]; nia. }
  destruct Hmax as [Nm Pm].
  set (total := Nat.max 1 (groups - 1)) in *.
  destruct (num_of_nat_exact count ltac:(lia)) as [Nc Pc].
  destruct (integer_ratio _ _ count total Nc Nm Pc Pm ltac:(lia) ltac:(lia) ltac:(lia))
    as (Nr & Hrange & Hzero & _ & Hlow).
  set (ratio := num_of_nat count / Math_max 1 d) in *.
  cbv zeta.
  assert (N100 : isNaN 100 = false) by reflexivity.
  assert (P100 : fplace 100 = (100 * 2 ^ 1074)%Z) by reflexivity.
  destruct (Nat.eq_dec count 0) as [E0 | Hne].
  - destruct (zero_place ratio Nr (proj2 Hzero E0)) as [s Es].
    assert (Hr : Prim2SF (ratio * 100) = S754_zero (xorb s false)).
    { rewrite FloatAxioms.mul_spec, Es. reflexivity. }
    rewrite isNaN_spec. unfold fplace. rewrite Hr. cbn [is_nan place scaled].
    split; [reflexivity|]. split; [lia | tauto].
  - specialize (Hlow ltac:(lia)).
    assert (P1021 : (0 < 2 ^ 1021)%Z) by (apply Z.pow_pos_nonneg; lia).
    assert (Hx : (2 ^ 52 <= fplace ratio < 2 ^ 2100)%Z).
    { split.
      - apply Z.le_trans with (2 ^ 1021)%Z; [apply Z.pow_le_mono_r; lia | exact Hlow].
      - apply Z.le_lt_trans with (2 ^ 1074)%Z; [lia | apply Z.pow_lt_mono_r; lia]. }
    assert (Hy : (2 ^ 52 <= fplace 100 < 2 ^ 2100)%Z)
      by (apply (integer_place_bounds 100 100); [exact P100 | lia | lia]).
    assert (Hxy : (2 ^ 1180 <= fplace ratio * fplace 100)%Z).
    { rewrite P100.
      assert (2 ^ 1180 <= 2 ^ 1021 * 2 ^ 1074)%Z
        by (rewrite <- Z.pow_add_r by lia; apply Z.pow_le_mono_r; lia).
      nia. }
    destruct (mul_bracket ratio 100 Nr N100 Hx Hy Hxy) as (Nn & Hpos & _ & Hhigh).
    split; [exact Nn|]. split; [|split; [lia | intros ->; lia]].
    split; [lia|]. apply Hhigh; [apply (representable_int 100); lia|].
    rewrite P100. nia.
Qed.

(** Every [percentileBetter] of the ranking is a number between 0 and 100,
    and it is 0 exactly when the group is significantly better than no
    other group. *)
Theorem identifyBestPerformers_percentile `{rt : Runtime} (this : ProcessAnalytics.t)
    (data : list Record) (processTypeField performanceField : string)
    (higherIsBetter : bool) (result : list ProcessAnalytics.Performer) :
  ProcessAnalytics.identifyBestPerformers this data processTypeField performanceField
    higherIsBetter = Some result ->
  (Z.of_nat (List.length data) < 2 ^ 53)%Z ->
  Forall (fun r =>
            isNaN (ProcessAnalytics.percentileBetter r) = false
            /\ (0 <=? ProcessAnalytics.percentileBetter r) = true
            /\ (ProcessAnalytics.percentileBetter r <=? 100) = true
            /\ ((ProcessAnalytics.percentileBetter r =? 0) = true
                <-> ProcessAnalytics.significantlyBetterCount r = 0%nat))
         result.
Proof.
  intros H Hbig.
  pose proof (identifyBestPerformers_length this data _ _ _ result H) as Hlen.
  revert H. unfold ProcessAnalytics.identifyBestPerformers.
  destruct (ProcessAnalytics.groupByProcessType data processTypeField) as [processByType|];
    [|discriminate].
  set (sorted := sort (ProcessAnalytics.comparePerformance higherIsBetter)
                      (ProcessAnalytics.processPerformance this performanceField
                         processByType)).
  intros [= <-].
  rewrite length_map, length_combine, length_seq, Nat.min_id in Hlen.
  apply Forall_forall. intros r Hr. apply in_map_iff in Hr as ([index p] & <- & Hip).
  assert (Hidx : (index < List.length sorted)%nat).
  { apply in_combine_l in Hip. apply in_seq in Hip. lia. }
  cbn [ProcessAnalytics.rankPerformer ProcessAnalytics.percentileBetter
       ProcessAnalytics.significantlyBetterCount].
  rewrite others_split.
  set (count := List.length
                  (filter (ProcessAnalytics.significantlyBetterThan this higherIsBetter p)
                          (firstn index sorted ++ skipn (S index) sorted))).
  assert (Hcount : (count <= List.length sorted - 1)%nat).
  { unfold count. etransitivity; [apply filter_length_le|].
    rewrite length_app, length_firstn, length_skipn. lia. }
  destruct (percentage_range count (List.length sorted) ltac:(lia) Hcount ltac:(lia))
    as (Hn & Hrange & Hzero).
  split; [exact Hn|].
  rewrite !leb_place, eqb_place by (auto; reflexivity).
  change (fplace 100) with (100 * 2 ^ 1074)%Z. rewrite fplace_zero.
  split; [apply Z.leb_le; lia|]. split; [apply Z.leb_le; lia|].
  rewrite Z.eqb_eq. exact Hzero.
Qed.

Lemma identifyBestPerformers_percentile_witness :
  exists result,
    @ProcessAnalytics.identifyBestPerformers exampleRuntime defaultAnalytics twoThenOne
      "ProcessType" "Success" true = Some result
    /\ (Z.of_nat (List.length twoThenOne) < 2 ^ 53)%Z
    /\ Forall (fun r => (ProcessAnalytics.percentileBetter r <=? 100) = true) result.
Proof.
  destruct (@ProcessAnalytics.identifyBestPerformers exampleRuntime defaultAnalytics twoThenOne
              "ProcessType" "Success" true) as [result|] eqn:E;
    [|vm_compute in E; discriminate].
  exists result. split; [reflexivity|].
  assert (H : (Z.of_nat (List.length twoThenOne) < 2 ^ 53)%Z) by reflexivity.
  split; [exact H|].
  eapply Forall_impl;
    [|exact (@identifyBestPerformers_percentile exampleRuntime defaultAnalytics twoThenOne
               "ProcessType" "Success" true result E H)].
  intros r (_ & _ & Hr & _). exact Hr.
Defined.
